(** * Trade execution and pricing engine of the football prediction market

    A shallow embedding of the route handlers that move money, shares and
    probabilities:

    - [src/app/api/trades/route.ts]          (POST: immediate trade against
                                              the current probability)
    - the position-aware copy of that route   (POST with [positionType])
    - the order route                          (POST: place an order;
                                              [updateHoldings],
                                              [recordTransaction],
                                              [updateProbabilities])
    - [src/app/api/orders/[id]/route.ts]      (DELETE: cancel an order)
    - [src/app/api/markets/[id]/route.ts]     (PATCH: resolve a market)

    Numbers.  The handlers compute with JavaScript numbers and store Prisma
    [Decimal]s.  Here both are exact rationals ([Q]); [toFixed(4)] is
    rounding to the nearest multiple of 1/10000, ties away from zero.  A
    division whose divisor is zero (JavaScript: [Infinity] or [NaN], which
    no [Decimal] column accepts) makes the enclosing transaction fail.
    Statements about numbers are therefore statements about the exact
    arithmetic the code spells out, not about binary floating point.
    Two places depend on the difference and are stated accordingly: a
    stored probability is given as a number of ten-thousandths within one
    unit of the fourth decimal place of the formula's value (which way a
    half-way value is rounded is left open), and the statuses the
    matching loop writes are given for whole-number amounts, whose
    remainders and minima JavaScript computes exactly.

    Store.  Each Prisma model is a list of rows in insertion order; [cuid]
    identifiers are natural numbers drawn from a counter.  A handler is a
    function from a store to either an error or a new store: the body of
    [prisma.$transaction] either commits as a whole or leaves the store
    as it was. *)

From Stdlib Require Import QArith Qround Qminmax Qabs Lqa ZArith Lia.
From Stdlib Require Import List Bool Arith PeanoNat.
From Stdlib Require Import Sorting.Sorted Sorting.Permutation.
Import ListNotations.

Open Scope Q_scope.

(** ** JavaScript numbers as rationals *)

Module JsNumber.

(** [a < b] on numbers, as a boolean. *)
Definition ltb (a b : Q) : bool := negb (Qle_bool b a).

(** [Math.max(a, b)] and [Math.min(a, b)]. *)
Definition mathMax (a b : Q) : Q := if Qle_bool a b then b else a.
Definition mathMin (a b : Q) : Q := if Qle_bool a b then a else b.

(** [parseFloat(x.toFixed(4))]: the multiple of 1/10000 nearest to [x];
    of two equally near ones the one of larger magnitude. *)
Definition toFixed4 (x : Q) : Q :=
  if ltb x 0
  then Qred (- (inject_Z (Qfloor ((- x) * 10000 + (1 # 2))) / 10000))
  else Qred (inject_Z (Qfloor (x * 10000 + (1 # 2))) / 10000).

(** [v || d]: [d] when [v] is zero, [v] otherwise. *)
Definition orElse (v d : Q) : Q := if Qeq_bool v 0 then d else v.

End JsNumber.
Import JsNumber.

(** ** Errors and the result monad *)

(** The failures a handler reports, named after the response it sends. *)
Inductive Error : Type :=
  | UserNotFound          (* 404 "User not found" *)
  | NotFound              (* 404 "Market not found" / "Order not found" *)
  | Forbidden             (* 403 *)
  | ValidationError       (* 400 from the zod schema or a missing field *)
  | MarketResolved        (* 400 "Cannot ... on a resolved market" *)
  | InvalidOutcome        (* 400 "Invalid outcome ID" *)
  | InsufficientBalance   (* 400 "Insufficient balance" *)
  | InsufficientShares    (* 400, or the throw inside the transaction *)
  | AlreadyClosed         (* 400 "Only open orders can be cancelled" *)
  | AlreadyResolved       (* 400 "This market is already resolved" *)
  | TransactionFailed.    (* 500: an exception inside $transaction *)

Inductive Res (A : Type) : Type :=
  | Ok (a : A)
  | Fail (e : Error).
Arguments Ok {A} a.
Arguments Fail {A} e.

Definition bind {A B : Type} (r : Res A) (k : A -> Res B) : Res B :=
  match r with
  | Ok a => k a
  | Fail e => Fail e
  end.

Notation "x <- r ;; k" := (bind r (fun x => k))
  (at level 61, r at next level, right associativity).

(** [a / b] inside a transaction. *)
Definition divide (a b : Q) : Res Q :=
  if Qeq_bool b 0 then Fail TransactionFailed else Ok (a / b).

(** ** Data model (prisma/schema.prisma) *)

Definition Id := nat.

Inductive Side : Type := BUY | SELL.
Inductive OrderType : Type := LIMIT | MARKET.
Inductive Status : Type := OPEN | FILLED | CANCELLED.
Inductive PositionType : Type := YES | NO.
Inductive TransactionType : Type :=
  | TRADE_BUY | TRADE_SELL | TRADE
  | ORDER_RESERVE | ORDER_CANCEL_REFUND | ORDER_REFUND
  | MARKET_RESOLUTION_PAYOUT.

Definition Side_eqb (a b : Side) : bool :=
  match a, b with BUY, BUY | SELL, SELL => true | _, _ => false end.
Definition Status_eqb (a b : Status) : bool :=
  match a, b with
  | OPEN, OPEN | FILLED, FILLED | CANCELLED, CANCELLED => true
  | _, _ => false
  end.
Definition opposite (t : Side) : Side :=
  match t with BUY => SELL | SELL => BUY end.

Record User : Type := mkUser {
  user_id : Id;
  user_balance : Q;
  user_isAdmin : bool }.

Record Market : Type := mkMarket {
  market_id : Id;
  market_volume : Q;
  market_isResolved : bool;
  market_resolvedOutcomeId : option Id }.

Record Outcome : Type := mkOutcome {
  outcome_id : Id;
  outcome_marketId : Id;
  outcome_probability : Q;
  outcome_isResolved : bool }.

Record Order : Type := mkOrder {
  order_id : Id;
  order_userId : Id;
  order_marketId : Id;
  order_outcomeId : Id;
  order_type : Side;
  order_orderType : OrderType;
  order_amount : Q;
  order_price : Q;
  order_filled : Q;
  order_status : Status }.

Record Trade : Type := mkTrade {
  trade_userId : Id;
  trade_marketId : Id;
  trade_outcomeId : Id;
  trade_amount : Q;
  trade_price : Q;
  trade_type : Side }.

Record UserOutcome : Type := mkUserOutcome {
  holding_id : Id;
  holding_userId : Id;
  holding_outcomeId : Id;
  holding_quantity : Q;
  holding_avgPrice : Q }.

(** [metadata] is the JSON string [{"profitLoss": x}] when present. *)
Record Transaction : Type := mkTransaction {
  txn_userId : Id;
  txn_amount : Q;
  txn_type : TransactionType;
  txn_metadata : option Q }.

Record Store : Type := mkStore {
  users : list User;
  markets : list Market;
  outcomes : list Outcome;
  orders : list Order;
  trades : list Trade;
  holdings : list UserOutcome;
  transactions : list Transaction;
  nextId : Id }.

Definition with_users (st : Store) (x : list User) : Store :=
  mkStore x (markets st) (outcomes st) (orders st) (trades st)
          (holdings st) (transactions st) (nextId st).
Definition with_markets (st : Store) (x : list Market) : Store :=
  mkStore (users st) x (outcomes st) (orders st) (trades st)
          (holdings st) (transactions st) (nextId st).
Definition with_outcomes (st : Store) (x : list Outcome) : Store :=
  mkStore (users st) (markets st) x (orders st) (trades st)
          (holdings st) (transactions st) (nextId st).
Definition with_orders (st : Store) (x : list Order) : Store :=
  mkStore (users st) (markets st) (outcomes st) x (trades st)
          (holdings st) (transactions st) (nextId st).
Definition with_trades (st : Store) (x : list Trade) : Store :=
  mkStore (users st) (markets st) (outcomes st) (orders st) x
          (holdings st) (transactions st) (nextId st).
Definition with_holdings (st : Store) (x : list UserOutcome) : Store :=
  mkStore (users st) (markets st) (outcomes st) (orders st) (trades st)
          x (transactions st) (nextId st).
Definition with_transactions (st : Store) (x : list Transaction) : Store :=
  mkStore (users st) (markets st) (outcomes st) (orders st) (trades st)
          (holdings st) x (nextId st).
Definition with_nextId (st : Store) (x : Id) : Store :=
  mkStore (users st) (markets st) (outcomes st) (orders st) (trades st)
          (holdings st) (transactions st) x.

(** ** Prisma primitives on one table *)

Section Table.
Context {A : Type} (key : A -> Id).

(** [findUnique({ where: { id } })]. *)
Definition findUnique (id : Id) (tbl : list A) : option A :=
  find (fun r => key r =? id)%nat tbl.

(** [update({ where: { id }, data })]: throws when no row has the id. *)
Definition update (id : Id) (f : A -> A) (tbl : list A) : Res (list A) :=
  if existsb (fun r => key r =? id)%nat tbl
  then Ok (map (fun r => if (key r =? id)%nat then f r else r) tbl)
  else Fail TransactionFailed.

(** [delete({ where: { id } })]: throws when no row has the id. *)
Definition delete (id : Id) (tbl : list A) : Res (list A) :=
  if existsb (fun r => key r =? id)%nat tbl
  then Ok (filter (fun r => negb (key r =? id)%nat) tbl)
  else Fail TransactionFailed.
(** The row an update by identifier writes. *)
Definition updAt (id : Id) (f : A -> A) (r : A) : A :=
  if (key r =? id)%nat then f r else r.

(** Does some row have the identifier? *)
Definition hasKey (id : Id) (tbl : list A) : bool :=
  existsb (fun r => (key r =? id)%nat) tbl.

(** Updating, one after the other, the rows whose identifiers are those
    of [sel]: row [r] is rewritten by [g s r], [s] the selected row with
    the identifier of [r]. *)
Definition touch (sel : list A) (g : A -> A -> A) (r : A) : A :=
  match findUnique (key r) sel with
  | Some s => g s r
  | None => r
  end.

End Table.

Definition setBalance (f : Q -> Q) (u : User) : User :=
  mkUser (user_id u) (f (user_balance u)) (user_isAdmin u).
Definition setVolume (f : Q -> Q) (m : Market) : Market :=
  mkMarket (market_id m) (f (market_volume m)) (market_isResolved m)
           (market_resolvedOutcomeId m).
Definition setProbability (p : Q) (o : Outcome) : Outcome :=
  mkOutcome (outcome_id o) (outcome_marketId o) p (outcome_isResolved o).
Definition setQuantity (f : Q -> Q) (h : UserOutcome) : UserOutcome :=
  mkUserOutcome (holding_id h) (holding_userId h) (holding_outcomeId h)
                (f (holding_quantity h)) (holding_avgPrice h).
Definition setFilledStatus (f : Q -> Q) (s : Status) (o : Order) : Order :=
  mkOrder (order_id o) (order_userId o) (order_marketId o) (order_outcomeId o)
          (order_type o) (order_orderType o) (order_amount o) (order_price o)
          (f (order_filled o)) s.
Definition setStatus (s : Status) (o : Order) : Order :=
  setFilledStatus (fun x => x) s o.

(** [tx.user.update({ where: { id }, data: { balance: { increment } } })];
    a decrement is an increment by the opposite. *)
Definition incrementBalance (userId : Id) (d : Q) (st : Store) : Res Store :=
  us <- update user_id userId (setBalance (fun b => b + d)) (users st) ;;
  Ok (with_users st us).

(** [tx.transaction.create]. *)
Definition createTransaction (t : Transaction) (st : Store) : Store :=
  with_transactions st (transactions st ++ [t]).

(** [tx.trade.create]. *)
Definition createTrade (t : Trade) (st : Store) : Store :=
  with_trades st (trades st ++ [t]).

(** [tx.market.update({ where: { id }, data: { volume: { increment } } })]. *)
Definition incrementVolume (marketId : Id) (d : Q) (st : Store) : Res Store :=
  ms <- update market_id marketId (setVolume (fun v => v + d)) (markets st) ;;
  Ok (with_markets st ms).

(** [tx.userOutcome.findFirst({ where: { userId, outcomeId } })]. *)
Definition findHolding (userId outcomeId : Id) (st : Store)
  : option UserOutcome :=
  find (fun h => (holding_userId h =? userId)%nat
                 && (holding_outcomeId h =? outcomeId)%nat) (holdings st).

(** [tx.userOutcome.create]: the new row takes the next identifier. *)
Definition createHolding (userId outcomeId : Id) (quantity avgPrice : Q)
    (st : Store) : Store :=
  with_nextId
    (with_holdings st
       (holdings st
          ++ [mkUserOutcome (nextId st) userId outcomeId quantity avgPrice]))
    (S (nextId st)).

(** [prisma.outcome.findFirst({ where: { id, marketId } })]. *)
Definition findOutcomeIn (outcomeId marketId : Id) (st : Store)
  : option Outcome :=
  find (fun o => (outcome_id o =? outcomeId)%nat
                 && (outcome_marketId o =? marketId)%nat) (outcomes st).

(** ** Pricing engine *)

(** The new probability of the traded outcome: the impact computation, the
    clamp to 1%-99% and the rounding, as written in the trade route (lines
    372-399) and again in [updateProbabilities] of the order route (lines
    560-584).  [volume] is the market volume the caller read. *)
Definition newProbabilityFor (type : Side)
    (currentProbability tradeAmount volume : Q) : Q :=
  let marketVolume := orElse volume 1 in
  let volumeRatio := tradeAmount / marketVolume in
  let impactFactor := 0.001 * volumeRatio * 100 in
  let newProbability :=
    match type with
    | BUY =>
        let maxIncrease := 1 - currentProbability in
        let effectiveIncrease := impactFactor * maxIncrease in
        currentProbability + effectiveIncrease
    | SELL =>
        let maxDecrease := currentProbability in
        let effectiveDecrease := impactFactor * maxDecrease in
        currentProbability - effectiveDecrease
    end in
  toFixed4 (mathMax 0.01 (mathMin 0.99 newProbability)).

(** [Promise.all(otherOutcomes.map(...))]: every sibling row is rewritten
    from the probability read in [otherOutcomes]; a [scaleFactor] that is
    not a number fails at the first write. *)
Fixpoint updateOthers (otherOutcomes : list Outcome) (scaleFactor : Res Q)
    (tbl : list Outcome) : Res (list Outcome) :=
  match otherOutcomes with
  | [] => Ok tbl
  | outcome :: rest =>
      s <- scaleFactor ;;
      let newOtherProb := outcome_probability outcome * s in
      tbl' <- update outcome_id (outcome_id outcome)
                (setProbability (toFixed4 newOtherProb)) tbl ;;
      updateOthers rest scaleFactor tbl'
  end.

(** "Update all outcomes' probabilities to maintain sum=1", then "Update
    the traded outcome" (trade route lines 401-435, order route lines
    586-620). *)
Definition redistribute (marketId outcomeId : Id) (newProbability : Q)
    (st : Store) : Res Store :=
  let allOutcomes :=
    filter (fun o => (outcome_marketId o =? marketId)%nat) (outcomes st) in
  tbl <- (if (1 <? length allOutcomes)%nat
          then
            let otherOutcomes :=
              filter (fun o => negb (outcome_id o =? outcomeId)%nat)
                     allOutcomes in
            let totalOtherProbability :=
              fold_left (fun sum o => sum + outcome_probability o)
                        otherOutcomes 0 in
            let scaleFactor :=
              divide (1 - newProbability) totalOtherProbability in
            updateOthers otherOutcomes scaleFactor (outcomes st)
          else Ok (outcomes st)) ;;
  tbl' <- update outcome_id outcomeId (setProbability newProbability) tbl ;;
  Ok (with_outcomes st tbl').

(** [updateProbabilities(tx, marketId, outcomeId, amount, type)] of the
    order route: outcome and market are read again inside the transaction. *)
Definition updateProbabilities (marketId outcomeId : Id) (amount : Q)
    (type : Side) (st : Store) : Res Store :=
  match findUnique outcome_id outcomeId (outcomes st),
        findUnique market_id marketId (markets st) with
  | Some outcome, Some market =>
      redistribute marketId outcomeId
        (newProbabilityFor type (outcome_probability outcome) amount
           (market_volume market)) st
  | _, _ => Fail TransactionFailed
  end.

(** ** Position book and ledger helpers of the order route *)

Definition setPosition (quantity avgPrice : Q) (h : UserOutcome)
  : UserOutcome :=
  mkUserOutcome (holding_id h) (holding_userId h) (holding_outcomeId h)
                quantity avgPrice.

(** [updateHoldings(tx, userId, outcomeId, amount, price, type)]. *)
Definition updateHoldings (userId outcomeId : Id) (amount price : Q)
    (type : Side) (st : Store) : Res Store :=
  let existingHolding := findHolding userId outcomeId st in
  match type with
  | BUY =>
      match existingHolding with
      | Some h =>
          let currentQuantity := holding_quantity h in
          let currentValue := currentQuantity * holding_avgPrice h in
          let newValue := currentValue + amount * price in
          let newQuantity := currentQuantity + amount in
          newAvgPrice <- divide newValue newQuantity ;;
          hs <- update holding_id (holding_id h)
                  (setPosition newQuantity newAvgPrice) (holdings st) ;;
          Ok (with_holdings st hs)
      | None => Ok (createHolding userId outcomeId amount price st)
      end
  | SELL =>
      match existingHolding with
      | Some h =>
          hs <- update holding_id (holding_id h)
                  (setQuantity (fun q => q - amount)) (holdings st) ;;
          Ok (with_holdings st hs)
      | None => Fail TransactionFailed
      end
  end.

(** [recordTransaction(tx, userId, amount, sign)]. *)
Definition recordTransaction (userId : Id) (amount sign : Q) (st : Store)
  : Store :=
  createTransaction (mkTransaction userId (amount * sign) TRADE None) st.

(** ** POST /api/trades: immediate trade at the current probability *)

Record TradeRequest : Type := mkTradeRequest {
  treq_marketId : Id;
  treq_outcomeId : Id;
  treq_amount : Q;
  treq_type : Side;
  treq_isSharesMode : bool }.

(** Lines 192-230, "For SELL trades, check available shares first": the
    holding read here is the [userHolding] the rest of the body uses.
    [outcome] is the row read before the transaction. *)
Definition checkShares (user : User) (outcome : Outcome) (req : TradeRequest)
    (st : Store) : Res (option UserOutcome) :=
  let outcomeId := treq_outcomeId req in
  let amount := treq_amount req in
  let outcomeProbabilityNum := outcome_probability outcome in
  match treq_type req with
  | SELL =>
      let userHolding := findHolding (user_id user) outcomeId st in
      match findUnique outcome_id outcomeId (outcomes st) with
      | None => Fail TransactionFailed
      | Some _ =>
          sharesToSell <-
            (if treq_isSharesMode req then Ok amount
             else divide amount outcomeProbabilityNum) ;;
          match userHolding with
          | None => Fail InsufficientShares
          | Some h =>
              if ltb (holding_quantity h) sharesToSell
              then Fail InsufficientShares
              else Ok userHolding
          end
      end
  | BUY => Ok None
  end.

(** Lines 244-305, "Handle holdings differently based on trade type": the
    new store and [profitLoss]. *)
Definition applyHoldings (user : User) (outcome : Outcome)
    (req : TradeRequest) (userHolding : option UserOutcome) (st : Store)
  : Res (Store * Q) :=
  let outcomeId := treq_outcomeId req in
  let amount := treq_amount req in
  let isSharesMode := treq_isSharesMode req in
  let outcomeProbabilityNum := outcome_probability outcome in
  match treq_type req with
  | BUY =>
      sharesPurchased <- divide amount outcomeProbabilityNum ;;
      match findHolding (user_id user) outcomeId st with
      | Some existingHolding =>
          let currentQuantity := holding_quantity existingHolding in
          let currentValue :=
            currentQuantity * holding_avgPrice existingHolding in
          let newQuantity := currentQuantity + sharesPurchased in
          let newValue := currentValue + amount in
          newAvgPrice <- divide newValue newQuantity ;;
          hs <- update holding_id (holding_id existingHolding)
                  (setPosition newQuantity newAvgPrice) (holdings st) ;;
          Ok (with_holdings st hs, 0)
      | None =>
          Ok (createHolding (user_id user) outcomeId sharesPurchased
                (outcome_probability outcome) st, 0)
      end
  | SELL =>
      sharesToSell <-
        (if isSharesMode then Ok amount
         else divide amount outcomeProbabilityNum) ;;
      let sellAmount :=
        if isSharesMode then amount * outcomeProbabilityNum else amount in
      match userHolding with
      | Some h =>
          hs <- update holding_id (holding_id h)
                  (setQuantity (fun q => q - sharesToSell)) (holdings st) ;;
          let costBasis := sharesToSell * holding_avgPrice h in
          Ok (with_holdings st hs, sellAmount - costBasis)
      | None => Ok (st, sellAmount - 0)
      end
  end.

(** Lines 307-333, "Update the user's balance". *)
Definition applyBalance (user : User) (outcome : Outcome) (req : TradeRequest)
    (st : Store) : Res Store :=
  let amount := treq_amount req in
  match treq_type req with
  | BUY =>
      let costOfPurchase := amount in
      incrementBalance (user_id user) (- costOfPurchase) st
  | SELL =>
      let outcomeProbabilityNum := outcome_probability outcome in
      let sellAmount :=
        if treq_isSharesMode req then amount * outcomeProbabilityNum
        else amount in
      incrementBalance (user_id user) sellAmount st
  end.

(** Lines 335-360, "Record the transaction with metadata to store
    profit/loss info": the row created. *)
Definition tradeLedgerRow (user : User) (outcome : Outcome)
    (req : TradeRequest) (profitLoss : Q) : Transaction :=
  let amount := treq_amount req in
  let transactionAmount :=
    match treq_type req with
    | BUY => - amount
    | SELL =>
        if treq_isSharesMode req then amount * outcome_probability outcome
        else amount
    end in
  mkTransaction (user_id user) transactionAmount
    (match treq_type req with SELL => TRADE_SELL | BUY => TRADE_BUY end)
    (match treq_type req with
     | SELL => if Qeq_bool profitLoss 0 then None else Some profitLoss
     | BUY => None
     end).

(** The body of [prisma.$transaction] in [src/app/api/trades/route.ts].
    [user], [market] and [outcome] are the rows read before the
    transaction starts; the body never reads them again. *)
Definition tradeTransaction (user : User) (market : Market)
    (outcome : Outcome) (req : TradeRequest) (st : Store) : Res Store :=
  let marketId := treq_marketId req in
  let outcomeId := treq_outcomeId req in
  let amount := treq_amount req in
  let type := treq_type req in
  userHolding <- checkShares user outcome req st ;;
  (* Create the trade record *)
  let st := createTrade (mkTrade (user_id user) marketId outcomeId amount
                           (outcome_probability outcome) type) st in
  r <- applyHoldings user outcome req userHolding st ;;
  st <- applyBalance user outcome req (fst r) ;;
  let st := createTransaction (tradeLedgerRow user outcome req (snd r)) st in
  (* Update the market volume (use the dollar amount, not share quantity) *)
  st <- incrementVolume marketId amount st ;;
  (* New probability from the rows read before the transaction *)
  let newProbability :=
    newProbabilityFor type (outcome_probability outcome) amount
                      (market_volume market) in
  redistribute marketId outcomeId newProbability st.

(** [POST] of [src/app/api/trades/route.ts]; [caller] is the user the
    session resolves to. *)
Definition POST_trades (caller : Id) (req : TradeRequest) (st : Store)
  : Res Store :=
  match findUnique user_id caller (users st) with
  | None => Fail UserNotFound
  | Some user =>
      if negb (ltb 0 (treq_amount req)) then Fail ValidationError else
      match findUnique market_id (treq_marketId req) (markets st) with
      | None => Fail NotFound
      | Some market =>
          if market_isResolved market then Fail MarketResolved else
          match findOutcomeIn (treq_outcomeId req) (treq_marketId req) st with
          | None => Fail InvalidOutcome
          | Some outcome =>
              if Side_eqb (treq_type req) BUY
                 && ltb (user_balance user) (treq_amount req)
              then Fail InsufficientBalance
              else tradeTransaction user market outcome req st
          end
      end
  end.

(** ** POST /api/orders: place an order *)

Record OrderRequest : Type := mkOrderRequest {
  oreq_marketId : Id;
  oreq_outcomeId : Id;
  oreq_type : Side;
  oreq_orderType : OrderType;
  oreq_amount : Q;
  oreq_price : option Q }.

Record OrderResult : Type := mkOrderResult {
  result_order : Order;
  result_matchedOrders : list Id;
  result_fullyFilled : bool }.

(** [orderBy: { price: "asc" | "desc" }]: rows of equal price keep the
    order of the table. *)
Definition priceBefore (type : Side) (a b : Order) : bool :=
  match type with
  | BUY => Qle_bool (order_price a) (order_price b)     (* asc *)
  | SELL => Qle_bool (order_price b) (order_price a)    (* desc *)
  end.

Fixpoint insertByPrice (type : Side) (x : Order) (l : list Order)
  : list Order :=
  match l with
  | [] => [x]
  | y :: rest =>
      if priceBefore type x y then x :: l
      else y :: insertByPrice type x rest
  end.

Definition orderByPrice (type : Side) (l : list Order) : list Order :=
  fold_right (insertByPrice type) [] l.

(** [tx.order.findMany]: the opposite-side OPEN orders of the outcome. *)
Definition matchingOrders (marketId outcomeId : Id) (type : Side)
    (st : Store) : list Order :=
  orderByPrice type
    (filter (fun o => (order_marketId o =? marketId)%nat
                      && (order_outcomeId o =? outcomeId)%nat
                      && Side_eqb (order_type o) (opposite type)
                      && Status_eqb (order_status o) OPEN)
            (orders st)).

(** One iteration of the matching loop that reaches the fill: the resting
    order, both trade rows, holdings and balances of both parties, the two
    ledger rows, the volume and the probabilities. *)
Definition fillAgainst (userId marketId outcomeId : Id) (type : Side)
    (matchingOrder : Order) (availableInMatchingOrder fillAmount : Q)
    (st : Store) : Res Store :=
  let tradePrice := order_price matchingOrder in
  os <- update order_id (order_id matchingOrder)
          (setFilledStatus (fun f => f + fillAmount)
             (if Qle_bool availableInMatchingOrder fillAmount
              then FILLED else OPEN))
          (orders st) ;;
  let st := with_orders st os in
  let st := createTrade (mkTrade userId marketId outcomeId fillAmount
                           tradePrice type) st in
  let st := createTrade (mkTrade (order_userId matchingOrder) marketId
                           outcomeId fillAmount tradePrice (opposite type))
                        st in
  st <-
    match type with
    | BUY =>
        st <- updateHoldings userId outcomeId fillAmount tradePrice BUY st ;;
        st <- updateHoldings (order_userId matchingOrder) outcomeId
                fillAmount tradePrice SELL st ;;
        let cost := fillAmount * tradePrice in
        st <- incrementBalance userId (- cost) st ;;
        incrementBalance (order_userId matchingOrder) cost st
    | SELL =>
        st <- updateHoldings userId outcomeId fillAmount tradePrice SELL st ;;
        st <- updateHoldings (order_userId matchingOrder) outcomeId
                fillAmount tradePrice BUY st ;;
        let proceeds := fillAmount * tradePrice in
        st <- incrementBalance userId proceeds st ;;
        incrementBalance (order_userId matchingOrder) (- proceeds) st
    end ;;
  let st := recordTransaction userId (fillAmount * tradePrice)
              (match type with BUY => - (1) | SELL => 1 end) st in
  let st := recordTransaction (order_userId matchingOrder)
              (fillAmount * tradePrice)
              (match type with BUY => 1 | SELL => - (1) end) st in
  st <- incrementVolume marketId fillAmount st ;;
  updateProbabilities marketId outcomeId fillAmount type st.

(** [for (const matchingOrder of matchingOrders)]: the loop state is the
    store together with [remainingAmount], [filledAmount] and
    [matchedOrders]. *)
Fixpoint matchLoop (userId marketId outcomeId : Id) (type : Side)
    (candidates : list Order) (remainingAmount filledAmount : Q)
    (matchedOrders : list Id) (st : Store)
  : Res (Store * Q * list Id) :=
  match candidates with
  | [] => Ok (st, filledAmount, matchedOrders)
  | matchingOrder :: rest =>
      if Qle_bool remainingAmount 0
      then Ok (st, filledAmount, matchedOrders)              (* break *)
      else
        let availableInMatchingOrder :=
          order_amount matchingOrder - order_filled matchingOrder in
        if Qle_bool availableInMatchingOrder 0
        then matchLoop userId marketId outcomeId type rest
               remainingAmount filledAmount matchedOrders st  (* continue *)
        else
          let fillAmount := mathMin remainingAmount availableInMatchingOrder in
          st <- fillAgainst userId marketId outcomeId type matchingOrder
                  availableInMatchingOrder fillAmount st ;;
          matchLoop userId marketId outcomeId type rest
            (remainingAmount - fillAmount) (filledAmount + fillAmount)
            (matchedOrders ++ [order_id matchingOrder]) st
  end.

(** The body of [prisma.$transaction] in the order route. *)
Definition orderTransaction (user : User) (req : OrderRequest) (price : Q)
    (st : Store) : Res (Store * OrderResult) :=
  let marketId := oreq_marketId req in
  let outcomeId := oreq_outcomeId req in
  let type := oreq_type req in
  let amount := oreq_amount req in
  let order :=
    mkOrder (nextId st) (user_id user) marketId outcomeId type
            (oreq_orderType req) amount (orElse price 0) 0 OPEN in
  let st := with_nextId (with_orders st (orders st ++ [order]))
                        (S (nextId st)) in
  match oreq_orderType req with
  | MARKET =>
      let candidates := matchingOrders marketId outcomeId type st in
      r <- matchLoop (user_id user) marketId outcomeId type candidates
             amount 0 [] st ;;
      let '(st, filledAmount, matchedOrders) := r in
      let status := if Qle_bool amount filledAmount then FILLED else OPEN in
      os <- update order_id (order_id order)
              (setFilledStatus (fun _ => filledAmount) status) (orders st) ;;
      Ok (with_orders st os,
          mkOrderResult (setFilledStatus (fun _ => filledAmount) status order)
                        matchedOrders (Qle_bool amount filledAmount))
  | LIMIT =>
      st <-
        match type with
        | BUY =>
            st <- incrementBalance (user_id user) (- amount) st ;;
            Ok (createTransaction
                  (mkTransaction (user_id user) (- amount) ORDER_RESERVE None)
                  st)
        | SELL => Ok st
        end ;;
      Ok (st, mkOrderResult order [] false)
  end.

(** [POST] of the order route. *)
Definition POST_orders (caller : Id) (req : OrderRequest) (st : Store)
  : Res (Store * OrderResult) :=
  match findUnique user_id caller (users st) with
  | None => Fail UserNotFound
  | Some user =>
      if negb (ltb 0 (oreq_amount req)) then Fail ValidationError else
      if match oreq_price req with
         | Some p => ltb p 0.01 || ltb 0.99 p
         | None => false
         end
      then Fail ValidationError else
      match findUnique market_id (oreq_marketId req) (markets st) with
      | None => Fail NotFound
      | Some market =>
          if market_isResolved market then Fail MarketResolved else
          match findOutcomeIn (oreq_outcomeId req) (oreq_marketId req) st with
          | None => Fail InvalidOutcome
          | Some outcome =>
              match
                match oreq_orderType req, oreq_price req with
                | MARKET, _ => Some (outcome_probability outcome)
                | LIMIT, Some inputPrice => Some inputPrice
                | LIMIT, None => None
                end
              with
              | None => Fail ValidationError
              | Some price =>
                  match oreq_type req with
                  | BUY =>
                      if ltb (user_balance user) (oreq_amount req)
                      then Fail InsufficientBalance
                      else orderTransaction user req price st
                  | SELL =>
                      match findHolding (user_id user) (oreq_outcomeId req) st
                      with
                      | None => Fail InsufficientShares
                      | Some userHolding =>
                          if ltb (holding_quantity userHolding)
                                 (oreq_amount req)
                          then Fail InsufficientShares
                          else orderTransaction user req price st
                      end
                  end
              end
          end
      end
  end.

(** ** DELETE /api/orders/[id]: cancel an order *)

(** The body of [prisma.$transaction] in the cancel route: [user] is the
    caller, [order] the row read before the transaction. *)
Definition cancelTransaction (user : User) (order : Order) (st : Store)
  : Res Store :=
  os <- update order_id (order_id order) (setStatus CANCELLED) (orders st) ;;
  let st := with_orders st os in
  match order_type order with
  | BUY =>
      let remainingAmount := order_amount order - order_filled order in
      if ltb 0 remainingAmount
      then
        let refundAmount := remainingAmount in
        st <- incrementBalance (user_id user) refundAmount st ;;
        Ok (createTransaction
              (mkTransaction (user_id user) refundAmount ORDER_CANCEL_REFUND
                             None) st)
      else Ok st
  | SELL => Ok st
  end.

Definition DELETE_order (caller : Id) (id : Id) (st : Store) : Res Store :=
  match findUnique user_id caller (users st) with
  | None => Fail UserNotFound
  | Some user =>
      match findUnique order_id id (orders st) with
      | None => Fail NotFound
      | Some order =>
          if negb (order_userId order =? user_id user)%nat
             && negb (user_isAdmin user)
          then Fail Forbidden
          else if negb (Status_eqb (order_status order) OPEN)
          then Fail AlreadyClosed
          else
            match findUnique market_id (order_marketId order) (markets st) with
            | None => Fail TransactionFailed
            | Some market =>
                if market_isResolved market then Fail MarketResolved
                else cancelTransaction user order st
            end
      end
  end.

(** ** PATCH /api/markets/[id]: resolve a market *)

(** "For each user with holdings in this market". *)
Fixpoint payHoldings (resolvedOutcomeId : Id) (userHoldings : list UserOutcome)
    (st : Store) : Res Store :=
  match userHoldings with
  | [] => Ok st
  | holding :: rest =>
      let quantity := holding_quantity holding in
      if Qle_bool quantity 0 then payHoldings resolvedOutcomeId rest st
      else
        st <-
          (if (holding_outcomeId holding =? resolvedOutcomeId)%nat
           then
             st <- incrementBalance (holding_userId holding) quantity st ;;
             Ok (createTransaction
                   (mkTransaction (holding_userId holding) quantity
                                  MARKET_RESOLUTION_PAYOUT None) st)
           else Ok st) ;;
        hs <- update holding_id (holding_id holding)
                (setQuantity (fun _ => 0)) (holdings st) ;;
        payHoldings resolvedOutcomeId rest (with_holdings st hs)
  end.

(** "Cancel any open orders for this market". *)
Fixpoint cancelOpenOrders (openOrders : list Order) (st : Store) : Res Store :=
  match openOrders with
  | [] => Ok st
  | order :: rest =>
      st <-
        match order_type order with
        | BUY =>
            let remainingAmount := order_amount order - order_filled order in
            if ltb 0 remainingAmount
            then
              let refundAmount := remainingAmount in
              st <- incrementBalance (order_userId order) refundAmount st ;;
              Ok (createTransaction
                    (mkTransaction (order_userId order) refundAmount
                                   ORDER_REFUND None) st)
            else Ok st
        | SELL => Ok st
        end ;;
      os <- update order_id (order_id order) (setStatus CANCELLED)
              (orders st) ;;
      cancelOpenOrders rest (with_orders st os)
  end.

(** Holdings of the market with a positive quantity
    ([where: { outcome: { marketId: id }, quantity: { gt: 0 } }]). *)
Definition holdingsOfMarket (id : Id) (st : Store) : list UserOutcome :=
  filter (fun h =>
            existsb (fun o => (outcome_id o =? holding_outcomeId h)%nat
                              && (outcome_marketId o =? id)%nat)
                    (outcomes st)
            && ltb 0 (holding_quantity h))
         (holdings st).

Definition openOrdersOfMarket (id : Id) (st : Store) : list Order :=
  filter (fun o => (order_marketId o =? id)%nat
                   && Status_eqb (order_status o) OPEN)
         (orders st).

Definition resolveTransaction (id resolvedOutcomeId : Id) (st : Store)
  : Res Store :=
  ms <- update market_id id
          (fun m => mkMarket (market_id m) (market_volume m) true
                             (Some resolvedOutcomeId))
          (markets st) ;;
  let st := with_markets st ms in
  ocs <- update outcome_id resolvedOutcomeId
           (fun o => mkOutcome (outcome_id o) (outcome_marketId o)
                               (outcome_probability o) true)
           (outcomes st) ;;
  let st := with_outcomes st ocs in
  st <- payHoldings resolvedOutcomeId (holdingsOfMarket id st) st ;;
  cancelOpenOrders (openOrdersOfMarket id st) st.

Definition PATCH_market (caller : Id) (id : Id) (resolvedOutcomeId : option Id)
    (st : Store) : Res Store :=
  match findUnique user_id caller (users st) with
  | None => Fail UserNotFound
  | Some user =>
      match findUnique market_id id (markets st) with
      | None => Fail NotFound
      | Some market =>
          if negb (user_isAdmin user) then Fail Forbidden
          else if market_isResolved market then Fail AlreadyResolved
          else
            match resolvedOutcomeId with
            | None => Fail ValidationError
            | Some resolvedOutcomeId =>
                match findOutcomeIn resolvedOutcomeId id st with
                | None => Fail InvalidOutcome
                | Some _ => resolveTransaction id resolvedOutcomeId st
                end
            end
      end
  end.

(** ** The position-aware copy of the trade route *)

Record PositionTradeRequest : Type := mkPositionTradeRequest {
  preq_marketId : Id;
  preq_outcomeId : Id;
  preq_amount : Q;
  preq_type : Side;
  preq_positionType : PositionType;
  preq_isSharesMode : bool }.

(** [Math.abs(avg - noSharePrice) <= Math.abs(avg - probability)]. *)
Definition isProbablyNo (avgPrice noSharePrice probability : Q) : bool :=
  Qle_bool (Qabs (avgPrice - noSharePrice)) (Qabs (avgPrice - probability)).

(** "If selling all shares, delete the record instead of updating it";
    "Otherwise just decrement the quantity". *)
Definition disposeShares (userHolding : UserOutcome) (sharesToSell : Q)
    (st : Store) : Res Store :=
  let currentQuantity := holding_quantity userHolding in
  if Qle_bool currentQuantity sharesToSell
  then
    hs <- delete holding_id (holding_id userHolding) (holdings st) ;;
    Ok (with_holdings st hs)
  else
    hs <- update holding_id (holding_id userHolding)
            (setQuantity (fun q => q - sharesToSell)) (holdings st) ;;
    Ok (with_holdings st hs).

(** The body of [prisma.$transaction] in the position-aware trade route.
    The function-scope variables [userHolding], [profitLoss],
    [sharesToSell] and [sellAmount] are threaded as a tuple. *)
Definition positionTradeTransaction (user : User) (market : Market)
    (outcome : Outcome) (req : PositionTradeRequest) (st : Store)
  : Res Store :=
  let marketId := preq_marketId req in
  let outcomeId := preq_outcomeId req in
  let amount := preq_amount req in
  let type := preq_type req in
  let positionType := preq_positionType req in
  let isSharesMode := preq_isSharesMode req in
  let outcomeProbabilityNum := outcome_probability outcome in
  let noSharePrice := 1 - outcomeProbabilityNum in
  (* validation section *)
  v <-
    match type, positionType with
    | SELL, YES =>
        let userHolding := findHolding (user_id user) outcomeId st in
        match findUnique outcome_id outcomeId (outcomes st) with
        | None => Fail TransactionFailed
        | Some _ =>
            sharesToSell <-
              (if isSharesMode then Ok amount
               else divide amount outcomeProbabilityNum) ;;
            let sellAmount :=
              if isSharesMode then sharesToSell * outcomeProbabilityNum
              else amount in
            match userHolding with
            | None => Fail InsufficientShares
            | Some h =>
                let availableShares := holding_quantity h in
                if Qle_bool availableShares 0
                   || ltb availableShares sharesToSell
                then Fail InsufficientShares
                else Ok (userHolding, sharesToSell, sellAmount)
            end
        end
    | BUY, NO =>
        sharesToSell <-
          (if isSharesMode then Ok amount else divide amount noSharePrice) ;;
        let sellAmount :=
          if isSharesMode then sharesToSell * noSharePrice else amount in
        Ok (findHolding (user_id user) outcomeId st, sharesToSell, sellAmount)
    | _, _ => Ok (None, 0, 0)
    end ;;
  let '(userHolding, sharesToSell, sellAmount) := v in
  (* Create the trade record *)
  let st := createTrade (mkTrade (user_id user) marketId outcomeId amount
                           (outcome_probability outcome) type) st in
  (* Handle holdings by trade type and position *)
  r <-
    match type, positionType with
    | BUY, YES =>
        sharesPurchased <- divide amount outcomeProbabilityNum ;;
        match findHolding (user_id user) outcomeId st with
        | Some existingHolding =>
            let currentQuantity := holding_quantity existingHolding in
            let currentValue :=
              currentQuantity * holding_avgPrice existingHolding in
            let newQuantity := currentQuantity + sharesPurchased in
            let newValue := currentValue + amount in
            newAvgPrice <- divide newValue newQuantity ;;
            hs <- update holding_id (holding_id existingHolding)
                    (setPosition newQuantity newAvgPrice) (holdings st) ;;
            Ok (with_holdings st hs, 0, sharesToSell, sellAmount)
        | None =>
            Ok (createHolding (user_id user) outcomeId sharesPurchased
                  (outcome_probability outcome) st,
                0, sharesToSell, sellAmount)
        end
    | BUY, NO =>
        let sharesPurchased := sharesToSell in
        match userHolding with
        | Some h =>
            let existingAvgPrice := holding_avgPrice h in
            if isProbablyNo existingAvgPrice noSharePrice outcomeProbabilityNum
            then
              let currentQuantity := holding_quantity h in
              let currentValue := currentQuantity * existingAvgPrice in
              let newQuantity := currentQuantity + sharesPurchased in
              let newValue := currentValue + sellAmount in
              newAvgPrice <- divide newValue newQuantity ;;
              hs <- update holding_id (holding_id h)
                      (setPosition newQuantity newAvgPrice) (holdings st) ;;
              Ok (with_holdings st hs, 0, sharesToSell, sellAmount)
            else
              (* a second row for (userId, outcomeId): the unique index
                 of UserOutcome rejects the create *)
              Fail TransactionFailed
        | None =>
            Ok (createHolding (user_id user) outcomeId sharesPurchased
                  noSharePrice st,
                0, sharesToSell, sellAmount)
        end
    | SELL, YES =>
        match userHolding with
        | None => Fail TransactionFailed
        | Some h =>
            st <- disposeShares h sharesToSell st ;;
            let costBasis := sharesToSell * holding_avgPrice h in
            Ok (st, sellAmount - costBasis, sharesToSell, sellAmount)
        end
    | SELL, NO =>
        match findHolding (user_id user) outcomeId st with
        | None => Fail InsufficientShares
        | Some h =>
            let avgPrice := holding_avgPrice h in
            if negb (isProbablyNo avgPrice noSharePrice outcomeProbabilityNum)
            then Fail InsufficientShares
            else
              sharesToSell <-
                (if isSharesMode then Ok amount
                 else divide amount noSharePrice) ;;
              let sellAmount :=
                if isSharesMode then sharesToSell * noSharePrice
                else amount in
              let availableShares := holding_quantity h in
              if Qle_bool availableShares 0
                 || ltb availableShares sharesToSell
              then Fail InsufficientShares
              else
                st <- disposeShares h sharesToSell st ;;
                let costBasis := sharesToSell * avgPrice in
                Ok (st, sellAmount - costBasis, sharesToSell, sellAmount)
        end
    end ;;
  let '(st, profitLoss, sharesToSell, sellAmount) := r in
  (* Update the user's balance *)
  st <-
    match type, positionType with
    | BUY, YES => incrementBalance (user_id user) (- amount) st
    | SELL, YES =>
        incrementBalance (user_id user)
          (if isSharesMode then amount * outcomeProbabilityNum else amount) st
    | SELL, NO => incrementBalance (user_id user) sellAmount st
    | BUY, NO => incrementBalance (user_id user) (- sellAmount) st
    end ;;
  (* Record the transaction *)
  let transactionAmount :=
    match type with BUY => - amount | SELL => sellAmount end in
  let transactionType :=
    match type with SELL => TRADE_SELL | BUY => TRADE_BUY end in
  let metadata :=
    match type with
    | SELL => if Qeq_bool profitLoss 0 then None else Some profitLoss
    | BUY => None
    end in
  let st :=
    createTransaction
      (mkTransaction (user_id user) transactionAmount transactionType
                     metadata) st in
  (* Update the market volume *)
  st <- incrementVolume marketId amount st ;;
  let newProbability :=
    newProbabilityFor type (outcome_probability outcome) amount
                      (market_volume market) in
  redistribute marketId outcomeId newProbability st.

Definition POST_trades_position (caller : Id) (req : PositionTradeRequest)
    (st : Store) : Res Store :=
  match findUnique user_id caller (users st) with
  | None => Fail UserNotFound
  | Some user =>
      if negb (ltb 0 (preq_amount req)) then Fail ValidationError else
      match findUnique market_id (preq_marketId req) (markets st) with
      | None => Fail NotFound
      | Some market =>
          if market_isResolved market then Fail MarketResolved else
          match findOutcomeIn (preq_outcomeId req) (preq_marketId req) st with
          | None => Fail InvalidOutcome
          | Some outcome =>
              if Side_eqb (preq_type req) BUY
                 && ltb (user_balance user) (preq_amount req)
              then Fail InsufficientBalance
              else positionTradeTransaction user market outcome req st
          end
      end
  end.

(** ** POST /api/markets: the outcomes of a new market *)

(** "Create the outcomes": every outcome starts at [1 / outcomes.length].
    The zod schema requires at least two outcomes. *)
Definition createOutcomes (marketId : Id) (n : nat) (st : Store) : Store :=
  let initialProbability := 1 / inject_Z (Z.of_nat n) in
  fold_left
    (fun st _ =>
       with_nextId
         (with_outcomes st
            (outcomes st
               ++ [mkOutcome (nextId st) marketId initialProbability false]))
         (S (nextId st)))
    (repeat tt n) st.

(** * Vocabulary of the statements *)

(** [fold_right] sum, the form the statements use. *)
Definition sumQ (l : list Q) : Q := fold_right Qplus 0 l.

(** The row [redistribute] leaves for [o] when the sibling scale is
    [scaleFactor]. *)
Definition rescaled (marketId outcomeId : Id) (newProbability scaleFactor : Q)
    (o : Outcome) : Outcome :=
  if (outcome_id o =? outcomeId)%nat then setProbability newProbability o
  else if (outcome_marketId o =? marketId)%nat
       then setProbability (toFixed4 (outcome_probability o * scaleFactor)) o
       else o.

(** Sum of the sibling probabilities before the update. *)
Definition totalOtherProbability (marketId outcomeId : Id) (st : Store) : Q :=
  fold_left (fun sum o => sum + outcome_probability o)
    (filter (fun o => negb (outcome_id o =? outcomeId)%nat)
       (filter (fun o => (outcome_marketId o =? marketId)%nat) (outcomes st)))
    0.

(** Sum of the probabilities of a market's outcomes, and their number. *)
Definition probabilitySum (marketId : Id) (st : Store) : Q :=
  sumQ (map outcome_probability
          (filter (fun o => (outcome_marketId o =? marketId)%nat)
                  (outcomes st))).

Definition outcomeCount (marketId : Id) (st : Store) : nat :=
  length (filter (fun o => (outcome_marketId o =? marketId)%nat)
                 (outcomes st)).

(** Probability stored for an outcome. *)
Definition probabilityOf (outcomeId : Id) (st : Store) : option Q :=
  option_map outcome_probability
    (findUnique outcome_id outcomeId (outcomes st)).

(** Signed cash flow of the taker ([taker = true]) or the maker of a fill
    at [cost = fillAmount * tradePrice]. *)
Definition cashFlow (type : Side) (taker : bool) (cost : Q) : Q :=
  match type, taker with
  | BUY, true | SELL, false => - cost
  | BUY, false | SELL, true => cost
  end.

(** The new probability as the specification words it: the trade amount
    over [max(marketVolume, 1)]. *)
Definition claimedProbabilityFor (type : Side)
    (currentProbability tradeAmount marketVolume : Q) : Q :=
  let volumeRatio := tradeAmount / mathMax marketVolume 1 in
  let impactFactor := 0.001 * volumeRatio * 100 in
  let newProbability :=
    match type with
    | BUY => currentProbability + impactFactor * (1 - currentProbability)
    | SELL => currentProbability - impactFactor * currentProbability
    end in
  toFixed4 (mathMax 0.01 (mathMin 0.99 newProbability)).

(** Balance of a user in a users table; 0 for an unknown user. *)
Definition balanceIn (u : Id) (us : list User) : Q :=
  match findUnique user_id u us with
  | Some x => user_balance x
  | None => 0
  end.

Definition balance (u : Id) (st : Store) : Q := balanceIn u (users st).

(** The walk in the specification's words: go through the resting orders
    in order; stop when nothing remains to fill; skip a resting order with
    no remainder; otherwise fill the smaller of the two remainders. *)
Fixpoint plannedFills (candidates : list Order) (remaining : Q)
  : list (Order * Q) :=
  match candidates with
  | [] => []
  | resting :: rest =>
      if Qle_bool remaining 0 then []
      else
        let restingRemaining := order_amount resting - order_filled resting in
        if Qle_bool restingRemaining 0 then plannedFills rest remaining
        else
          let fill := mathMin remaining restingRemaining in
          (resting, fill) :: plannedFills rest (remaining - fill)
  end.

(** The two Trade rows of a match: the taker's, then the maker's, both at
    the resting order's price. *)
Definition tradeRows (taker m oid : Id) (type : Side) (x : Order * Q)
  : list Trade :=
  [mkTrade taker m oid (snd x) (order_price (fst x)) type;
   mkTrade (order_userId (fst x)) m oid (snd x) (order_price (fst x))
           (opposite type)].

(** Filled total, accumulated as the loop does. *)
Definition totalFilled (fills : list (Order * Q)) (start : Q) : Q :=
  fold_left (fun acc x => acc + snd x) fills start.

(** Users table after the balance updates of a list of fills. *)
Definition settle (taker : Id) (type : Side) (fills : list (Order * Q))
    (us : list User) : list User :=
  fold_left
    (fun us x =>
       let cost := snd x * order_price (fst x) in
       map (updAt user_id (order_userId (fst x))
              (setBalance (fun b => b + cashFlow type false cost)))
           (map (updAt user_id taker
                   (setBalance (fun b => b + cashFlow type true cost)))
                us))
    fills us.

(** Orders table after the resting-order updates of a list of fills. *)
Definition restingAfter (fills : list (Order * Q)) (os : list Order)
  : list Order :=
  fold_left
    (fun os x =>
       map (updAt order_id (order_id (fst x))
              (setFilledStatus (fun f => f + snd x)
                 (if Qle_bool
                       (order_amount (fst x) - order_filled (fst x)) (snd x)
                  then FILLED else OPEN)))
           os)
    fills os.

(** The rows the order route asks for: same market and outcome, opposite
    side, OPEN. *)
Definition isOppositeOpen (marketId outcomeId : Id) (type : Side) (o : Order)
  : bool :=
  (order_marketId o =? marketId)%nat
  && (order_outcomeId o =? outcomeId)%nat
  && Side_eqb (order_type o) (opposite type)
  && Status_eqb (order_status o) OPEN.

(** Price order of the walk: ascending for an incoming BUY, descending
    for an incoming SELL. *)
Definition walksBefore (type : Side) (a b : Order) : Prop :=
  match type with
  | BUY => order_price a <= order_price b
  | SELL => order_price b <= order_price a
  end.

(** The row created for an incoming order. *)
Definition newOrder (user : User) (req : OrderRequest) (price : Q)
    (st : Store) : Order :=
  mkOrder (nextId st) (user_id user) (oreq_marketId req) (oreq_outcomeId req)
          (oreq_type req) (oreq_orderType req) (oreq_amount req)
          (orElse price 0) 0 OPEN.

(** Status of an incoming MARKET order once [filled] has been matched. *)
Definition finalStatus (amount filled : Q) : Status :=
  if Qle_bool amount filled then FILLED else OPEN.

(** Net cash flow of user [u] over a list of fills taken by [taker]. *)
Definition netFlow (u taker : Id) (type : Side) (fills : list (Order * Q))
  : Q :=
  sumQ (map (fun x =>
               let cost := snd x * order_price (fst x) in
               (if (u =? taker)%nat then cashFlow type true cost else 0)
               + (if (u =? order_userId (fst x))%nat
                  then cashFlow type false cost else 0))
            fills).

(** What a MARKET BUY costs its owner: the fills at their prices, fills
    against the owner's own resting orders netting to nothing. *)
Definition costOfFills (owner : Id) (fills : list (Order * Q)) : Q :=
  sumQ (map (fun x =>
               if (order_userId (fst x) =? owner)%nat then 0
               else snd x * order_price (fst x))
            fills).

(** Users table after a list of credits [(user, amount)], applied in
    order. *)
Definition applyCredits (cs : list (Id * Q)) (us : list User) : list User :=
  fold_left
    (fun us c =>
       map (updAt user_id (fst c) (setBalance (fun b => b + snd c))) us)
    cs us.

(** Sum of the credits of a user. *)
Definition creditTo (u : Id) (cs : list (Id * Q)) : Q :=
  sumQ (map (fun c => if (u =? fst c)%nat then snd c else 0) cs).

(** Holdings that are paid: positive quantity, of the winning outcome. *)
Definition isPaid (win : Id) (h : UserOutcome) : bool :=
  ltb 0 (holding_quantity h) && (holding_outcomeId h =? win)%nat.

Definition payoutRow (h : UserOutcome) : Transaction :=
  mkTransaction (holding_userId h) (holding_quantity h)
                MARKET_RESOLUTION_PAYOUT None.

Definition payoutCredit (h : UserOutcome) : Id * Q :=
  (holding_userId h, holding_quantity h).

(** Orders that are refunded: BUY with an unfilled remainder. *)
Definition isRefunded (o : Order) : bool :=
  Side_eqb (order_type o) BUY && ltb 0 (order_amount o - order_filled o).

Definition refundRow (o : Order) : Transaction :=
  mkTransaction (order_userId o) (order_amount o - order_filled o)
                ORDER_REFUND None.

Definition refundCredit (o : Order) : Id * Q :=
  (order_userId o, order_amount o - order_filled o).

(** Positive holdings of the winning outcome in the market, and OPEN BUY
    orders of the market, as the statement of C3 names them. *)
Definition winningHoldings (id win : Id) (st : Store) : list UserOutcome :=
  filter (fun h => (holding_outcomeId h =? win)%nat) (holdingsOfMarket id st).

Definition openBuyOrders (id : Id) (st : Store) : list Order :=
  filter (fun o => Side_eqb (order_type o) BUY) (openOrdersOfMarket id st).

(** Is the holding one of the market's, with a positive quantity? *)
Definition isSettled (id : Id) (st : Store) (h : UserOutcome) : bool :=
  existsb (fun o => (outcome_id o =? holding_outcomeId h)%nat
                    && (outcome_marketId o =? id)%nat) (outcomes st)
  && ltb 0 (holding_quantity h).

Definition isOpenIn (id : Id) (o : Order) : bool :=
  (order_marketId o =? id)%nat && Status_eqb (order_status o) OPEN.

(** The user has a holding row for the outcome, of the given quantity. *)
Definition holds (u oid : Id) (st : Store) (q : Q) : Prop :=
  exists h, findHolding u oid st = Some h /\ holding_quantity h == q.


(** A whole number that a JavaScript number holds exactly; sums,
    differences, comparisons and minima of such numbers are exact. *)
Definition isWhole (q : Q) : Prop :=
  inject_Z (Qfloor q) == q /\ Qabs q <= 9007199254740992.

(** The row of a resting order after a match: [filled] grows by the
    fill, the status is FILLED when the fill takes all that was left and
    OPEN otherwise; nothing else changes. *)
Definition afterFill (x : Order * Q) : Order :=
  let resting := fst x in
  let fill := snd x in
  mkOrder (order_id resting) (order_userId resting) (order_marketId resting)
          (order_outcomeId resting) (order_type resting)
          (order_orderType resting) (order_amount resting)
          (order_price resting) (order_filled resting + fill)
          (if Qle_bool (order_amount resting - order_filled resting) fill
           then FILLED else OPEN).

(** Signed change of the caller's balance by a trade of the trade route:
    a BUY pays the amount; a SELL receives the amount, or in shares mode
    the shares at the probability read before the trade. *)
Definition tradeCash (req : TradeRequest) (outcome : Outcome) : Q :=
  match treq_type req with
  | BUY => - treq_amount req
  | SELL =>
      if treq_isSharesMode req
      then treq_amount req * outcome_probability outcome
      else treq_amount req
  end.

(** Quantity and cost basis (quantity times average price) of the
    position a user holds in an outcome; zero without a holding row. *)
Definition quantityHeld (u oid : Id) (st : Store) : Q :=
  match findHolding u oid st with
  | Some h => holding_quantity h
  | None => 0
  end.

Definition costBasisHeld (u oid : Id) (st : Store) : Q :=
  match findHolding u oid st with
  | Some h => holding_quantity h * holding_avgPrice h
  | None => 0
  end.

(** * Scenarios *)

(** Three registered users (balance 1000 each, the third an
    administrator) and one open market with no outcomes yet. *)
Definition alice : Id := 1%nat.
Definition bob : Id := 2%nat.
Definition admin : Id := 3%nat.
Definition theMarket : Id := 10%nat.

Definition emptyMarket : Store :=
  mkStore [mkUser alice 1000 false; mkUser bob 1000 false;
           mkUser admin 1000 true]
          [mkMarket theMarket 0 false None] [] [] [] [] [] 100%nat.

(** The market right after creation with [n] outcomes; their identifiers
    are 100, 101, ... *)
Definition freshMarket (n : nat) : Store :=
  createOutcomes theMarket n emptyMarket.

(** The two-outcome market after a first BUY of 0.50 on outcome 100: the
    volume is 0.5, the probabilities are 0.525 and 0.475. *)
Definition afterSmallTrade : Store :=
  match POST_trades alice (mkTradeRequest theMarket 100%nat 0.5 BUY false)
                    (freshMarket 2) with
  | Ok st => st
  | Fail _ => freshMarket 2
  end.

(** The store a successful request leaves (the scenarios below only
    chain requests that succeed). *)
Definition storeOf (r : Res Store) : Store :=
  match r with Ok st => st | Fail _ => emptyMarket end.

Definition storeOfOrder (r : Res (Store * OrderResult)) : Store :=
  match r with Ok (st, _) => st | Fail _ => emptyMarket end.

(** Bob buys for 20 on the first outcome of a fresh two-outcome market
    through the trade route: he now holds 40 shares, the outcomes are at
    0.99 and 0.01. *)
Definition bobHolds40 : Store :=
  storeOf (POST_trades bob (mkTradeRequest theMarket 100%nat 20 BUY false)
                       (freshMarket 2)).

(** Bob, holding 40 shares, rests two LIMIT SELL orders of 40 shares each,
    at 0.6 and at 0.7 (orders 103 and 104). *)
Definition twoAsks : Store :=
  storeOfOrder
    (POST_orders bob
       (mkOrderRequest theMarket 100%nat SELL LIMIT 40 (Some 0.7))
       (storeOfOrder
          (POST_orders bob
             (mkOrderRequest theMarket 100%nat SELL LIMIT 40 (Some 0.6))
             bobHolds40))).

(** Alice rests a LIMIT BUY of 100 at 0.5 (order 103, 100 reserved), then
    Bob, holding 40 shares, sells 30 into it with a MARKET SELL: the order
    is OPEN with 30 filled. *)
Definition partlyFilledLimitBuy : Store :=
  storeOfOrder
    (POST_orders bob (mkOrderRequest theMarket 100%nat SELL MARKET 30 None)
       (storeOfOrder
          (POST_orders alice
             (mkOrderRequest theMarket 100%nat BUY LIMIT 100 (Some 0.5))
             bobHolds40))).

(** Bob holds 40 shares of outcome 100; Alice buys 25 shares of outcome
    101 (0.25 at the price 0.01) and rests a LIMIT BUY of 100 on outcome
    100. *)
Definition beforeResolution : Store :=
  storeOfOrder
    (POST_orders alice
       (mkOrderRequest theMarket 100%nat BUY LIMIT 100 (Some 0.5))
       (storeOf
          (POST_trades alice (mkTradeRequest theMarket 101%nat 0.25 BUY false)
                       bobHolds40))).

(** * Two claims as the specification states them *)


(** C4's last clause as the specification states it: the unfilled
    remainder of a MARKET order is never new liquidity, so no later order
    is matched against it. *)
Definition market_remainder_never_rests : Prop :=
  forall (st st1 st2 : Store) (caller1 caller2 : Id)
         (req1 req2 : OrderRequest) (res1 res2 : OrderResult),
    oreq_orderType req1 = MARKET ->
    POST_orders caller1 req1 st = Ok (st1, res1) ->
    POST_orders caller2 req2 st1 = Ok (st2, res2) ->
    ~ In (order_id (result_order res1)) (result_matchedOrders res2).

(** * Facts *)

(** ** Numbers *)

Lemma ltb_true_iff (a b : Q) : ltb a b = true <-> a < b.
Proof.
  unfold ltb. rewrite negb_true_iff. split; intro H.
  - apply Qnot_le_lt. intro Hle. apply Qle_bool_iff in Hle. congruence.
  - destruct (Qle_bool b a) eqn:E; [|reflexivity].
    apply Qle_bool_iff in E. exfalso. apply (Qlt_not_le _ _ H E).
Qed.

Lemma ltb_false_iff (a b : Q) : ltb a b = false <-> b <= a.
Proof. unfold ltb. rewrite negb_false_iff. apply Qle_bool_iff. Qed.

Lemma Qle_bool_false_iff (a b : Q) : Qle_bool a b = false <-> b < a.
Proof.
  rewrite <- ltb_true_iff. unfold ltb.
  destruct (Qle_bool a b); simpl; intuition congruence.
Qed.

Lemma ltb_comp (a a' b b' : Q) : a == a' -> b == b' -> ltb a b = ltb a' b'.
Proof.
  intros Ha Hb. destruct (ltb a' b') eqn:E.
  - apply ltb_true_iff. apply ltb_true_iff in E. rewrite Ha, Hb. exact E.
  - apply ltb_false_iff. apply ltb_false_iff in E. rewrite Ha, Hb. exact E.
Qed.

Lemma Qle_bool_comp (a a' b b' : Q) :
  a == a' -> b == b' -> Qle_bool a b = Qle_bool a' b'.
Proof.
  intros Ha Hb. destruct (Qle_bool a' b') eqn:E.
  - apply Qle_bool_iff. apply Qle_bool_iff in E. rewrite Ha, Hb. exact E.
  - apply Qle_bool_false_iff. apply Qle_bool_false_iff in E.
    rewrite Ha, Hb. exact E.
Qed.

Lemma mathMax_comp (a a' b b' : Q) :
  a == a' -> b == b' -> mathMax a b == mathMax a' b'.
Proof.
  intros Ha Hb. unfold mathMax. rewrite (Qle_bool_comp a a' b b' Ha Hb).
  destruct (Qle_bool a' b'); assumption.
Qed.

Lemma mathMin_comp (a a' b b' : Q) :
  a == a' -> b == b' -> mathMin a b == mathMin a' b'.
Proof.
  intros Ha Hb. unfold mathMin. rewrite (Qle_bool_comp a a' b b' Ha Hb).
  destruct (Qle_bool a' b'); assumption.
Qed.

Lemma mathMax_spec (a b : Q) : a <= mathMax a b /\ b <= mathMax a b.
Proof.
  unfold mathMax. destruct (Qle_bool a b) eqn:E.
  - apply Qle_bool_iff in E. split; [exact E | apply Qle_refl].
  - apply Qle_bool_false_iff in E. split; [apply Qle_refl | lra].
Qed.

Lemma mathMin_spec (a b : Q) : mathMin a b <= a /\ mathMin a b <= b.
Proof.
  unfold mathMin. destruct (Qle_bool a b) eqn:E.
  - apply Qle_bool_iff in E. split; [apply Qle_refl | exact E].
  - apply Qle_bool_false_iff in E. split; [lra | apply Qle_refl].
Qed.

(** Rounding a non-negative number moves it by at most half a unit in the
    fourth decimal place. *)
Lemma round_nonneg_error (y : Q) :
  Qabs (inject_Z (Qfloor (y * 10000 + (1 # 2))) / 10000 - y) <= 1 # 20000.
Proof.
  pose proof (Qfloor_le (y * 10000 + (1 # 2))) as Hlo.
  pose proof (Qlt_floor (y * 10000 + (1 # 2))) as Hhi.
  rewrite inject_Z_plus in Hhi. change (inject_Z 1) with 1 in Hhi.
  set (n := inject_Z (Qfloor (y * 10000 + (1 # 2)))) in *.
  assert (n / 10000 == n * (1 # 10000)) as -> by field.
  apply Qabs_Qle_condition. split; lra.
Qed.

Lemma toFixed4_error (x : Q) : Qabs (toFixed4 x - x) <= 1 # 20000.
Proof.
  unfold toFixed4. destruct (ltb x 0) eqn:E; rewrite Qred_correct.
  - pose proof (round_nonneg_error (- x)) as H.
    rewrite <- Qabs_opp.
    assert (- (- (inject_Z (Qfloor (- x * 10000 + (1 # 2))) / 10000) - x)
            == inject_Z (Qfloor (- x * 10000 + (1 # 2))) / 10000 - - x) as ->
      by ring.
    exact H.
  - apply round_nonneg_error.
Qed.

(** Equal numbers round to the same stored value. *)
Lemma toFixed4_comp (x y : Q) : x == y -> toFixed4 x = toFixed4 y.
Proof.
  intro H. unfold toFixed4. rewrite (ltb_comp x y 0 0 H (Qeq_refl 0)).
  destruct (ltb y 0); apply Qred_complete; rewrite H; reflexivity.
Qed.

Lemma fold_left_sum {A : Type} (f : A -> Q) (l : list A) (a : Q) :
  fold_left (fun sum o => sum + f o) l a == a + sumQ (map f l).
Proof.
  revert a. induction l as [|x l IH]; intro a; simpl.
  - ring.
  - rewrite IH. ring.
Qed.

Lemma sumQ_scale {A : Type} (f : A -> Q) (s : Q) (l : list A) :
  sumQ (map (fun o => f o * s) l) == s * sumQ (map f l).
Proof.
  induction l as [|x l IH]; simpl.
  - ring.
  - rewrite IH. ring.
Qed.

Lemma sumQ_rounding_error {A : Type} (f : A -> Q) (l : list A) :
  Qabs (sumQ (map (fun o => toFixed4 (f o)) l) - sumQ (map f l))
  <= inject_Z (Z.of_nat (length l)) * (1 # 20000).
Proof.
  induction l as [|x l IH].
  - cbn [length map sumQ fold_right]. apply Qabs_Qle_condition.
    split; vm_compute; discriminate.
  - cbn [length map sumQ fold_right].
    rewrite Nat2Z.inj_succ. unfold Z.succ. rewrite inject_Z_plus.
    change (inject_Z 1) with 1.
    assert (toFixed4 (f x) + fold_right Qplus 0 (map (fun o => toFixed4 (f o)) l)
            - (f x + fold_right Qplus 0 (map f l))
            == (toFixed4 (f x) - f x)
               + (sumQ (map (fun o => toFixed4 (f o)) l) - sumQ (map f l))) as ->
      by (unfold sumQ; ring).
    eapply Qle_trans; [apply Qabs_triangle|].
    pose proof (toFixed4_error (f x)). lra.
Qed.

(** ** Tables *)

Ltac inv_res :=
  repeat match goal with
  | H : Ok _ = Ok _ |- _ => inversion H; subst; clear H
  | H : Fail _ = Ok _ |- _ => discriminate H
  | H : bind ?r _ = Ok _ |- _ =>
      let E := fresh "E" in
      destruct r eqn:E; cbn [bind] in H; [|discriminate H]
  end.

Section TableFacts.
Context {A : Type} (key : A -> Id).

Lemma hasKey_In (id : Id) (tbl : list A) :
  hasKey key id tbl = true <-> In id (map key tbl).
Proof.
  unfold hasKey. rewrite existsb_exists, in_map_iff. split.
  - intros [r [Hin Hk]]. apply Nat.eqb_eq in Hk. exists r. auto.
  - intros [r [Hk Hin]]. exists r. split; [exact Hin|].
    apply Nat.eqb_eq. exact Hk.
Qed.

Lemma update_Ok (id : Id) (f : A -> A) (tbl : list A) :
  In id (map key tbl) -> update key id f tbl = Ok (map (updAt key id f) tbl).
Proof.
  intro H. apply hasKey_In in H. unfold update, hasKey in *.
  rewrite H. reflexivity.
Qed.

Lemma update_inv (id : Id) (f : A -> A) (tbl tbl' : list A) :
  update key id f tbl = Ok tbl' ->
  In id (map key tbl) /\ tbl' = map (updAt key id f) tbl.
Proof.
  unfold update. intro H.
  destruct (existsb (fun r => (key r =? id)%nat) tbl) eqn:E;
    [|discriminate H].
  inversion H. split; [|reflexivity]. apply hasKey_In. exact E.
Qed.

Lemma findUnique_Some (id : Id) (tbl : list A) (r : A) :
  findUnique key id tbl = Some r -> In r tbl /\ key r = id.
Proof.
  unfold findUnique. intro H. apply find_some in H.
  destruct H as [Hin Hk]. apply Nat.eqb_eq in Hk. auto.
Qed.

Lemma findUnique_key_In (id : Id) (tbl : list A) (r : A) :
  findUnique key id tbl = Some r -> In id (map key tbl).
Proof.
  intro H. apply findUnique_Some in H. destruct H as [Hin Hk].
  subst id. apply in_map. exact Hin.
Qed.

Lemma findUnique_None (id : Id) (tbl : list A) :
  findUnique key id tbl = None -> ~ In id (map key tbl).
Proof.
  unfold findUnique. intros H Hin. apply in_map_iff in Hin.
  destruct Hin as [r [Hk Hin]].
  pose proof (find_none _ _ H r Hin) as Hn. cbn in Hn.
  apply Nat.eqb_neq in Hn. contradiction.
Qed.

Lemma findUnique_NoDup (tbl : list A) (r : A) :
  NoDup (map key tbl) -> In r tbl -> findUnique key (key r) tbl = Some r.
Proof.
  unfold findUnique. induction tbl as [|x tbl IH]; intros Hnd Hin.
  - destruct Hin.
  - cbn [map] in Hnd. inversion Hnd as [|? ? Hnotin Hnd']. subst.
    cbn [find]. destruct Hin as [-> | Hin].
    + rewrite Nat.eqb_refl. reflexivity.
    + destruct (key x =? key r)%nat eqn:E.
      * apply Nat.eqb_eq in E. exfalso. apply Hnotin. rewrite E.
        apply in_map. exact Hin.
      * apply IH; assumption.
Qed.

Section KeyPreserving.
Variable f : A -> A.
Hypothesis f_key : forall r, key (f r) = key r.

Lemma updAt_key (id : Id) (r : A) : key (updAt key id f r) = key r.
Proof. unfold updAt. destruct (key r =? id)%nat; auto. Qed.

Lemma keys_updAt (id : Id) (tbl : list A) :
  map key (map (updAt key id f) tbl) = map key tbl.
Proof.
  rewrite map_map. apply map_ext. intro r. apply updAt_key.
Qed.

Lemma findUnique_updAt (id id' : Id) (tbl : list A) :
  findUnique key id' (map (updAt key id f) tbl)
  = option_map (updAt key id f) (findUnique key id' tbl).
Proof.
  unfold findUnique. induction tbl as [|x tbl IH]; [reflexivity|].
  cbn [map find]. rewrite updAt_key.
  destruct (key x =? id')%nat; [reflexivity | exact IH].
Qed.
End KeyPreserving.

Lemma touch_nil (g : A -> A -> A) (tbl : list A) :
  map (touch key [] g) tbl = tbl.
Proof.
  rewrite <- (map_id tbl) at 2. apply map_ext. intro r. reflexivity.
Qed.

Lemma touch_cons (s : A) (sel : list A) (g : A -> A -> A) (tbl : list A) :
  (forall a r, key (g a r) = key r) ->
  ~ In (key s) (map key sel) ->
  map (touch key sel g) (map (updAt key (key s) (g s)) tbl)
  = map (touch key (s :: sel) g) tbl.
Proof.
  intros Hg Hnotin. rewrite map_map. apply map_ext. intro r.
  unfold touch, updAt, findUnique. cbn [find].
  destruct (key r =? key s)%nat eqn:E.
  - apply Nat.eqb_eq in E. rewrite Hg. rewrite Nat.eqb_sym.
    rewrite E, Nat.eqb_refl.
    destruct (find (fun r0 => (key r0 =? key s)%nat) sel) eqn:F;
      [|reflexivity].
    exfalso. apply Hnotin. apply find_some in F. destruct F as [Hin Hk].
    apply Nat.eqb_eq in Hk. rewrite <- Hk. apply in_map. exact Hin.
  - rewrite Nat.eqb_sym, E. reflexivity.
Qed.

Lemma findUnique_filter (P : A -> bool) (tbl : list A) (r : A) :
  NoDup (map key tbl) -> In r tbl ->
  findUnique key (key r) (filter P tbl) = if P r then Some r else None.
Proof.
  unfold findUnique. induction tbl as [|x tbl IH]; intros Hnd Hin.
  - destruct Hin.
  - cbn [map] in Hnd. inversion Hnd as [|? ? Hnotin Hnd']. subst.
    cbn [filter]. destruct Hin as [-> | Hin].
    + destruct (P r) eqn:EP.
      * cbn [find]. rewrite Nat.eqb_refl. reflexivity.
      * destruct (find (fun r0 => (key r0 =? key r)%nat) (filter P tbl))
          eqn:F; [|reflexivity].
        exfalso. apply Hnotin. apply find_some in F.
        destruct F as [Hin Hk]. apply filter_In in Hin.
        apply Nat.eqb_eq in Hk. rewrite <- Hk. apply in_map. tauto.
    + assert (Hne : (key x =? key r)%nat = false).
      { apply Nat.eqb_neq. intro E. apply Hnotin. rewrite E.
        apply in_map. exact Hin. }
      destruct (P x); cbn [find]; rewrite ?Hne; apply IH; assumption.
Qed.

Lemma touch_filter (P : A -> bool) (g : A -> A -> A) (tbl : list A) :
  NoDup (map key tbl) ->
  map (touch key (filter P tbl) g) tbl
  = map (fun r => if P r then g r r else r) tbl.
Proof.
  intro Hnd. apply map_ext_in. intros r Hin. unfold touch.
  rewrite (findUnique_filter P tbl r Hnd Hin). destruct (P r); reflexivity.
Qed.

Lemma NoDup_keys_filter (P : A -> bool) (tbl : list A) :
  NoDup (map key tbl) -> NoDup (map key (filter P tbl)).
Proof.
  induction tbl as [|x tbl IH]; intro Hnd; [constructor|].
  cbn [map] in Hnd. inversion Hnd as [|? ? Hnotin Hnd']. subst.
  cbn [filter]. destruct (P x); [|auto].
  cbn [map]. constructor; [|auto].
  intro Hin. apply Hnotin. apply in_map_iff in Hin.
  destruct Hin as [r [Hk Hin]]. apply filter_In in Hin.
  rewrite <- Hk. apply in_map. tauto.
Qed.

Lemma keys_filter_incl (P : A -> bool) (tbl : list A) :
  incl (map key (filter P tbl)) (map key tbl).
Proof.
  intros id Hin. apply in_map_iff in Hin. destruct Hin as [r [Hk Hin]].
  apply filter_In in Hin. rewrite <- Hk. apply in_map. tauto.
Qed.

(** Among two or more rows with distinct identifiers, some row does not
    have a given identifier. *)
Lemma others_nonempty (id : Id) (l : list A) :
  NoDup (map key l) -> (2 <= length l)%nat ->
  filter (fun r => negb (key r =? id)%nat) l <> [].
Proof.
  intros Hnd Hlen. destruct l as [|a [|b l]]; cbn [length] in Hlen; try lia.
  cbn [filter]. destruct (key a =? id)%nat eqn:Ea; cbn [negb];
    [|discriminate].
  destruct (key b =? id)%nat eqn:Eb; cbn [negb]; [|discriminate].
  apply Nat.eqb_eq in Ea, Eb. exfalso.
  cbn [map] in Hnd. inversion Hnd as [|? ? Hnotin _]. apply Hnotin.
  left. congruence.
Qed.

Lemma length_others (id : Id) (l : list A) :
  NoDup (map key l) -> In id (map key l) ->
  length (filter (fun r => negb (key r =? id)%nat) l)
  = (length l - 1)%nat.
Proof.
  induction l as [|x l IH]; intros Hnd Hin; [destruct Hin|].
  cbn [map] in Hnd. inversion Hnd as [|? ? Hnotin Hnd']. subst.
  cbn [filter length]. destruct (key x =? id)%nat eqn:E; cbn [negb].
  - apply Nat.eqb_eq in E. subst id.
    assert (Hall : filter (fun r => negb (key r =? key x)%nat) l = l).
    { apply forallb_filter_id. apply forallb_forall. intros r Hr.
      apply negb_true_iff. apply Nat.eqb_neq. intro Hk. apply Hnotin.
      rewrite <- Hk. apply in_map. exact Hr. }
    rewrite Hall. lia.
  - apply Nat.eqb_neq in E. destruct Hin as [Hk | Hin]; [contradiction|].
    cbn [length]. rewrite (IH Hnd' Hin).
    destruct l; [destruct Hin | cbn [length]; lia].
Qed.
End TableFacts.

(** ** Pricing engine: what [redistribute] writes *)

Lemma setProbability_id (p : Q) (o : Outcome) :
  outcome_id (setProbability p o) = outcome_id o.
Proof. reflexivity. Qed.

Lemma rescaled_id m oid p s o : outcome_id (rescaled m oid p s o) = outcome_id o.
Proof.
  unfold rescaled.
  destruct (outcome_id o =? oid)%nat; [reflexivity|].
  destruct (outcome_marketId o =? m)%nat; reflexivity.
Qed.

Lemma rescaled_marketId m oid p s o :
  outcome_marketId (rescaled m oid p s o) = outcome_marketId o.
Proof.
  unfold rescaled.
  destruct (outcome_id o =? oid)%nat; [reflexivity|].
  destruct (outcome_marketId o =? m)%nat; reflexivity.
Qed.

Lemma filter_map_comm {A : Type} (p : A -> bool) (f : A -> A) (l : list A) :
  (forall x, p (f x) = p x) -> filter p (map f l) = map f (filter p l).
Proof.
  intro H. induction l as [|x l IH]; [reflexivity|].
  cbn [map filter]. rewrite H. destruct (p x); cbn [map]; congruence.
Qed.

Lemma filter_filter_and {A : Type} (p q : A -> bool) (l : list A) :
  filter q (filter p l) = filter (fun x => p x && q x) l.
Proof.
  induction l as [|x l IH]; [reflexivity|].
  cbn [filter]. destruct (p x); cbn [filter andb]; [|exact IH].
  destruct (q x); congruence.
Qed.

Lemma updateOthers_Ok (others : list Outcome) (s : Q) :
  forall tbl,
    NoDup (map outcome_id others) ->
    incl (map outcome_id others) (map outcome_id tbl) ->
    updateOthers others (Ok s) tbl
    = Ok (map (touch outcome_id others
                 (fun o r =>
                    setProbability (toFixed4 (outcome_probability o * s)) r))
              tbl).
Proof.
  induction others as [|o rest IH]; intros tbl Hnd Hincl.
  - cbn [updateOthers]. rewrite touch_nil. reflexivity.
  - cbn [map] in Hnd. inversion Hnd as [|? ? Hnotin Hnd']. subst.
    cbn [updateOthers bind].
    rewrite (update_Ok outcome_id) by (apply Hincl; left; reflexivity).
    cbn [bind]. rewrite IH.
    + f_equal.
      apply (touch_cons outcome_id o rest
               (fun o r =>
                  setProbability (toFixed4 (outcome_probability o * s)) r));
        [reflexivity | exact Hnotin].
    + exact Hnd'.
    + rewrite (keys_updAt outcome_id) by reflexivity.
      intros i Hi. apply Hincl. right. exact Hi.
Qed.

Lemma updateOthers_Fail (others : list Outcome) (e : Error) tbl :
  others <> [] -> updateOthers others (Fail e) tbl = Fail e.
Proof. destruct others; [congruence | reflexivity]. Qed.

(** A successful [redistribute] on a market of two or more outcomes: the
    sibling total was not zero, the traded outcome exists, and the table
    is rewritten row by row by [rescaled]. *)
Lemma redistribute_inv (m oid : Id) (newP : Q) (st st' : Store) :
  NoDup (map outcome_id (outcomes st)) ->
  (2 <= outcomeCount m st)%nat ->
  redistribute m oid newP st = Ok st' ->
  Qeq_bool (totalOtherProbability m oid st) 0 = false
  /\ In oid (map outcome_id (outcomes st))
  /\ st' = with_outcomes st
             (map (rescaled m oid newP
                     ((1 - newP) / totalOtherProbability m oid st))
                  (outcomes st)).
Proof.
  intros Hnd Hcount H. unfold redistribute in H.
  unfold outcomeCount in Hcount.
  set (allOutcomes :=
         filter (fun o => (outcome_marketId o =? m)%nat) (outcomes st)) in *.
  assert (Hlt : (1 <? length allOutcomes)%nat = true)
    by (apply Nat.ltb_lt; lia).
  rewrite Hlt in H.
  set (others := filter (fun o => negb (outcome_id o =? oid)%nat) allOutcomes)
    in *.
  assert (Hne : others <> []).
  { apply others_nonempty; [|exact Hcount].
    apply NoDup_keys_filter. exact Hnd. }
  unfold divide in H.
  change (fold_left (fun sum o => sum + outcome_probability o) others 0)
    with (totalOtherProbability m oid st) in H.
  destruct (Qeq_bool (totalOtherProbability m oid st) 0) eqn:Ez.
  - rewrite (updateOthers_Fail others _ _ Hne) in H. discriminate H.
  - rewrite updateOthers_Ok in H.
    + cbn [bind] in H. inv_res.
      apply update_inv in E. destruct E as [Hin ->].
      rewrite map_map in Hin.
      assert (Hkeys :
        map (fun x => outcome_id
               (touch outcome_id others
                  (fun o r =>
                     setProbability
                       (toFixed4 (outcome_probability o
                                  * ((1 - newP)
                                     / totalOtherProbability m oid st))) r)
                  x)) (outcomes st)
        = map outcome_id (outcomes st)).
      { apply map_ext. intro r. unfold touch.
        destruct (findUnique outcome_id (outcome_id r) others); reflexivity. }
      rewrite Hkeys in Hin.
      split; [reflexivity|]. split; [exact Hin|].
      f_equal. unfold others, allOutcomes.
      rewrite filter_filter_and.
      rewrite (touch_filter outcome_id) by exact Hnd.
      rewrite map_map. apply map_ext. intro r.
      unfold updAt, rescaled.
      destruct (outcome_marketId r =? m)%nat eqn:Em;
        destruct (outcome_id r =? oid)%nat eqn:Ei; cbn [andb negb];
        rewrite ?setProbability_id, ?Ei; reflexivity.
    + unfold others, allOutcomes.
      do 2 apply NoDup_keys_filter. exact Hnd.
    + unfold others, allOutcomes.
      intros i Hi. apply keys_filter_incl in Hi.
      apply keys_filter_incl in Hi. exact Hi.
Qed.

(** Sum of the probabilities written for rows with distinct identifiers
    that all belong to the market. *)
Lemma sum_rescaled (m oid : Id) (newP s : Q) (l : list Outcome) :
  NoDup (map outcome_id l) ->
  (forall o, In o l -> outcome_marketId o = m) ->
  sumQ (map outcome_probability (map (rescaled m oid newP s) l))
  == (if hasKey outcome_id oid l then newP else 0)
     + sumQ (map (fun o => toFixed4 (outcome_probability o * s))
                 (filter (fun o => negb (outcome_id o =? oid)%nat) l)).
Proof.
  induction l as [|x l IH]; intros Hnd Hm.
  - cbn. ring.
  - cbn [map] in Hnd. inversion Hnd as [|? ? Hnotin Hnd']. subst.
    assert (IH' := IH Hnd' (fun o Ho => Hm o (or_intror Ho))). clear IH.
    cbn [map sumQ fold_right filter hasKey existsb].
    unfold sumQ in IH'. rewrite IH'. unfold rescaled at 1.
    destruct (outcome_id x =? oid)%nat eqn:E; cbn [negb orb].
    + apply Nat.eqb_eq in E.
      assert (Hno : hasKey outcome_id oid l = false).
      { destruct (hasKey outcome_id oid l) eqn:Hk; [|reflexivity].
        apply hasKey_In in Hk. subst oid. contradiction. }
      rewrite Hno. cbn [setProbability outcome_probability]. ring.
    + rewrite (Hm x (or_introl eq_refl)), Nat.eqb_refl.
      cbn [setProbability outcome_probability map fold_right].
      change (existsb (fun r => (outcome_id r =? oid)%nat) l)
        with (hasKey outcome_id oid l).
      ring.
Qed.

(** The sum after a successful [redistribute]: one, up to half a unit in
    the fourth decimal place for every sibling. *)
Lemma redistribute_sum (m oid : Id) (newP : Q) (st st' : Store) :
  NoDup (map outcome_id (outcomes st)) ->
  (2 <= outcomeCount m st)%nat ->
  In oid (map outcome_id
            (filter (fun o => (outcome_marketId o =? m)%nat) (outcomes st))) ->
  redistribute m oid newP st = Ok st' ->
  Qabs (probabilitySum m st' - 1)
  <= inject_Z (Z.of_nat (outcomeCount m st - 1)) * (1 # 20000).
Proof.
  intros Hnd Hcount Hin H.
  destruct (redistribute_inv m oid newP st st' Hnd Hcount H)
    as [Hz [_ ->]].
  unfold probabilitySum, outcomeCount. cbn [outcomes with_outcomes].
  set (total := totalOtherProbability m oid st) in *.
  set (s := (1 - newP) / total).
  set (L := filter (fun o => (outcome_marketId o =? m)%nat) (outcomes st)) in *.
  rewrite filter_map_comm
    by (intro x; rewrite rescaled_marketId; reflexivity).
  fold L.
  assert (HndL : NoDup (map outcome_id L))
    by (apply NoDup_keys_filter; exact Hnd).
  rewrite (sum_rescaled m oid newP s L HndL).
  2:{ intros o Ho. apply filter_In in Ho. destruct Ho as [_ Ho].
      apply Nat.eqb_eq in Ho. exact Ho. }
  assert (Hk : hasKey outcome_id oid L = true) by (apply hasKey_In; exact Hin).
  rewrite Hk.
  rewrite <- (length_others outcome_id oid L HndL Hin).
  set (others := filter (fun o => negb (outcome_id o =? oid)%nat) L) in *.
  assert (Htotal : total == sumQ (map outcome_probability others)).
  { unfold total, totalOtherProbability. fold L. fold others.
    rewrite fold_left_sum. ring. }
  assert (Hnz : ~ total == 0).
  { intro Hq. apply Qeq_bool_iff in Hq. congruence. }
  assert (Hexact :
    sumQ (map (fun o => outcome_probability o * s) others) == 1 - newP).
  { rewrite sumQ_scale. rewrite <- Htotal. unfold s. field. exact Hnz. }
  pose proof (sumQ_rounding_error (fun o => outcome_probability o * s) others)
    as Herr.
  assert (Heq :
    newP + sumQ (map (fun o => toFixed4 (outcome_probability o * s)) others) - 1
    == sumQ (map (fun o => toFixed4 (outcome_probability o * s)) others)
       - sumQ (map (fun o => outcome_probability o * s) others)).
  { rewrite Hexact. ring. }
  rewrite Heq. exact Herr.
Qed.

(** ** What each store primitive changes *)

Lemma incrementBalance_inv (u : Id) (d : Q) (st st' : Store) :
  incrementBalance u d st = Ok st' ->
  In u (map user_id (users st))
  /\ st' = with_users st
             (map (updAt user_id u (setBalance (fun b => b + d))) (users st)).
Proof.
  unfold incrementBalance. intro H. inv_res.
  apply update_inv in E. destruct E as [Hin ->]. auto.
Qed.

Lemma incrementBalance_Ok (u : Id) (d : Q) (st : Store) :
  In u (map user_id (users st)) ->
  incrementBalance u d st
  = Ok (with_users st
          (map (updAt user_id u (setBalance (fun b => b + d))) (users st))).
Proof.
  intro H. unfold incrementBalance.
  rewrite (update_Ok user_id) by exact H. reflexivity.
Qed.

Lemma incrementVolume_inv (m : Id) (d : Q) (st st' : Store) :
  incrementVolume m d st = Ok st' ->
  In m (map market_id (markets st))
  /\ st' = with_markets st
             (map (updAt market_id m (setVolume (fun v => v + d)))
                  (markets st)).
Proof.
  unfold incrementVolume. intro H. inv_res.
  apply update_inv in E. destruct E as [Hin ->]. auto.
Qed.

Lemma incrementVolume_Ok (m : Id) (d : Q) (st : Store) :
  In m (map market_id (markets st)) ->
  incrementVolume m d st
  = Ok (with_markets st
          (map (updAt market_id m (setVolume (fun v => v + d)))
               (markets st))).
Proof.
  intro H. unfold incrementVolume.
  rewrite (update_Ok market_id) by exact H. reflexivity.
Qed.

(** [updateHoldings] touches the holdings table and the identifier
    counter only. *)
Lemma updateHoldings_frame (u oid : Id) (amount price : Q) (type : Side)
    (st st' : Store) :
  updateHoldings u oid amount price type st = Ok st' ->
  users st' = users st /\ markets st' = markets st
  /\ outcomes st' = outcomes st /\ orders st' = orders st
  /\ trades st' = trades st /\ transactions st' = transactions st.
Proof.
  unfold updateHoldings. intro H.
  destruct type; destruct (findHolding u oid st); inv_res;
    try discriminate; repeat split; reflexivity.
Qed.

Lemma redistribute_frame (m oid : Id) (p : Q) (st st' : Store) :
  redistribute m oid p st = Ok st' ->
  exists tbl, st' = with_outcomes st tbl.
Proof.
  unfold redistribute. intro H. inv_res. eexists. reflexivity.
Qed.

Lemma updateProbabilities_inv (m oid : Id) (amount : Q) (type : Side)
    (st st' : Store) :
  updateProbabilities m oid amount type st = Ok st' ->
  exists outcome market,
    findUnique outcome_id oid (outcomes st) = Some outcome
    /\ findUnique market_id m (markets st) = Some market
    /\ redistribute m oid
         (newProbabilityFor type (outcome_probability outcome) amount
            (market_volume market)) st = Ok st'.
Proof.
  unfold updateProbabilities. intro H.
  destruct (findUnique outcome_id oid (outcomes st)) as [o|];
    [|discriminate H].
  destruct (findUnique market_id m (markets st)) as [mk|];
    [|discriminate H].
  exists o, mk. auto.
Qed.

Lemma findOutcomeIn_Some (oid m : Id) (st : Store) (o : Outcome) :
  findOutcomeIn oid m st = Some o ->
  In o (outcomes st) /\ outcome_id o = oid /\ outcome_marketId o = m.
Proof.
  unfold findOutcomeIn. intro H. apply find_some in H.
  destruct H as [Hin Hk]. apply andb_true_iff in Hk.
  destruct Hk as [H1 H2]. apply Nat.eqb_eq in H1, H2. auto.
Qed.

Lemma findOutcomeIn_market (oid m : Id) (st : Store) (o : Outcome) :
  findOutcomeIn oid m st = Some o ->
  In oid (map outcome_id
            (filter (fun o => (outcome_marketId o =? m)%nat) (outcomes st))).
Proof.
  intro H. apply findOutcomeIn_Some in H. destruct H as [Hin [Hid Hm]].
  apply in_map_iff. exists o. split; [exact Hid|].
  apply filter_In. split; [exact Hin|]. apply Nat.eqb_eq. exact Hm.
Qed.

(** The trade route's transaction: everything before the probability
    update leaves the outcomes alone and adds [amount] to the volume of
    the market; the update itself is [redistribute] at the probability
    computed from the rows read before the transaction. *)
Lemma applyHoldings_frame (user : User) (outcome : Outcome)
    (req : TradeRequest) (uh : option UserOutcome) (st st' : Store) (pl : Q) :
  applyHoldings user outcome req uh st = Ok (st', pl) ->
  users st' = users st /\ markets st' = markets st
  /\ outcomes st' = outcomes st /\ orders st' = orders st
  /\ trades st' = trades st /\ transactions st' = transactions st.
Proof.
  unfold applyHoldings. intro H.
  destruct (treq_type req); inv_res.
  - destruct (findHolding (user_id user) (treq_outcomeId req) st); inv_res;
      repeat split; reflexivity.
  - destruct uh; inv_res; repeat split; reflexivity.
Qed.

Lemma applyBalance_inv (user : User) (outcome : Outcome) (req : TradeRequest)
    (st st' : Store) :
  applyBalance user outcome req st = Ok st' ->
  exists d,
    In (user_id user) (map user_id (users st))
    /\ st' = with_users st
               (map (updAt user_id (user_id user)
                       (setBalance (fun b => b + d))) (users st)).
Proof.
  unfold applyBalance. intro H.
  destruct (treq_type req); apply incrementBalance_inv in H; eauto.
Qed.

(** The trade route's transaction: everything before the probability
    update leaves the outcomes alone and adds [amount] to the volume of
    the market; the update itself is [redistribute] at the probability
    computed from the rows read before the transaction. *)
Lemma tradeTransaction_inv (user : User) (market : Market) (outcome : Outcome)
    (req : TradeRequest) (st st' : Store) :
  tradeTransaction user market outcome req st = Ok st' ->
  exists st1,
    outcomes st1 = outcomes st
    /\ In (treq_marketId req) (map market_id (markets st))
    /\ markets st1
       = map (updAt market_id (treq_marketId req)
                (setVolume (fun v => v + treq_amount req))) (markets st)
    /\ redistribute (treq_marketId req) (treq_outcomeId req)
         (newProbabilityFor (treq_type req) (outcome_probability outcome)
            (treq_amount req) (market_volume market)) st1 = Ok st'.
Proof.
  unfold tradeTransaction. intro H. inv_res.
  destruct a0 as [s pl]. cbn [fst snd] in *.
  apply applyHoldings_frame in E0.
  destruct E0 as [Hu [Hm [Ho [_ [_ _]]]]].
  apply applyBalance_inv in E1. destruct E1 as [d [_ ->]].
  apply incrementVolume_inv in E2. destruct E2 as [Hin ->].
  eexists. split; [|split; [|split; [|exact H]]].
  - cbn. rewrite Ho. reflexivity.
  - cbn in Hin. rewrite Hm in Hin. exact Hin.
  - cbn. rewrite Hm. reflexivity.
Qed.

(** One fill of the order route, table by table. *)
Lemma fillAgainst_inv (u m oid : Id) (type : Side) (mo : Order)
    (avail fill : Q) (st st' : Store) :
  fillAgainst u m oid type mo avail fill st = Ok st' ->
  exists st1,
    updateProbabilities m oid fill type st1 = Ok st'
    /\ outcomes st1 = outcomes st
    /\ In m (map market_id (markets st))
    /\ markets st1
       = map (updAt market_id m (setVolume (fun v => v + fill))) (markets st)
    /\ orders st1
       = map (updAt order_id (order_id mo)
                (setFilledStatus (fun f => f + fill)
                   (if Qle_bool avail fill then FILLED else OPEN)))
             (orders st)
    /\ trades st1
       = trades st
         ++ [mkTrade u m oid fill (order_price mo) type;
             mkTrade (order_userId mo) m oid fill (order_price mo)
                     (opposite type)]
    /\ users st1
       = map (updAt user_id (order_userId mo)
                (setBalance
                   (fun b => b + cashFlow type false
                                   (fill * order_price mo))))
           (map (updAt user_id u
                   (setBalance
                      (fun b => b + cashFlow type true
                                      (fill * order_price mo))))
                (users st))
    /\ transactions st1
       = transactions st
         ++ [mkTransaction u
               (fill * order_price mo
                * match type with BUY => - (1) | SELL => 1 end) TRADE None;
             mkTransaction (order_userId mo)
               (fill * order_price mo
                * match type with BUY => 1 | SELL => - (1) end) TRADE None].
Proof.
  unfold fillAgainst. intro H. inv_res.
  apply update_inv in E. destruct E as [_ ->].
  apply incrementVolume_inv in E1. destruct E1 as [Hm ->].
  destruct type; inv_res;
    repeat match goal with
    | H : updateHoldings _ _ _ _ _ _ = Ok _ |- _ =>
        apply updateHoldings_frame in H;
        destruct H as [? [? [? [? [? ?]]]]]
    | H : incrementBalance _ _ _ = Ok _ |- _ =>
        apply incrementBalance_inv in H; destruct H as [_ ->]
    end;
    (eexists; split; [exact H|]);
    cbn in *;
    repeat split;
    repeat match goal with
    | H : ?f ?a = _ |- context [?f ?a] => rewrite H
    end;
    rewrite <- ?app_assoc; try reflexivity; try assumption;
    congruence.
Qed.

Lemma redistribute_Ok (m oid : Id) (newP : Q) (st : Store) :
  NoDup (map outcome_id (outcomes st)) ->
  (2 <= outcomeCount m st)%nat ->
  In oid (map outcome_id (outcomes st)) ->
  Qeq_bool (totalOtherProbability m oid st) 0 = false ->
  redistribute m oid newP st
  = Ok (with_outcomes st
          (map (rescaled m oid newP
                  ((1 - newP) / totalOtherProbability m oid st))
               (outcomes st))).
Proof.
  intros Hnd Hcount Hin Hz.
  destruct (redistribute m oid newP st) as [st'|e] eqn:H.
  - destruct (redistribute_inv m oid newP st st' Hnd Hcount H) as [_ [_ ->]].
    reflexivity.
  - exfalso. unfold redistribute in H. unfold outcomeCount in Hcount.
    set (allOutcomes :=
           filter (fun o => (outcome_marketId o =? m)%nat) (outcomes st)) in *.
    assert (Hlt : (1 <? length allOutcomes)%nat = true)
      by (apply Nat.ltb_lt; lia).
    rewrite Hlt in H.
    set (others :=
           filter (fun o => negb (outcome_id o =? oid)%nat) allOutcomes) in *.
    unfold divide in H.
    change (fold_left (fun sum o => sum + outcome_probability o) others 0)
      with (totalOtherProbability m oid st) in H.
    rewrite Hz in H.
    rewrite updateOthers_Ok in H.
    + cbn [bind] in H. rewrite (update_Ok outcome_id) in H.
      * discriminate H.
      * rewrite map_map.
        erewrite map_ext; [exact Hin|].
        intro r. unfold touch.
        destruct (findUnique outcome_id (outcome_id r) others); reflexivity.
    + unfold others, allOutcomes. do 2 apply NoDup_keys_filter. exact Hnd.
    + unfold others, allOutcomes. intros i Hi.
      apply keys_filter_incl in Hi. apply keys_filter_incl in Hi. exact Hi.
Qed.

Lemma findUnique_rescaled (m oid i : Id) (p s : Q) (tbl : list Outcome) :
  findUnique outcome_id i (map (rescaled m oid p s) tbl)
  = option_map (rescaled m oid p s) (findUnique outcome_id i tbl).
Proof.
  unfold findUnique. induction tbl as [|x tbl IH]; [reflexivity|].
  cbn [map find]. rewrite rescaled_id.
  destruct (outcome_id x =? i)%nat; [reflexivity | exact IH].
Qed.

(** * Probability conservation (C1) *)

(** C1, failing input: a market just created with eight outcomes (0.125
    each, volume 0, the probabilities adding up to one); a BUY of 50 on
    the first outcome through the trade route.  The traded outcome is
    written at 0.99 and each of the seven siblings at
    0.125 * 0.01 / 0.875 rounded to four decimals, 0.0014: the eight
    probabilities add up to 0.9998, two units of the fourth decimal away
    from the one the redistribution is written to maintain. *)
Theorem C1_eight_outcomes_sum_short :
  probabilitySum theMarket (freshMarket 8) == 1
  /\ exists st',
       POST_trades alice (mkTradeRequest theMarket 100%nat 50 BUY false)
                   (freshMarket 8) = Ok st'
       /\ probabilityOf 100%nat st' = Some 0.99
       /\ (forall i, In i [101; 102; 103; 104; 105; 106; 107]%nat ->
             exists p, probabilityOf i st' = Some p /\ p == 0.0014)
       /\ outcomeCount theMarket st' = 8%nat
       /\ probabilitySum theMarket st' == 0.9998
       /\ ~ Qabs (probabilitySum theMarket st' - 1) < 1 # 10000.
Proof.
  split; [vm_compute; reflexivity|].
  eexists. split; [vm_compute; reflexivity|].
  split; [vm_compute; reflexivity|].
  split.
  { intros i Hi. cbn [In] in Hi.
    repeat (destruct Hi as [<- | Hi];
            [eexists; split; vm_compute; reflexivity|]).
    destruct Hi. }
  split; [vm_compute; reflexivity|].
  split; [vm_compute; reflexivity|].
  vm_compute. discriminate.
Qed.

(** * The two-outcome scenario (C9) *)

Lemma Qeq_bool_comp (a a' b b' : Q) :
  a == a' -> b == b' -> Qeq_bool a b = Qeq_bool a' b'.
Proof.
  intros Ha Hb. destruct (Qeq_bool a' b') eqn:E.
  - apply Qeq_bool_iff. apply Qeq_bool_iff in E. rewrite Ha, Hb. exact E.
  - destruct (Qeq_bool a b) eqn:E'; [|reflexivity].
    apply Qeq_bool_iff in E'. rewrite Ha, Hb in E'.
    apply Qeq_bool_iff in E'. congruence.
Qed.

Lemma orElse_comp (v v' d : Q) : v == v' -> orElse v d == orElse v' d.
Proof.
  intro H. unfold orElse. rewrite (Qeq_bool_comp v v' 0 0 H (Qeq_refl 0)).
  destruct (Qeq_bool v' 0); [reflexivity | exact H].
Qed.

Lemma orElse_nonzero (v : Q) : ~ orElse v 1 == 0.
Proof.
  unfold orElse. destruct (Qeq_bool v 0) eqn:E.
  - discriminate.
  - intro H. apply Qeq_bool_iff in H. congruence.
Qed.

(** Equal inputs give the same stored probability. *)
Lemma newProbabilityFor_comp (type : Side) (p p' a a' v v' : Q) :
  p == p' -> a == a' -> v == v' ->
  newProbabilityFor type p a v = newProbabilityFor type p' a' v'.
Proof.
  intros Hp Ha Hv. unfold newProbabilityFor. apply toFixed4_comp.
  apply mathMax_comp; [reflexivity|].
  apply mathMin_comp; [reflexivity|].
  pose proof (orElse_comp v v' 1 Hv) as Ho.
  pose proof (orElse_nonzero v) as Hn.
  pose proof (orElse_nonzero v') as Hn'.
  destruct type; rewrite Hp, Ha;
    assert (a' / orElse v 1 == a' / orElse v' 1) as ->
      by (rewrite Ho; reflexivity);
    reflexivity.
Qed.

Lemma findOutcomeIn_NoDup (o : Outcome) (st : Store) :
  NoDup (map outcome_id (outcomes st)) ->
  In o (outcomes st) ->
  findOutcomeIn (outcome_id o) (outcome_marketId o) st = Some o.
Proof.
  unfold findOutcomeIn. intros Hnd Hin.
  induction (outcomes st) as [|x tbl IH]; [destruct Hin|].
  cbn [map] in Hnd. inversion Hnd as [|? ? Hnotin Hnd']. subst.
  cbn [find]. destruct Hin as [-> | Hin].
  - rewrite !Nat.eqb_refl. reflexivity.
  - destruct (outcome_id x =? outcome_id o)%nat eqn:E.
    + apply Nat.eqb_eq in E. exfalso. apply Hnotin. rewrite E.
      apply in_map. exact Hin.
    + cbn [andb]. apply IH; assumption.
Qed.

Lemma filter_In_market (m : Id) (o : Outcome) (st : Store) :
  In o (filter (fun o => (outcome_marketId o =? m)%nat) (outcomes st)) ->
  In o (outcomes st) /\ outcome_marketId o = m.
Proof.
  intro H. apply filter_In in H. destruct H as [Hin Hm].
  apply Nat.eqb_eq in Hm. auto.
Qed.

(** C9.  A market with exactly two outcomes A and B, both at 0.50, volume
    0, nobody holding A yet; a caller with a balance of at least 50 buys
    for 50 on A through the trade route.  The volume 0 is read as 1, the
    impact factor is 0.001 * (50 / 1) * 100 = 5, the raw probability
    0.5 + 5 * 0.5 is cut to min(0.99, -) = 0.99, the trade succeeds, A is
    stored at 0.99 and B at 0.01. *)
Theorem C9_two_outcome_buy_of_50 :
  forall (st : Store) (caller m : Id) (user : User) (market : Market)
         (oA oB : Outcome),
    findUnique user_id caller (users st) = Some user ->
    50 <= user_balance user ->
    findUnique market_id m (markets st) = Some market ->
    market_isResolved market = false ->
    market_volume market == 0 ->
    NoDup (map outcome_id (outcomes st)) ->
    (filter (fun o => (outcome_marketId o =? m)%nat) (outcomes st) = [oA; oB]
     \/ filter (fun o => (outcome_marketId o =? m)%nat) (outcomes st)
        = [oB; oA]) ->
    outcome_probability oA == 0.5 ->
    outcome_probability oB == 0.5 ->
    findHolding caller (outcome_id oA) st = None ->
    0.001 * (50 / orElse (market_volume market) 1) * 100 == 5
    /\ mathMin 0.99 (0.5 + 5 * (1 - 0.5)) == 0.99
    /\ exists st',
         POST_trades caller (mkTradeRequest m (outcome_id oA) 50 BUY false) st
         = Ok st'
         /\ probabilityOf (outcome_id oA) st' = Some 0.99
         /\ probabilityOf (outcome_id oB) st' = Some 0.01.
Proof.
  intros st caller m user market oA oB Huser Hbal Hmarket Hopen Hvol Hnd
         Hpair HpA HpB Hnone.
  split.
  { rewrite (orElse_comp _ 0 1 Hvol). vm_compute. reflexivity. }
  split.
  { vm_compute. reflexivity. }
  set (L := filter (fun o => (outcome_marketId o =? m)%nat) (outcomes st)) in *.
  assert (HinA : In oA L) by (destruct Hpair as [-> | ->]; cbn; auto).
  assert (HinB : In oB L) by (destruct Hpair as [-> | ->]; cbn; auto).
  apply filter_In_market in HinA, HinB.
  destruct HinA as [HinA HmA]. destruct HinB as [HinB HmB].
  assert (HndL : NoDup (map outcome_id L))
    by (apply NoDup_keys_filter; exact Hnd).
  assert (Hne : outcome_id oB <> outcome_id oA).
  { destruct Hpair as [E | E]; rewrite E in HndL; cbn in HndL;
      inversion HndL as [|? ? Hn _]; intro Heq; apply Hn; left; congruence. }
  assert (Hothers :
    filter (fun o => negb (outcome_id o =? outcome_id oA)%nat) L = [oB]).
  { apply Nat.eqb_neq in Hne.
    destruct Hpair as [-> | ->]; cbn [filter];
      rewrite Nat.eqb_refl, Hne; reflexivity. }
  assert (Hfind : findOutcomeIn (outcome_id oA) m st = Some oA).
  { rewrite <- HmA. apply findOutcomeIn_NoDup; assumption. }
  assert (HpA0 : Qeq_bool (outcome_probability oA) 0 = false).
  { rewrite (Qeq_bool_comp _ 0.5 0 0 HpA (Qeq_refl 0)). reflexivity. }
  assert (Hbalb : ltb (user_balance user) 50 = false)
    by (apply ltb_false_iff; exact Hbal).
  pose proof (findUnique_Some user_id _ _ _ Huser) as [_ Hcaller].
  pose proof (findUnique_key_In user_id _ _ _ Huser) as HuIn.
  pose proof (findUnique_key_In market_id _ _ _ Hmarket) as HmIn.
  (* the transaction up to the probability update *)
  unfold POST_trades. rewrite Huser. cbn [treq_amount treq_marketId
    treq_outcomeId treq_type].
  change (negb (ltb 0 50)) with false. cbv iota.
  rewrite Hmarket, Hopen, Hfind. cbn [Side_eqb andb]. rewrite Hbalb.
  unfold tradeTransaction, checkShares, applyHoldings, applyBalance.
  cbn [treq_amount treq_marketId treq_outcomeId treq_type treq_isSharesMode
       bind].
  unfold divide at 1. rewrite HpA0. cbn [bind].
  assert (Hnone' :
    findHolding (user_id user) (outcome_id oA)
      (createTrade
         (mkTrade (user_id user) m (outcome_id oA) 50
                  (outcome_probability oA) BUY) st) = None).
  { rewrite Hcaller. exact Hnone. }
  rewrite Hnone'. cbn [bind fst snd].
  rewrite incrementBalance_Ok by (rewrite Hcaller; exact HuIn). cbn [bind].
  rewrite incrementVolume_Ok by exact HmIn. cbn [bind].
  (* the probability update *)
  match goal with
  | |- context [redistribute m (outcome_id oA) ?p ?s] =>
      set (newP := p); set (st1 := s)
  end.
  assert (HnewP : newP = 0.99).
  { unfold newP.
    rewrite (newProbabilityFor_comp BUY _ 0.5 50 50 _ 0 HpA (Qeq_refl 50) Hvol).
    vm_compute. reflexivity. }
  assert (Hout1 : outcomes st1 = outcomes st) by reflexivity.
  assert (Htotal : totalOtherProbability m (outcome_id oA) st1
                   == outcome_probability oB).
  { unfold totalOtherProbability. rewrite Hout1. fold L. rewrite Hothers.
    cbn [fold_left]. ring. }
  assert (Hz : Qeq_bool (totalOtherProbability m (outcome_id oA) st1) 0
               = false).
  { rewrite (Qeq_bool_comp _ 0.5 0 0); [reflexivity | | reflexivity].
    rewrite Htotal. exact HpB. }
  rewrite redistribute_Ok.
  - eexists. split; [reflexivity|].
    unfold probabilityOf. cbn [outcomes with_outcomes]. rewrite Hout1.
    rewrite !findUnique_rescaled.
    rewrite (findUnique_NoDup outcome_id _ oA Hnd HinA).
    rewrite (findUnique_NoDup outcome_id _ oB Hnd HinB).
    cbn [option_map]. unfold rescaled.
    rewrite Nat.eqb_refl. apply Nat.eqb_neq in Hne. rewrite Hne.
    rewrite HmB, Nat.eqb_refl.
    cbn [setProbability outcome_probability]. split.
    + rewrite HnewP. reflexivity.
    + f_equal. rewrite HnewP.
      rewrite (toFixed4_comp _ 0.01); [vm_compute; reflexivity|].
      rewrite Htotal, HpB. vm_compute. reflexivity.
  - rewrite Hout1. exact Hnd.
  - unfold outcomeCount. rewrite Hout1. fold L.
    destruct Hpair as [-> | ->]; cbn; lia.
  - rewrite Hout1. apply in_map. exact HinA.
  - exact Hz.
Qed.

(** C9 on the market just created with two outcomes, Alice buying. *)
Lemma C9_two_outcome_witness :
  exists st',
    POST_trades alice (mkTradeRequest theMarket 100%nat 50 BUY false)
                (freshMarket 2) = Ok st'
    /\ probabilityOf 100%nat st' = Some 0.99
    /\ probabilityOf 101%nat st' = Some 0.01.
Proof.
  refine (proj2 (proj2
    (C9_two_outcome_buy_of_50 (freshMarket 2) alice theMarket
       (mkUser alice 1000 false) (mkMarket theMarket 0 false None)
       (mkOutcome 100%nat theMarket (1 # 2) false)
       (mkOutcome 101%nat theMarket (1 # 2) false)
       eq_refl _ eq_refl eq_refl _ _ (or_introl eq_refl) _ _ eq_refl))).
  - vm_compute. discriminate.
  - reflexivity.
  - vm_compute.
    repeat (constructor; [cbn; intuition discriminate|]). constructor.
  - reflexivity.
  - reflexivity.
Defined.

(** * Probability bounds (C2) *)

(** The clamp does its work for the traded outcome: whatever the trade,
    the probability written for it lies in [0.01, 0.99]. *)
Lemma toFixed4_clamped (c : Q) :
  0.01 <= c -> c <= 0.99 -> 0.01 <= toFixed4 c /\ toFixed4 c <= 0.99.
Proof.
  intros Hlo Hhi. unfold toFixed4.
  assert (Hnn : ltb c 0 = false) by (apply ltb_false_iff; lra).
  rewrite Hnn, Qred_correct.
  assert (H1 : (100 <= Qfloor (c * 10000 + (1 # 2)))%Z).
  { change 100%Z with (Qfloor (inject_Z 100)).
    apply Qfloor_resp_le. change (inject_Z 100) with 100. lra. }
  assert (H2 : (Qfloor (c * 10000 + (1 # 2)) <= 9900)%Z).
  { change 9900%Z with (Qfloor (9900 + (1 # 2))).
    apply Qfloor_resp_le. lra. }
  rewrite Zle_Qle in H1, H2.
  set (n := inject_Z (Qfloor (c * 10000 + (1 # 2)))) in *.
  change (inject_Z 100) with 100 in H1. change (inject_Z 9900) with 9900 in H2.
  assert (n / 10000 == n * (1 # 10000)) as -> by field.
  split; lra.
Qed.

Lemma newProbabilityFor_bounds (type : Side) (p a v : Q) :
  0.01 <= newProbabilityFor type p a v /\ newProbabilityFor type p a v <= 0.99.
Proof.
  unfold newProbabilityFor. apply toFixed4_clamped.
  - apply mathMax_spec.
  - unfold mathMax, mathMin.
    repeat match goal with
    | |- context [Qle_bool ?x ?y] =>
        let E := fresh "E" in
        destruct (Qle_bool x y) eqn:E;
        [apply Qle_bool_iff in E | apply Qle_bool_false_iff in E]
    end; lra.
Qed.

(** C2, failing input: a market just created with four outcomes (0.25
    each, volume 0); a BUY of 50 on the first outcome.  The traded outcome
    is cut to 0.99, the three siblings are rescaled to 0.0033 each, below
    the floor of 0.01 that the clamp enforces for the traded outcome. *)
Theorem C2_sibling_below_floor :
  exists st',
    POST_trades alice (mkTradeRequest theMarket 100%nat 50 BUY false)
                (freshMarket 4) = Ok st'
    /\ probabilityOf 100%nat st' = Some 0.99
    /\ probabilityOf 101%nat st' = Some 0.0033
    /\ probabilityOf 102%nat st' = Some 0.0033
    /\ probabilityOf 103%nat st' = Some 0.0033
    /\ 0.0033 < 0.01.
Proof.
  eexists. split; [vm_compute; reflexivity|].
  repeat split; vm_compute; reflexivity.
Qed.

(** * Volume and price impact (C6) *)


(** The numbers of the counterexample, spelled out. *)
Example C6_numbers_at_volume_half :
  exists st',
    POST_trades alice (mkTradeRequest theMarket 100%nat 0.2 BUY false)
                afterSmallTrade = Ok st'
    /\ probabilityOf 100%nat afterSmallTrade = Some (21 # 40)
    /\ probabilityOf 100%nat st' = Some (68 # 125)
    /\ claimedProbabilityFor BUY (21 # 40) 0.2 0.5 = 1069 # 2000
    /\ claimedProbabilityFor BUY (21 # 40) 0.2 (0.5 + 0.2) = 1069 # 2000.
Proof.
  eexists. split; [vm_compute; reflexivity|].
  repeat split; vm_compute; reflexivity.
Qed.





(** The stored probability is a number of ten-thousandths. *)
Lemma toFixed4_on_grid (x : Q) : exists k, toFixed4 x == inject_Z k / 10000.
Proof.
  unfold toFixed4. destruct (ltb x 0).
  - exists (- Qfloor (- x * 10000 + (1 # 2)))%Z.
    rewrite Qred_correct, inject_Z_opp. field.
  - eexists. rewrite Qred_correct. reflexivity.
Qed.




(** * Balances *)

Lemma balanceIn_credit (u c : Id) (d : Q) (us : list User) :
  In c (map user_id us) ->
  balanceIn u (map (updAt user_id c (setBalance (fun b => b + d))) us)
  == balanceIn u us + (if (u =? c)%nat then d else 0).
Proof.
  intro Hin. unfold balanceIn.
  rewrite (findUnique_updAt user_id) by reflexivity.
  destruct (findUnique user_id u us) as [x|] eqn:E; cbn [option_map].
  - apply findUnique_Some in E. destruct E as [_ Hk].
    unfold updAt. rewrite Hk.
    destruct (u =? c)%nat; cbn [setBalance user_balance]; ring.
  - destruct (u =? c)%nat eqn:Ec; [|ring].
    apply Nat.eqb_eq in Ec. subst c.
    apply findUnique_None in E. contradiction.
Qed.

Lemma keys_credit (c : Id) (f : Q -> Q) (us : list User) :
  map user_id (map (updAt user_id c (setBalance f)) us) = map user_id us.
Proof. apply (keys_updAt user_id). reflexivity. Qed.

(** * Cancelling an order (C5, C10) *)

Lemma DELETE_order_inv (caller id : Id) (st st' : Store) :
  DELETE_order caller id st = Ok st' ->
  exists user order,
    findUnique user_id caller (users st) = Some user
    /\ findUnique order_id id (orders st) = Some order
    /\ (order_userId order = caller \/ user_isAdmin user = true)
    /\ order_status order = OPEN
    /\ cancelTransaction user order st = Ok st'.
Proof.
  unfold DELETE_order. intro H.
  destruct (findUnique user_id caller (users st)) as [user|] eqn:Eu;
    [|discriminate H].
  destruct (findUnique order_id id (orders st)) as [order|] eqn:Eo;
    [|discriminate H].
  destruct (negb (order_userId order =? user_id user)%nat
            && negb (user_isAdmin user)) eqn:Eauth; [discriminate H|].
  destruct (negb (Status_eqb (order_status order) OPEN)) eqn:Est;
    [discriminate H|].
  destruct (findUnique market_id (order_marketId order) (markets st))
    as [market|]; [|discriminate H].
  destruct (market_isResolved market); [discriminate H|].
  exists user, order. repeat split; try assumption.
  - apply findUnique_Some in Eu. destruct Eu as [_ Hk]. rewrite Hk in Eauth.
    destruct (order_userId order =? caller)%nat eqn:E1.
    + left. apply Nat.eqb_eq. exact E1.
    + right. destruct (user_isAdmin user); [reflexivity | discriminate].
  - destruct (order_status order); cbn in Est; congruence.
Qed.

(** What a successful cancel does: the order row becomes CANCELLED; an
    order of type BUY with an unfilled remainder credits the remainder to
    the caller and logs ORDER_CANCEL_REFUND for the caller; nothing else
    is written to the ledger, whatever the order's [orderType]. *)
Lemma cancel_effect (caller id : Id) (st st' : Store) (order : Order) :
  findUnique order_id id (orders st) = Some order ->
  DELETE_order caller id st = Ok st' ->
  orders st' = map (updAt order_id id (setStatus CANCELLED)) (orders st)
  /\ (order_type order = BUY -> 0 < order_amount order - order_filled order ->
      (forall u, balance u st'
                 == balance u st
                    + (if (u =? caller)%nat
                       then order_amount order - order_filled order else 0))
      /\ transactions st'
         = transactions st
           ++ [mkTransaction caller
                 (order_amount order - order_filled order)
                 ORDER_CANCEL_REFUND None])
  /\ (order_type order = SELL ->
      users st' = users st /\ transactions st' = transactions st).
Proof.
  intros Ho H. apply DELETE_order_inv in H.
  destruct H as [user [order' [Hu [Ho' [_ [_ H]]]]]].
  rewrite Ho in Ho'. inversion Ho'. subst order'. clear Ho'.
  pose proof (findUnique_Some order_id _ _ _ Ho) as [_ Hid].
  pose proof (findUnique_Some user_id _ _ _ Hu) as [_ Hcaller].
  unfold cancelTransaction in H. inv_res.
  apply update_inv in E. destruct E as [_ ->]. subst.
  destruct (order_type order) eqn:Et.
  - destruct (ltb 0 (order_amount order - order_filled order)) eqn:Er.
    + inv_res. apply incrementBalance_inv in E. destruct E as [Hin ->].
      cbn in Hin.
      split; [reflexivity|]. split; [|discriminate].
      intros _ _. split; [|reflexivity].
      intro u. unfold balance. cbn. apply balanceIn_credit. exact Hin.
    + inv_res. split; [reflexivity|]. split; [|discriminate].
      intros _ Hpos. apply ltb_true_iff in Hpos. congruence.
  - inv_res. split; [reflexivity|]. split; [discriminate|].
    intros _. split; reflexivity.
Qed.

(** * The matching loop, against the walk the specification describes *)

Lemma updateProbabilities_frame (m oid : Id) (a : Q) (type : Side)
    (st st' : Store) :
  updateProbabilities m oid a type st = Ok st' ->
  users st' = users st /\ markets st' = markets st
  /\ orders st' = orders st /\ trades st' = trades st
  /\ holdings st' = holdings st /\ transactions st' = transactions st.
Proof.
  intro H. apply updateProbabilities_inv in H.
  destruct H as [o [mk [_ [_ H]]]].
  apply redistribute_frame in H. destruct H as [tbl ->].
  repeat split; reflexivity.
Qed.

(** The loop performs exactly the planned fills. *)
Lemma matchLoop_inv (u m oid : Id) (type : Side) (candidates : list Order) :
  forall (remaining filled : Q) (matched : list Id) (st st' : Store)
         (filled' : Q) (matched' : list Id),
    matchLoop u m oid type candidates remaining filled matched st
    = Ok (st', filled', matched') ->
    let fills := plannedFills candidates remaining in
    trades st' = trades st ++ flat_map (tradeRows u m oid type) fills
    /\ filled' = totalFilled fills filled
    /\ matched' = matched ++ map (fun x => order_id (fst x)) fills
    /\ users st' = settle u type fills (users st)
    /\ orders st' = restingAfter fills (orders st).
Proof.
  induction candidates as [|mo rest IH];
    intros remaining filled matched st st' filled' matched' H.
  - cbn in H. inversion H. subst. cbn.
    rewrite !app_nil_r. repeat split; reflexivity.
  - cbn [matchLoop plannedFills] in *.
    destruct (Qle_bool remaining 0).
    + inversion H. subst. cbn. rewrite !app_nil_r. repeat split; reflexivity.
    + destruct (Qle_bool (order_amount mo - order_filled mo) 0).
      * apply IH. exact H.
      * inv_res.
        apply IH in H. cbv zeta in H.
        destruct H as [Ht [Hf [Hmt [Hu Ho]]]].
        apply fillAgainst_inv in E.
        destruct E as [st1 [Hup [_ [_ [_ [Ho1 [Ht1 [Hu1 _]]]]]]]].
        apply updateProbabilities_frame in Hup.
        destruct Hup as [Hu2 [_ [Ho2 [Ht2 _]]]].
        cbn [flat_map totalFilled settle restingAfter fold_left map fst snd].
        rewrite Ht, Ht2, Ht1, Hf, Hmt, Hu, Hu2, Hu1, Ho, Ho2, Ho1.
        rewrite <- !app_assoc. repeat split; reflexivity.
Qed.

(** ** The candidate list is the sorted opposite side of the book *)

Lemma priceBefore_iff (type : Side) (a b : Order) :
  priceBefore type a b = true <-> walksBefore type a b.
Proof. destruct type; cbn; apply Qle_bool_iff. Qed.

Lemma priceBefore_total (type : Side) (a b : Order) :
  priceBefore type a b = false -> walksBefore type b a.
Proof.
  destruct type; cbn; intro H; apply Qle_bool_false_iff in H;
    apply Qlt_le_weak; exact H.
Qed.

Lemma walksBefore_trans (type : Side) (a b c : Order) :
  walksBefore type a b -> walksBefore type b c -> walksBefore type a c.
Proof.
  destruct type; cbn; intros H1 H2.
  - eapply Qle_trans; eassumption.
  - eapply Qle_trans; eassumption.
Qed.

Lemma insertByPrice_perm (type : Side) (x : Order) (l : list Order) :
  Permutation (insertByPrice type x l) (x :: l).
Proof.
  induction l as [|y l IH]; cbn [insertByPrice]; [reflexivity|].
  destruct (priceBefore type x y); [reflexivity|].
  rewrite IH. apply perm_swap.
Qed.

Lemma orderByPrice_perm (type : Side) (l : list Order) :
  Permutation (orderByPrice type l) l.
Proof.
  induction l as [|x l IH]; cbn; [constructor|].
  rewrite insertByPrice_perm. constructor. exact IH.
Qed.

Lemma insertByPrice_sorted (type : Side) (x : Order) (l : list Order) :
  StronglySorted (walksBefore type) l ->
  StronglySorted (walksBefore type) (insertByPrice type x l).
Proof.
  induction l as [|y l IH]; intro Hs; cbn [insertByPrice].
  - constructor; constructor.
  - inversion Hs as [|? ? Hs' Hall]. subst.
    destruct (priceBefore type x y) eqn:E.
    + apply priceBefore_iff in E. constructor; [exact Hs|].
      constructor; [exact E|].
      eapply Forall_impl; [|exact Hall].
      intros z Hz. eapply walksBefore_trans; eassumption.
    + apply priceBefore_total in E. constructor; [apply IH; exact Hs'|].
      apply (Permutation_Forall
               (Permutation_sym (insertByPrice_perm type x l))).
      constructor; assumption.
Qed.

Lemma orderByPrice_sorted (type : Side) (l : list Order) :
  StronglySorted (walksBefore type) (orderByPrice type l).
Proof.
  induction l as [|x l IH]; cbn; [constructor|].
  apply insertByPrice_sorted. exact IH.
Qed.

Lemma matchingOrders_spec (m oid : Id) (type : Side) (st : Store) :
  StronglySorted (walksBefore type) (matchingOrders m oid type st)
  /\ Permutation (matchingOrders m oid type st)
                 (filter (isOppositeOpen m oid type) (orders st)).
Proof.
  split; [apply orderByPrice_sorted | apply orderByPrice_perm].
Qed.

Lemma Side_neq_opposite (t : Side) : Side_eqb t (opposite t) = false.
Proof. destruct t; reflexivity. Qed.

(** The order just created is on the incoming side, so the candidates are
    those of the book before it. *)
Lemma matchingOrders_new (m oid : Id) (type : Side) (st : Store) (o : Order)
    (n : Id) :
  order_type o = type ->
  matchingOrders m oid type (with_nextId (with_orders st (orders st ++ [o])) n)
  = matchingOrders m oid type st.
Proof.
  intro Ht. unfold matchingOrders. cbn [orders with_orders with_nextId].
  rewrite filter_app. cbn [filter]. rewrite Ht, Side_neq_opposite.
  rewrite !andb_false_r. cbn [andb]. rewrite app_nil_r. reflexivity.
Qed.

Lemma plannedFills_In (candidates : list Order) :
  forall remaining x,
    In x (plannedFills candidates remaining) -> In (fst x) candidates.
Proof.
  induction candidates as [|mo rest IH]; intros remaining x H;
    cbn [plannedFills] in H; [destruct H|].
  destruct (Qle_bool remaining 0); [destruct H|].
  destruct (Qle_bool (order_amount mo - order_filled mo) 0).
  - right. eapply IH. exact H.
  - destruct H as [<- | H]; [left; reflexivity | right; eapply IH; exact H].
Qed.

(** Every planned fill is positive, at most the incoming remainder and at
    most the resting remainder. *)
Lemma plannedFills_amounts (candidates : list Order) :
  forall remaining x,
    In x (plannedFills candidates remaining) ->
    0 < snd x /\ snd x <= remaining
    /\ snd x <= order_amount (fst x) - order_filled (fst x).
Proof.
  induction candidates as [|mo rest IH]; intros remaining x H;
    cbn [plannedFills] in H; [destruct H|].
  destruct (Qle_bool remaining 0) eqn:Er; [destruct H|].
  apply Qle_bool_false_iff in Er.
  destruct (Qle_bool (order_amount mo - order_filled mo) 0) eqn:Ea.
  - eapply IH. exact H.
  - apply Qle_bool_false_iff in Ea.
    pose proof (mathMin_spec remaining (order_amount mo - order_filled mo))
      as [Hm1 Hm2].
    destruct H as [<- | H].
    + cbn [fst snd]. split; [|split; assumption].
      unfold mathMin. destruct (Qle_bool remaining _); assumption.
    + apply IH in H. destruct H as [H1 [H2 H3]].
      split; [exact H1|]. split; [|exact H3].
      assert (0 < mathMin remaining (order_amount mo - order_filled mo)).
      { unfold mathMin. destruct (Qle_bool remaining _); assumption. }
      lra.
Qed.

(** ** Placing an order *)

Lemma POST_orders_inv (caller : Id) (req : OrderRequest) (st st' : Store)
    (res : OrderResult) :
  POST_orders caller req st = Ok (st', res) ->
  exists user price,
    findUnique user_id caller (users st) = Some user
    /\ (oreq_type req = BUY -> oreq_amount req <= user_balance user)
    /\ orderTransaction user req price st = Ok (st', res).
Proof.
  unfold POST_orders. intro H.
  destruct (findUnique user_id caller (users st)) as [user|];
    [|discriminate H].
  destruct (negb (ltb 0 (oreq_amount req))); [discriminate H|].
  match type of H with
  | (if ?c then _ else _) = _ => destruct c; [discriminate H|]
  end.
  destruct (findUnique market_id (oreq_marketId req) (markets st))
    as [market|]; [|discriminate H].
  destruct (market_isResolved market); [discriminate H|].
  destruct (findOutcomeIn (oreq_outcomeId req) (oreq_marketId req) st)
    as [outcome|]; [|discriminate H].
  match type of H with
  | match ?c with Some _ => _ | None => _ end = _ =>
      destruct c as [price|]; [|discriminate H]
  end.
  exists user, price. split; [reflexivity|].
  destruct (oreq_type req).
  - destruct (ltb (user_balance user) (oreq_amount req)) eqn:Eb;
      [discriminate H|].
    apply ltb_false_iff in Eb. auto.
  - destruct (findHolding (user_id user) (oreq_outcomeId req) st)
      as [h|]; [|discriminate H].
    destruct (ltb (holding_quantity h) (oreq_amount req));
      [discriminate H|].
    split; [discriminate | exact H].
Qed.

(** A successful MARKET placement, table by table, in terms of the
    planned fills over the book as it was. *)
Lemma orderTransaction_market (user : User) (req : OrderRequest) (price : Q)
    (st st' : Store) (res : OrderResult) :
  oreq_orderType req = MARKET ->
  orderTransaction user req price st = Ok (st', res) ->
  let fills :=
    plannedFills
      (matchingOrders (oreq_marketId req) (oreq_outcomeId req)
                      (oreq_type req) st)
      (oreq_amount req) in
  let filled := totalFilled fills 0 in
  let status := finalStatus (oreq_amount req) filled in
  res = mkOrderResult
          (setFilledStatus (fun _ => filled) status
             (newOrder user req price st))
          (map (fun x => order_id (fst x)) fills)
          (Qle_bool (oreq_amount req) filled)
  /\ trades st'
     = trades st
       ++ flat_map (tradeRows (user_id user) (oreq_marketId req)
                      (oreq_outcomeId req) (oreq_type req)) fills
  /\ users st' = settle (user_id user) (oreq_type req) fills (users st)
  /\ orders st'
     = map (updAt order_id (nextId st)
              (setFilledStatus (fun _ => filled) status))
           (restingAfter fills
              (orders st ++ [newOrder user req price st])).
Proof.
  intros Hk H. unfold orderTransaction in H. rewrite Hk in H.
  rewrite matchingOrders_new in H by reflexivity.
  inv_res. destruct a as [[s f] mt]. inv_res.
  apply matchLoop_inv in E. cbv zeta in E.
  destruct E as [Ht [Hf [Hm [Hu Ho]]]].
  apply update_inv in E0. destruct E0 as [_ ->].
  cbn in Ht, Hu, Ho, Hm. subst f mt.
  cbv zeta. unfold finalStatus, newOrder.
  cbn [trades users orders with_orders order_id].
  rewrite Ht, Hu, Ho, Hk. repeat split; reflexivity.
Qed.

Lemma restingAfter_keeps (fills : list (Order * Q)) :
  forall (os : list Order) (r : Order),
    (forall x, In x fills -> order_id (fst x) <> order_id r) ->
    In r os -> In r (restingAfter fills os).
Proof.
  induction fills as [|x fills IH]; intros os r Hne Hin; [exact Hin|].
  cbn [restingAfter fold_left]. apply IH.
  - intros y Hy. apply Hne. right. exact Hy.
  - apply in_map_iff. exists r. split; [|exact Hin].
    unfold updAt.
    destruct (order_id r =? order_id (fst x))%nat eqn:E; [|reflexivity].
    apply Nat.eqb_eq in E. exfalso.
    apply (Hne x (or_introl eq_refl)). symmetry. exact E.
Qed.

Lemma matchingOrders_In (m oid : Id) (type : Side) (st : Store) (o : Order) :
  In o (matchingOrders m oid type st)
  <-> In o (orders st) /\ isOppositeOpen m oid type o = true.
Proof.
  destruct (matchingOrders_spec m oid type st) as [_ Hp].
  rewrite <- filter_In. split; intro H.
  - eapply Permutation_in; [exact Hp | exact H].
  - eapply Permutation_in; [apply Permutation_sym; exact Hp | exact H].
Qed.

(** * Market orders (C4) *)

(** C4, counterexample: Alice's MARKET BUY of 10 finds no seller and is
    left OPEN with nothing filled; Bob's MARKET SELL of 5 that follows is
    matched against it. *)
Lemma C4_open_market_order_is_matched : ~ market_remainder_never_rests.
Proof.
  intro H.
  destruct (POST_orders alice
              (mkOrderRequest theMarket 100%nat BUY MARKET 10 None)
              bobHolds40) as [[st1 res1]|] eqn:E1;
    [|vm_compute in E1; discriminate E1].
  destruct (POST_orders bob
              (mkOrderRequest theMarket 100%nat SELL MARKET 5 None)
              st1) as [[st2 res2]|] eqn:E2.
  - specialize (H bobHolds40 st1 st2 alice bob
                  (mkOrderRequest theMarket 100%nat BUY MARKET 10 None)
                  (mkOrderRequest theMarket 100%nat SELL MARKET 5 None)
                  res1 res2 eq_refl E1 E2).
    vm_compute in E1. inversion E1. subst st1 res1. clear E1.
    vm_compute in E2. inversion E2. subst st2 res2. clear E2.
    apply H. cbn. left. reflexivity.
  - vm_compute in E1. inversion E1. subst st1 res1. clear E1.
    vm_compute in E2. discriminate E2.
Qed.

(** The planned fills name each resting order once. *)
Lemma plannedFills_NoDup (candidates : list Order) :
  forall remaining,
    NoDup (map order_id candidates) ->
    NoDup (map (fun x => order_id (fst x))
               (plannedFills candidates remaining)).
Proof.
  induction candidates as [|c rest IH]; intros remaining Hnd.
  - constructor.
  - cbn [map] in Hnd. inversion Hnd as [|? ? Hnotin Hnd']. subst.
    cbn [plannedFills].
    destruct (Qle_bool remaining 0); [constructor|].
    destruct (Qle_bool (order_amount c - order_filled c) 0); [auto|].
    cbn [map fst]. constructor; [|auto].
    intro Hin. apply Hnotin. apply in_map_iff in Hin.
    destruct Hin as [x [Hk Hx]]. apply plannedFills_In in Hx.
    rewrite <- Hk. apply in_map. exact Hx.
Qed.

(** Every planned fill is written on its resting order. *)
Lemma restingAfter_filled (fills : list (Order * Q)) :
  forall os,
    NoDup (map (fun x => order_id (fst x)) fills) ->
    (forall x, In x fills -> In (fst x) os) ->
    forall x, In x fills -> In (afterFill x) (restingAfter fills os).
Proof.
  induction fills as [|y fills IH]; intros os Hnd Hin x Hx; [destruct Hx|].
  cbn [map] in Hnd. inversion Hnd as [|? ? Hnotin Hnd']. subst.
  cbn [restingAfter fold_left].
  change (fold_left _ fills ?l) with (restingAfter fills l).
  destruct Hx as [-> | Hx].
  - apply restingAfter_keeps.
    + intros z Hz. cbn [afterFill order_id]. intro Hk. apply Hnotin.
      rewrite <- Hk. apply (in_map (fun x0 => order_id (fst x0))). exact Hz.
    + apply in_map_iff. exists (fst x). split.
      * unfold updAt. rewrite Nat.eqb_refl. reflexivity.
      * apply Hin. left. reflexivity.
  - apply IH; [exact Hnd' | | exact Hx].
    intros z Hz. apply in_map_iff. exists (fst z). split.
    + unfold updAt.
      destruct (order_id (fst z) =? order_id (fst y))%nat eqn:E;
        [|reflexivity].
      apply Nat.eqb_eq in E. exfalso. apply Hnotin. rewrite <- E.
      apply (in_map (fun x0 => order_id (fst x0))). exact Hz.
    + apply Hin. right. exact Hz.
Qed.

Lemma In_map_updAt_other {A : Type} (key : A -> Id) (id : Id) (f : A -> A)
    (r : A) (l : list A) :
  key r <> id -> In r l -> In r (map (updAt key id f) l).
Proof.
  intros Hne Hin. apply in_map_iff. exists r. split; [|exact Hin].
  unfold updAt. apply Nat.eqb_neq in Hne. rewrite Hne. reflexivity.
Qed.

(** C4, amended.  A successful MARKET placement on a book whose order
    identifiers are distinct and differ from the one the new order takes,
    with whole-number amounts (JavaScript computes remainders and minima
    of whole numbers exactly), walks the OPEN orders of the opposite side
    for the same market and outcome, in ascending price for an incoming
    BUY and descending price for an incoming SELL; each match fills the
    smaller of the incoming remainder and the resting remainder, at the
    resting order's price, and writes two Trade rows; the resting order's
    [filled] grows by the fill and it becomes FILLED when the fill takes
    all that was left of it, and stays OPEN otherwise; orders that are not
    matched are left as they were; the incoming order is finalized FILLED
    when the filled total reaches its amount and OPEN with the partial
    filled total otherwise.  An order left OPEN stays in the book with its
    remainder: it is among the orders a later MARKET order of the opposite
    side walks. *)
Theorem C4_market_order_walk :
  forall (st st' : Store) (caller : Id) (req : OrderRequest)
         (res : OrderResult),
    oreq_orderType req = MARKET ->
    NoDup (map order_id (orders st)) ->
    (forall o, In o (orders st) -> order_id o <> nextId st) ->
    isWhole (oreq_amount req) ->
    (forall o, In o (orders st) ->
               isWhole (order_amount o) /\ isWhole (order_filled o)) ->
    POST_orders caller req st = Ok (st', res) ->
    let m := oreq_marketId req in
    let oid := oreq_outcomeId req in
    let type := oreq_type req in
    let candidates := matchingOrders m oid type st in
    let fills := plannedFills candidates (oreq_amount req) in
    let filled := totalFilled fills 0 in
    StronglySorted (walksBefore type) candidates
    /\ Permutation candidates (filter (isOppositeOpen m oid type) (orders st))
    /\ (forall x, In x fills ->
          0 < snd x
          /\ snd x <= order_amount (fst x) - order_filled (fst x))
    /\ trades st' = trades st ++ flat_map (tradeRows caller m oid type) fills
    /\ (forall x, In x fills -> In (afterFill x) (orders st'))
    /\ (forall o, In o (orders st) ->
          (forall x, In x fills -> order_id (fst x) <> order_id o) ->
          In o (orders st'))
    /\ result_matchedOrders res = map (fun x => order_id (fst x)) fills
    /\ order_filled (result_order res) = filled
    /\ order_status (result_order res)
       = (if Qle_bool (oreq_amount req) filled then FILLED else OPEN)
    /\ result_fullyFilled res = Qle_bool (oreq_amount req) filled
    /\ In (result_order res) (orders st')
    /\ (order_status (result_order res) = OPEN ->
        In (result_order res) (matchingOrders m oid (opposite type) st')).
Proof.
  intros st st' caller req res Hk Hnd Hfresh _ _ H
         m oid type candidates fills filled.
  apply POST_orders_inv in H. destruct H as [user [price [Hu [_ H]]]].
  apply findUnique_Some in Hu. destruct Hu as [_ Hcaller].
  apply (orderTransaction_market _ _ _ _ _ _ Hk) in H. cbv zeta in H.
  destruct H as [Hres [Ht [_ Ho]]].
  fold m oid type candidates fills filled in Hres, Ht, Ho.
  destruct (matchingOrders_spec m oid type st) as [Hsorted Hperm].
  assert (Hbook : forall x, In x fills -> In (fst x) (orders st)).
  { intros x Hx. apply plannedFills_In in Hx.
    apply matchingOrders_In in Hx. tauto. }
  assert (Hin : In (result_order res) (orders st')).
  { rewrite Ho, Hres. cbn [result_order].
    apply in_map_iff. exists (newOrder user req price st). split.
    - unfold updAt. cbn [newOrder order_id]. rewrite Nat.eqb_refl.
      reflexivity.
    - apply restingAfter_keeps.
      + intros x Hx. cbn [newOrder order_id].
        apply Hfresh. apply Hbook. exact Hx.
      + apply in_or_app. right. left. reflexivity. }
  assert (Hndf : NoDup (map (fun x => order_id (fst x)) fills)).
  { apply plannedFills_NoDup.
    apply (Permutation_NoDup
             (l := map order_id
                     (filter (isOppositeOpen m oid type) (orders st)))).
    - apply Permutation_map. apply Permutation_sym. exact Hperm.
    - apply NoDup_keys_filter. exact Hnd. }
  repeat split.
  - exact Hsorted.
  - exact Hperm.
  - apply (plannedFills_amounts _ _ _ H).
  - apply (plannedFills_amounts _ _ _ H).
  - rewrite Ht, Hcaller. reflexivity.
  - intros x Hx. rewrite Ho. apply In_map_updAt_other.
    + cbn [afterFill order_id]. apply Hfresh. apply Hbook. exact Hx.
    + apply restingAfter_filled; [exact Hndf | | exact Hx].
      intros y Hy. apply in_or_app. left. apply Hbook. exact Hy.
  - intros o Hin0 Hne. rewrite Ho. apply In_map_updAt_other.
    + apply Hfresh. exact Hin0.
    + apply restingAfter_keeps; [exact Hne|].
      apply in_or_app. left. exact Hin0.
  - rewrite Hres. reflexivity.
  - rewrite Hres. reflexivity.
  - rewrite Hres. reflexivity.
  - rewrite Hres. reflexivity.
  - exact Hin.
  - intro Hopen. apply matchingOrders_In. split; [exact Hin|].
    unfold isOppositeOpen. rewrite Hopen. rewrite Hres.
    cbn. unfold m, oid, type. rewrite !Nat.eqb_refl.
    destruct (oreq_type req); reflexivity.
Qed.

(** C4 on Alice's MARKET BUY of 100 against Bob's two asks of 40: both
    are matched and end FILLED with 40 filled, 80 is filled of the
    incoming order, which is left OPEN in the book. *)
Lemma C4_market_order_walk_witness :
  exists st' res,
    POST_orders alice (mkOrderRequest theMarket 100%nat BUY MARKET 100 None)
                twoAsks = Ok (st', res)
    /\ result_matchedOrders res = [103%nat; 104%nat]
    /\ (exists o, In o (orders st') /\ order_id o = 103%nat
                  /\ order_filled o == 40 /\ order_status o = FILLED)
    /\ (exists o, In o (orders st') /\ order_id o = 104%nat
                  /\ order_filled o == 40 /\ order_status o = FILLED)
    /\ order_filled (result_order res) == 80
    /\ order_status (result_order res) = OPEN
    /\ In (result_order res) (matchingOrders theMarket 100%nat SELL st').
Proof.
  destruct (POST_orders alice
              (mkOrderRequest theMarket 100%nat BUY MARKET 100 None) twoAsks)
    as [[st' res]|e] eqn:E.
  - exists st', res. split; [reflexivity|].
    assert (Hnd : NoDup (map order_id (orders twoAsks))).
    { vm_compute.
      repeat (constructor; [cbn; intuition discriminate|]). constructor. }
    assert (Hfresh : forall o, In o (orders twoAsks) ->
                               order_id o <> nextId twoAsks).
    { intros o Ho. vm_compute in Ho.
      destruct Ho as [<- | [<- | []]]; vm_compute; discriminate. }
    assert (Hw : isWhole 100).
    { split; [vm_compute; reflexivity | vm_compute; discriminate]. }
    assert (Hws : forall o, In o (orders twoAsks) ->
                            isWhole (order_amount o)
                            /\ isWhole (order_filled o)).
    { intros o Ho. vm_compute in Ho.
      destruct Ho as [<- | [<- | []]];
        (split;
         (split; [vm_compute; reflexivity | vm_compute; discriminate])). }
    pose proof (C4_market_order_walk twoAsks st' alice
                  (mkOrderRequest theMarket 100%nat BUY MARKET 100 None)
                  res eq_refl Hnd Hfresh Hw Hws E) as H.
    cbv zeta in H.
    destruct H as [_ [_ [_ [_ [Hrest [_ [Hm [Hf [Hs [_ [_ Hopen]]]]]]]]]]].
    assert (Hst : order_status (result_order res) = OPEN)
      by (rewrite Hs; vm_compute; reflexivity).
    split; [rewrite Hm; vm_compute; reflexivity|].
    split.
    { eexists. split; [apply Hrest; vm_compute; left; reflexivity|].
      split; [reflexivity|]. split; vm_compute; reflexivity. }
    split.
    { eexists. split; [apply Hrest; vm_compute; right; left; reflexivity|].
      split; [reflexivity|]. split; vm_compute; reflexivity. }
    split; [rewrite Hf; vm_compute; reflexivity|].
    split; [exact Hst|].
    exact (Hopen Hst).
  - exfalso. vm_compute in E. discriminate E.
Defined.

(** * Holdings stay non-negative (C8) *)

(** C8, failing input: Bob holds 40 shares and has two resting LIMIT SELL
    orders of 40 shares each (both passed the share check, nothing is
    reserved); Alice places a MARKET BUY of 80.  Both resting orders are
    filled and Bob's holding is decremented twice, to -40. *)
Theorem C8_resting_seller_goes_negative :
  option_map holding_quantity (findHolding bob 100%nat twoAsks) = Some 40
  /\ exists st' res h,
       POST_orders alice (mkOrderRequest theMarket 100%nat BUY MARKET 80 None)
                   twoAsks = Ok (st', res)
       /\ result_matchedOrders res = [103%nat; 104%nat]
       /\ findHolding bob 100%nat st' = Some h
       /\ holding_quantity h == - (40)
       /\ holding_quantity h < 0.
Proof.
  split; [vm_compute; reflexivity|].
  eexists. eexists. eexists.
  split; [vm_compute; reflexivity|].
  split; [vm_compute; reflexivity|].
  split; [vm_compute; reflexivity|].
  split; vm_compute; reflexivity.
Qed.

(** * Cancellation refunds (C5) *)

(** C5, failing input: the administrator cancels Alice's OPEN BUY order
    (amount 100, filled 30).  The refund of 70 and the ORDER_CANCEL_REFUND
    row go to the administrator, the caller; Alice, the owner, gets
    nothing.  When Alice cancels herself she gets the 70, and a second
    cancel by anyone fails with AlreadyClosed. *)
Theorem C5_admin_cancel_refunds_the_admin :
  findUnique order_id 103%nat (orders partlyFilledLimitBuy)
  = Some (mkOrder 103%nat alice theMarket 100%nat BUY LIMIT 100 0.5 30 OPEN)
  /\ (exists st',
        DELETE_order admin 103%nat partlyFilledLimitBuy = Ok st'
        /\ balance alice st' == balance alice partlyFilledLimitBuy
        /\ balance admin st' == balance admin partlyFilledLimitBuy + 70
        /\ transactions st'
           = transactions partlyFilledLimitBuy
             ++ [mkTransaction admin (100 - 30) ORDER_CANCEL_REFUND None]
        /\ DELETE_order admin 103%nat st' = Fail AlreadyClosed)
  /\ (exists st',
        DELETE_order alice 103%nat partlyFilledLimitBuy = Ok st'
        /\ balance alice st' == balance alice partlyFilledLimitBuy + 70
        /\ DELETE_order alice 103%nat st' = Fail AlreadyClosed).
Proof.
  split; [vm_compute; reflexivity|]. split.
  - eexists. split; [vm_compute; reflexivity|].
    repeat split; vm_compute; reflexivity.
  - eexists. split; [vm_compute; reflexivity|].
    repeat split; vm_compute; reflexivity.
Qed.

(** * Refund of a MARKET BUY that reserved nothing (C10) *)

Lemma balanceIn_credit_known (u c : Id) (d : Q) (us : list User) :
  In u (map user_id us) ->
  balanceIn u (map (updAt user_id c (setBalance (fun b => b + d))) us)
  == balanceIn u us + (if (u =? c)%nat then d else 0).
Proof.
  intro Hin. unfold balanceIn.
  rewrite (findUnique_updAt user_id) by reflexivity.
  destruct (findUnique user_id u us) as [x|] eqn:E; cbn [option_map].
  - apply findUnique_Some in E. destruct E as [_ Hk].
    unfold updAt. rewrite Hk.
    destruct (u =? c)%nat; cbn [setBalance user_balance]; ring.
  - apply findUnique_None in E. contradiction.
Qed.

Lemma balanceIn_settle (u taker : Id) (type : Side)
    (fills : list (Order * Q)) :
  forall us,
    In u (map user_id us) ->
    balanceIn u (settle taker type fills us)
    == balanceIn u us + netFlow u taker type fills.
Proof.
  induction fills as [|x fills IH]; intros us Hin.
  - cbn. ring.
  - change (settle taker type (x :: fills) us)
      with (settle taker type fills
              (map (updAt user_id (order_userId (fst x))
                      (setBalance
                         (fun b => b + cashFlow type false
                                         (snd x * order_price (fst x)))))
                 (map (updAt user_id taker
                         (setBalance
                            (fun b => b + cashFlow type true
                                            (snd x * order_price (fst x)))))
                      us))).
    rewrite IH by (rewrite !keys_credit; exact Hin).
    rewrite balanceIn_credit_known by (rewrite keys_credit; exact Hin).
    rewrite balanceIn_credit_known by exact Hin.
    unfold netFlow, sumQ. cbn [map fold_right]. cbv beta zeta. ring.
Qed.

Lemma netFlow_buyer (u : Id) (fills : list (Order * Q)) :
  netFlow u u BUY fills == - costOfFills u fills.
Proof.
  unfold netFlow, costOfFills.
  unfold sumQ.
  induction fills as [|x fills IH]; cbn [map fold_right]; [ring|].
  rewrite IH. cbv beta zeta. rewrite Nat.eqb_refl.
  rewrite (Nat.eqb_sym u). cbn [cashFlow].
  destruct (order_userId (fst x) =? u)%nat; ring.
Qed.

(** Placing a BUY order: a LIMIT order debits the whole amount as a
    reservation, a MARKET order only the fills it gets. *)
Lemma POST_orders_buy_debit (caller : Id) (req : OrderRequest)
    (st st' : Store) (res : OrderResult) :
  oreq_type req = BUY ->
  POST_orders caller req st = Ok (st', res) ->
  match oreq_orderType req with
  | LIMIT => balance caller st' == balance caller st - oreq_amount req
  | MARKET =>
      balance caller st'
      == balance caller st
         - costOfFills caller
             (plannedFills
                (matchingOrders (oreq_marketId req) (oreq_outcomeId req)
                                BUY st)
                (oreq_amount req))
  end.
Proof.
  intros Ht H. apply POST_orders_inv in H.
  destruct H as [user [price [Hu [_ H]]]].
  pose proof (findUnique_key_In user_id _ _ _ Hu) as Hin.
  apply findUnique_Some in Hu. destruct Hu as [_ Hcaller]. subst caller.
  destruct (oreq_orderType req) eqn:Hk.
  - unfold orderTransaction in H. rewrite Hk, Ht in H. inv_res.
    apply incrementBalance_inv in E0. destruct E0 as [_ ->].
    unfold balance. cbn.
    rewrite balanceIn_credit_known by exact Hin.
    rewrite Nat.eqb_refl. ring.
  - apply (orderTransaction_market _ _ _ _ _ _ Hk) in H. cbv zeta in H.
    destruct H as [_ [_ [Husers _]]].
    unfold balance. rewrite Husers, Ht.
    rewrite balanceIn_settle by exact Hin.
    rewrite netFlow_buyer. ring.
Qed.

(** C10.  Cancelling an OPEN BUY order with an unfilled remainder credits
    amount - filled to the caller whatever the order's orderType; placing
    a LIMIT BUY debits the whole amount, placing a MARKET BUY debits only
    fillAmount * price for each fill (fills against the owner's own
    resting orders net to nothing); and there is a MARKET BUY, left OPEN
    after a partial fill, whose owner ends, after placing and cancelling
    it, with strictly more than the balance the fills alone leave: the
    refund of amount - filled was never reserved. *)
Theorem C10_unreserved_market_buy_refund :
  (forall (caller id : Id) (st st' : Store) (order : Order),
      findUnique order_id id (orders st) = Some order ->
      order_type order = BUY ->
      0 < order_amount order - order_filled order ->
      DELETE_order caller id st = Ok st' ->
      balance caller st'
      == balance caller st + (order_amount order - order_filled order))
  /\ (forall (caller : Id) (req : OrderRequest) (st st' : Store)
             (res : OrderResult),
        oreq_type req = BUY ->
        POST_orders caller req st = Ok (st', res) ->
        match oreq_orderType req with
        | LIMIT => balance caller st' == balance caller st - oreq_amount req
        | MARKET =>
            balance caller st'
            == balance caller st
               - costOfFills caller
                   (plannedFills
                      (matchingOrders (oreq_marketId req)
                                      (oreq_outcomeId req) BUY st)
                      (oreq_amount req))
        end)
  /\ (exists (st st1 st2 : Store) (owner : Id) (req : OrderRequest)
             (res : OrderResult),
        oreq_type req = BUY /\ oreq_orderType req = MARKET
        /\ POST_orders owner req st = Ok (st1, res)
        /\ order_status (result_order res) = OPEN
        /\ 0 < order_filled (result_order res)
        /\ order_filled (result_order res) < order_amount (result_order res)
        /\ DELETE_order owner (order_id (result_order res)) st1 = Ok st2
        /\ balance owner st1 == balance owner st - 52
        /\ balance owner st2 == balance owner st - 52 + 20
        /\ balance owner st1 < balance owner st2).
Proof.
  split; [|split].
  - intros caller id st st' order Ho Ht Hpos H.
    destruct (cancel_effect caller id st st' order Ho H) as [_ [Hbuy _]].
    destruct (Hbuy Ht Hpos) as [Hb _].
    rewrite (Hb caller), Nat.eqb_refl. reflexivity.
  - exact POST_orders_buy_debit.
  - exists twoAsks. eexists. eexists. exists alice.
    exists (mkOrderRequest theMarket 100%nat BUY MARKET 100 None).
    eexists.
    split; [reflexivity|]. split; [reflexivity|].
    split; [vm_compute; reflexivity|].
    split; [reflexivity|].
    split; [vm_compute; reflexivity|].
    split; [vm_compute; reflexivity|].
    split; [vm_compute; reflexivity|].
    repeat split; vm_compute; reflexivity.
Qed.

(** C10 on Alice's MARKET BUY of 100 against Bob's two asks, then her
    cancel. *)
Lemma C10_unreserved_market_buy_refund_witness :
  exists st1 res st2,
    POST_orders alice (mkOrderRequest theMarket 100%nat BUY MARKET 100 None)
                twoAsks = Ok (st1, res)
    /\ DELETE_order alice (order_id (result_order res)) st1 = Ok st2
    /\ balance alice st1
       == balance alice twoAsks
          - costOfFills alice
              (plannedFills (matchingOrders theMarket 100%nat BUY twoAsks) 100)
    /\ balance alice st2
       == balance alice st1
          + (order_amount (result_order res) - order_filled (result_order res)).
Proof.
  destruct (POST_orders alice
              (mkOrderRequest theMarket 100%nat BUY MARKET 100 None) twoAsks)
    as [[st1 res]|e] eqn:E1; [|exfalso; vm_compute in E1; discriminate E1].
  destruct (DELETE_order alice (order_id (result_order res)) st1)
    as [st2|e] eqn:E2.
  - exists st1, res, st2.
    split; [reflexivity|]. split; [exact E2|]. split.
    + exact (proj1 (proj2 C10_unreserved_market_buy_refund)
               alice (mkOrderRequest theMarket 100%nat BUY MARKET 100 None)
               twoAsks st1 res eq_refl E1).
    + refine (proj1 C10_unreserved_market_buy_refund
                alice _ st1 st2 (result_order res) _ _ _ E2);
        vm_compute in E1; inversion E1; subst st1 res;
        vm_compute; reflexivity.
  - exfalso. vm_compute in E1. inversion E1. subst st1 res.
    vm_compute in E2. discriminate E2.
Defined.

(** * Market resolution (C3) *)

Lemma applyCredits_app (cs1 cs2 : list (Id * Q)) (us : list User) :
  applyCredits (cs1 ++ cs2) us = applyCredits cs2 (applyCredits cs1 us).
Proof. unfold applyCredits. apply fold_left_app. Qed.

Lemma keys_applyCredits (cs : list (Id * Q)) :
  forall us, map user_id (applyCredits cs us) = map user_id us.
Proof.
  induction cs as [|c cs IH]; intro us; [reflexivity|].
  cbn [applyCredits fold_left]. fold (applyCredits cs).
  rewrite IH. apply keys_credit.
Qed.

Lemma balanceIn_applyCredits (u : Id) (cs : list (Id * Q)) :
  forall us,
    In u (map user_id us) ->
    balanceIn u (applyCredits cs us) == balanceIn u us + creditTo u cs.
Proof.
  induction cs as [|c cs IH]; intros us Hin.
  - cbn. ring.
  - change (applyCredits (c :: cs) us)
      with (applyCredits cs
              (map (updAt user_id (fst c)
                      (setBalance (fun b => b + snd c))) us)).
    rewrite IH by (rewrite keys_credit; exact Hin).
    rewrite balanceIn_credit_known by exact Hin.
    unfold creditTo, sumQ. cbn [map fold_right].
    symmetry. apply Qplus_assoc.
Qed.

Lemma isAdmin_applyCredits (u : Id) (cs : list (Id * Q)) :
  forall us x,
    findUnique user_id u us = Some x ->
    exists x',
      findUnique user_id u (applyCredits cs us) = Some x'
      /\ user_isAdmin x' = user_isAdmin x.
Proof.
  induction cs as [|c cs IH]; intros us x H.
  - exists x. auto.
  - change (applyCredits (c :: cs) us)
      with (applyCredits cs
              (map (updAt user_id (fst c)
                      (setBalance (fun b => b + snd c))) us)).
    destruct (IH (map (updAt user_id (fst c)
                         (setBalance (fun b => b + snd c))) us)
                 (updAt user_id (fst c) (setBalance (fun b => b + snd c)) x))
      as [x' [Hx' Ha]].
    + rewrite (findUnique_updAt user_id) by reflexivity.
      rewrite H. reflexivity.
    + exists x'. split; [exact Hx'|]. rewrite Ha. unfold updAt.
      destruct (user_id x =? fst c)%nat; reflexivity.
Qed.

(** The payout loop over any list of holdings whose rows and holders
    exist: it succeeds, zeroes the rows of positive quantity, pays and
    logs the winning ones, and leaves the other tables alone. *)
Lemma payHoldings_spec (win : Id) (hs : list UserOutcome) :
  forall st,
    NoDup (map holding_id hs) ->
    incl (map holding_id hs) (map holding_id (holdings st)) ->
    (forall h, In h hs -> In (holding_userId h) (map user_id (users st))) ->
    exists st',
      payHoldings win hs st = Ok st'
      /\ holdings st'
         = map (touch holding_id
                  (filter (fun h => ltb 0 (holding_quantity h)) hs)
                  (fun _ r => setQuantity (fun _ => 0) r))
               (holdings st)
      /\ users st'
         = applyCredits (map payoutCredit (filter (isPaid win) hs)) (users st)
      /\ transactions st'
         = transactions st ++ map payoutRow (filter (isPaid win) hs)
      /\ markets st' = markets st /\ outcomes st' = outcomes st
      /\ orders st' = orders st /\ trades st' = trades st.
Proof.
  induction hs as [|h hs IH]; intros st Hnd Hincl Husers.
  - exists st. cbn. rewrite touch_nil, app_nil_r. repeat split; reflexivity.
  - cbn [map] in Hnd. inversion Hnd as [|? ? Hnotin Hnd']. subst.
    assert (Hid : In (holding_id h) (map holding_id (holdings st)))
      by (apply Hincl; left; reflexivity).
    assert (Hincl' : incl (map holding_id hs) (map holding_id (holdings st)))
      by (intros i Hi; apply Hincl; right; exact Hi).
    cbn [payHoldings].
    destruct (Qle_bool (holding_quantity h) 0) eqn:Eq.
    + (* continue *)
      assert (Hp : ltb 0 (holding_quantity h) = false)
        by (unfold ltb; rewrite Eq; reflexivity).
      assert (Hpaid : isPaid win h = false)
        by (unfold isPaid; rewrite Hp; reflexivity).
      cbn [filter]. rewrite Hp, Hpaid.
      destruct (IH st Hnd' Hincl' (fun x Hx => Husers x (or_intror Hx)))
        as [st' [Hrun Hrest]].
      exists st'. split; [exact Hrun | exact Hrest].
    + assert (Hp : ltb 0 (holding_quantity h) = true)
        by (unfold ltb; rewrite Eq; reflexivity).
      assert (Hpaid : isPaid win h = (holding_outcomeId h =? win)%nat)
        by (unfold isPaid; rewrite Hp; reflexivity).
      cbn [filter]. rewrite Hp, Hpaid.
      destruct (holding_outcomeId h =? win)%nat eqn:Ew.
      * (* winner *)
        rewrite incrementBalance_Ok
          by (apply Husers; left; reflexivity).
        cbn [bind]. rewrite (update_Ok holding_id) by exact Hid.
        cbn [bind].
        match goal with
        | |- context [payHoldings win hs ?s] =>
            destruct (IH s Hnd') as [st' [Hrun Hrest]]
        end.
        { cbn. rewrite (keys_updAt holding_id) by reflexivity. exact Hincl'. }
        { intros x Hx. cbn. rewrite keys_credit.
          apply Husers. right. exact Hx. }
        exists st'. split; [exact Hrun|].
        destruct Hrest as [Hh [Hu [Ht [Hm [Ho [Hor Htr]]]]]].
        cbn in Hh, Hu, Ht, Hm, Ho, Hor, Htr.
        rewrite Hh, Hu, Ht, Hm, Ho, Hor, Htr.
        rewrite (touch_cons holding_id h _
                   (fun _ r => setQuantity (fun _ => 0) r));
          [|reflexivity|].
        -- cbn [map app]. rewrite <- app_assoc.
           repeat split; reflexivity.
        -- intro Hin. apply Hnotin. apply keys_filter_incl in Hin. exact Hin.
      * (* loser *)
        cbn [bind]. rewrite (update_Ok holding_id) by exact Hid.
        cbn [bind].
        match goal with
        | |- context [payHoldings win hs ?s] =>
            destruct (IH s Hnd') as [st' [Hrun Hrest]]
        end.
        { cbn. rewrite (keys_updAt holding_id) by reflexivity. exact Hincl'. }
        { intros x Hx. cbn. apply Husers. right. exact Hx. }
        exists st'. split; [exact Hrun|].
        destruct Hrest as [Hh [Hu [Ht [Hm [Ho [Hor Htr]]]]]].
        cbn in Hh, Hu, Ht, Hm, Ho, Hor, Htr.
        rewrite Hh, Hu, Ht, Hm, Ho, Hor, Htr.
        rewrite (touch_cons holding_id h _
                   (fun _ r => setQuantity (fun _ => 0) r));
          [|reflexivity|].
        -- repeat split; reflexivity.
        -- intro Hin. apply Hnotin. apply keys_filter_incl in Hin. exact Hin.
Qed.

(** The cancel loop over any list of orders whose rows and owners exist:
    it succeeds, marks every row CANCELLED, refunds and logs the BUY
    orders with a remainder, and leaves the other tables alone. *)
Lemma cancelOpenOrders_spec (os : list Order) :
  forall st,
    NoDup (map order_id os) ->
    incl (map order_id os) (map order_id (orders st)) ->
    (forall o, In o os -> In (order_userId o) (map user_id (users st))) ->
    exists st',
      cancelOpenOrders os st = Ok st'
      /\ orders st'
         = map (touch order_id os (fun _ r => setStatus CANCELLED r))
               (orders st)
      /\ users st'
         = applyCredits (map refundCredit (filter isRefunded os)) (users st)
      /\ transactions st'
         = transactions st ++ map refundRow (filter isRefunded os)
      /\ markets st' = markets st /\ outcomes st' = outcomes st
      /\ holdings st' = holdings st /\ trades st' = trades st.
Proof.
  induction os as [|o os IH]; intros st Hnd Hincl Husers.
  - exists st. cbn. rewrite touch_nil, app_nil_r. repeat split; reflexivity.
  - cbn [map] in Hnd. inversion Hnd as [|? ? Hnotin Hnd']. subst.
    assert (Hid : In (order_id o) (map order_id (orders st)))
      by (apply Hincl; left; reflexivity).
    assert (Hincl' : incl (map order_id os) (map order_id (orders st)))
      by (intros i Hi; apply Hincl; right; exact Hi).
    cbn [cancelOpenOrders filter].
    destruct (order_type o) eqn:Et.
    + destruct (ltb 0 (order_amount o - order_filled o)) eqn:Er.
      * assert (Hr : isRefunded o = true)
          by (unfold isRefunded; rewrite Et, Er; reflexivity).
        rewrite Hr.
        rewrite incrementBalance_Ok by (apply Husers; left; reflexivity).
        cbn [bind]. rewrite (update_Ok order_id) by exact Hid.
        cbn [bind].
        match goal with
        | |- context [cancelOpenOrders os ?s] =>
            destruct (IH s Hnd') as [st' [Hrun Hrest]]
        end.
        { cbn. rewrite (keys_updAt order_id) by reflexivity. exact Hincl'. }
        { intros x Hx. cbn. rewrite keys_credit.
          apply Husers. right. exact Hx. }
        exists st'. split; [exact Hrun|].
        destruct Hrest as [Ho [Hu [Ht [Hm [Hoc [Hh Htr]]]]]].
        cbn in Ho, Hu, Ht, Hm, Hoc, Hh, Htr.
        rewrite Ho, Hu, Ht, Hm, Hoc, Hh, Htr.
        rewrite (touch_cons order_id o _ (fun _ r => setStatus CANCELLED r));
          [|reflexivity | exact Hnotin].
        cbn [map app]. rewrite <- app_assoc. repeat split; reflexivity.
      * assert (Hr : isRefunded o = false)
          by (unfold isRefunded; rewrite Et, Er; reflexivity).
        rewrite Hr.
        cbn [bind]. rewrite (update_Ok order_id) by exact Hid.
        cbn [bind].
        match goal with
        | |- context [cancelOpenOrders os ?s] =>
            destruct (IH s Hnd') as [st' [Hrun Hrest]]
        end.
        { cbn. rewrite (keys_updAt order_id) by reflexivity. exact Hincl'. }
        { intros x Hx. cbn. apply Husers. right. exact Hx. }
        exists st'. split; [exact Hrun|].
        destruct Hrest as [Ho [Hu [Ht [Hm [Hoc [Hh Htr]]]]]].
        cbn in Ho, Hu, Ht, Hm, Hoc, Hh, Htr.
        rewrite Ho, Hu, Ht, Hm, Hoc, Hh, Htr.
        rewrite (touch_cons order_id o _ (fun _ r => setStatus CANCELLED r));
          [|reflexivity | exact Hnotin].
        repeat split; reflexivity.
    + assert (Hr : isRefunded o = false)
        by (unfold isRefunded; rewrite Et; reflexivity).
      rewrite Hr.
      cbn [bind]. rewrite (update_Ok order_id) by exact Hid.
      cbn [bind].
      match goal with
      | |- context [cancelOpenOrders os ?s] =>
          destruct (IH s Hnd') as [st' [Hrun Hrest]]
      end.
      { cbn. rewrite (keys_updAt order_id) by reflexivity. exact Hincl'. }
      { intros x Hx. cbn. apply Husers. right. exact Hx. }
      exists st'. split; [exact Hrun|].
      destruct Hrest as [Ho [Hu [Ht [Hm [Hoc [Hh Htr]]]]]].
      cbn in Ho, Hu, Ht, Hm, Hoc, Hh, Htr.
      rewrite Ho, Hu, Ht, Hm, Hoc, Hh, Htr.
      rewrite (touch_cons order_id o _ (fun _ r => setStatus CANCELLED r));
        [|reflexivity | exact Hnotin].
      repeat split; reflexivity.
Qed.

Lemma existsb_map_same {A : Type} (p : A -> bool) (g : A -> A) (l : list A) :
  (forall r, p (g r) = p r) -> existsb p (map g l) = existsb p l.
Proof.
  intro H. induction l as [|x l IH]; [reflexivity|].
  cbn [map existsb]. rewrite H, IH. reflexivity.
Qed.

(** The resolution transaction on a store with referential integrity. *)
Lemma resolveTransaction_spec (id win : Id) (st : Store) :
  In id (map market_id (markets st)) ->
  In win (map outcome_id (outcomes st)) ->
  NoDup (map holding_id (holdings st)) ->
  NoDup (map order_id (orders st)) ->
  (forall h, In h (holdings st) ->
             In (holding_userId h) (map user_id (users st))) ->
  (forall o, In o (orders st) ->
             In (order_userId o) (map user_id (users st))) ->
  exists st',
    resolveTransaction id win st = Ok st'
    /\ users st'
       = applyCredits
           (map payoutCredit (filter (isPaid win) (holdingsOfMarket id st))
            ++ map refundCredit
                 (filter isRefunded (openOrdersOfMarket id st)))
           (users st)
    /\ transactions st'
       = transactions st
         ++ map payoutRow (filter (isPaid win) (holdingsOfMarket id st))
         ++ map refundRow (filter isRefunded (openOrdersOfMarket id st))
    /\ holdings st'
       = map (fun h => if isSettled id st h
                       then setQuantity (fun _ => 0) h else h)
             (holdings st)
    /\ orders st'
       = map (fun o => if isOpenIn id o then setStatus CANCELLED o else o)
             (orders st)
    /\ markets st'
       = map (updAt market_id id
                (fun m => mkMarket (market_id m) (market_volume m) true
                                   (Some win)))
             (markets st).
Proof.
  intros Hm Hw HndH HndO HuH HuO. unfold resolveTransaction.
  rewrite (update_Ok market_id) by exact Hm. cbn [bind].
  cbn [outcomes with_markets].
  rewrite (update_Ok outcome_id) by exact Hw. cbn [bind].
  set (st1 := with_outcomes _ _).
  assert (Hhold : holdingsOfMarket id st1 = holdingsOfMarket id st).
  { unfold holdingsOfMarket, st1. cbn [outcomes holdings with_outcomes
      with_markets]. apply filter_ext. intro h. f_equal.
    apply existsb_map_same. intro r. unfold updAt.
    destruct (outcome_id r =? win)%nat; reflexivity. }
  destruct (payHoldings_spec win (holdingsOfMarket id st1) st1)
    as [st2 [Hrun2 [Hh2 [Hu2 [Ht2 [Hm2 [Hoc2 [Ho2 Htr2]]]]]]]].
  { rewrite Hhold. apply NoDup_keys_filter. exact HndH. }
  { rewrite Hhold. apply keys_filter_incl. }
  { rewrite Hhold. intros h Hh. apply filter_In in Hh. apply HuH. tauto. }
  rewrite Hrun2. cbn [bind].
  assert (Hopen : openOrdersOfMarket id st2 = openOrdersOfMarket id st).
  { unfold openOrdersOfMarket. rewrite Ho2. reflexivity. }
  destruct (cancelOpenOrders_spec (openOrdersOfMarket id st2) st2)
    as [st3 [Hrun3 [Ho3 [Hu3 [Ht3 [Hm3 [Hoc3 [Hh3 Htr3]]]]]]]].
  { rewrite Hopen. apply NoDup_keys_filter. exact HndO. }
  { rewrite Hopen, Ho2. apply keys_filter_incl. }
  { rewrite Hopen, Hu2, keys_applyCredits.
    intros o Ho. apply filter_In in Ho. apply HuO. tauto. }
  exists st3. split; [exact Hrun3|].
  rewrite Hu3, Hu2, Ht3, Ht2, Hh3, Hh2, Ho3, Ho2, Hm3, Hm2, Hopen, Hhold.
  unfold st1. cbn [users transactions holdings orders markets with_outcomes
    with_markets].
  split; [rewrite applyCredits_app; reflexivity|].
  split; [rewrite app_assoc; reflexivity|].
  split; [|split; [|reflexivity]].
  - unfold holdingsOfMarket. rewrite filter_filter_and.
    rewrite (touch_filter holding_id) by exact HndH.
    apply map_ext. intro h. unfold isSettled.
    destruct (existsb _ (outcomes st)); cbn [andb]; [|reflexivity].
    destruct (ltb 0 (holding_quantity h)); reflexivity.
  - unfold openOrdersOfMarket.
    rewrite (touch_filter order_id) by exact HndO. reflexivity.
Qed.

Lemma creditTo_app (u : Id) (cs1 cs2 : list (Id * Q)) :
  creditTo u (cs1 ++ cs2) == creditTo u cs1 + creditTo u cs2.
Proof.
  unfold creditTo, sumQ. induction cs1 as [|c cs1 IH]; cbn [app map fold_right].
  - symmetry. apply Qplus_0_l.
  - rewrite IH. apply Qplus_assoc.
Qed.

(** C3.  On a store with referential integrity (row identifiers distinct,
    holders and order owners registered) in which every OPEN order has an
    unfilled remainder, an administrator resolving an unresolved market to
    one of its outcomes succeeds and
    - every user's balance grows by the quantities of that user's positive
      holdings of the winning outcome (nothing for losing holdings) plus
      amount - filled of that user's OPEN BUY orders in the market;
    - the ledger gains one MARKET_RESOLUTION_PAYOUT row of [quantity] per
      winning holding, then one ORDER_REFUND row of [amount - filled] per
      OPEN BUY order;
    - every positive holding of the market has its quantity set to zero,
      the other holdings are untouched: no holding of an outcome of the
      market is left with a positive quantity;
    - every OPEN order of the market has its status set to CANCELLED, the
      other orders are untouched: no order of the market is left OPEN;
    - the market is resolved to the winning outcome, and a further
      resolution request fails with AlreadyResolved (a failure carries no
      store: nothing is written). *)
Theorem C3_resolution_settles_the_market :
  forall (st : Store) (caller id win : Id) (user : User) (market : Market),
    findUnique user_id caller (users st) = Some user ->
    user_isAdmin user = true ->
    findUnique market_id id (markets st) = Some market ->
    market_isResolved market = false ->
    findOutcomeIn win id st <> None ->
    NoDup (map holding_id (holdings st)) ->
    NoDup (map order_id (orders st)) ->
    (forall h, In h (holdings st) ->
               In (holding_userId h) (map user_id (users st))) ->
    (forall o, In o (orders st) ->
               In (order_userId o) (map user_id (users st))) ->
    (forall o, In o (orders st) -> order_status o = OPEN ->
               order_filled o < order_amount o) ->
    exists st',
      PATCH_market caller id (Some win) st = Ok st'
      /\ (forall u,
            In u (map user_id (users st)) ->
            balance u st'
            == balance u st
               + creditTo u (map payoutCredit (winningHoldings id win st))
               + creditTo u (map refundCredit (openBuyOrders id st)))
      /\ transactions st'
         = transactions st
           ++ map payoutRow (winningHoldings id win st)
           ++ map refundRow (openBuyOrders id st)
      /\ holdings st'
         = map (fun h =>
                  if isSettled id st h
                  then mkUserOutcome (holding_id h) (holding_userId h)
                                     (holding_outcomeId h) 0
                                     (holding_avgPrice h)
                  else h)
               (holdings st)
      /\ (forall h, In h (holdings st') ->
            In (holding_outcomeId h)
               (map outcome_id
                    (filter (fun o => (outcome_marketId o =? id)%nat)
                            (outcomes st))) ->
            holding_quantity h <= 0)
      /\ orders st'
         = map (fun o =>
                  if isOpenIn id o
                  then mkOrder (order_id o) (order_userId o)
                               (order_marketId o) (order_outcomeId o)
                               (order_type o) (order_orderType o)
                               (order_amount o) (order_price o)
                               (order_filled o) CANCELLED
                  else o)
               (orders st)
      /\ (forall o, In o (orders st') -> order_marketId o = id ->
            order_status o <> OPEN)
      /\ (exists market',
             findUnique market_id id (markets st') = Some market'
             /\ market_isResolved market' = true
             /\ market_resolvedOutcomeId market' = Some win)
      /\ (forall again, PATCH_market caller id again st' = Fail AlreadyResolved).
Proof.
  intros st caller id win user market Hu Hadmin Hm Hopen Hwin HndH HndO
         HuH HuO Hrem.
  destruct (findOutcomeIn win id st) as [o|] eqn:Eo; [|congruence].
  clear Hwin.
  assert (HwIn : In win (map outcome_id (outcomes st))).
  { apply findOutcomeIn_Some in Eo. destruct Eo as [Hin [Hid _]].
    rewrite <- Hid. apply in_map. exact Hin. }
  destruct (resolveTransaction_spec id win st
              (findUnique_key_In market_id _ _ _ Hm) HwIn HndH HndO HuH HuO)
    as [st' [Hrun [Husers [Htx [Hh [Ho Hmk]]]]]].
  assert (Hpaid : filter (isPaid win) (holdingsOfMarket id st)
                  = winningHoldings id win st).
  { unfold winningHoldings. apply filter_ext_in. intros h Hin.
    unfold holdingsOfMarket in Hin. apply filter_In in Hin.
    destruct Hin as [_ Hq]. apply andb_true_iff in Hq.
    unfold isPaid. destruct Hq as [_ ->]. reflexivity. }
  assert (Hrefund : filter isRefunded (openOrdersOfMarket id st)
                    = openBuyOrders id st).
  { unfold openBuyOrders. apply filter_ext_in. intros x Hin.
    unfold openOrdersOfMarket in Hin. apply filter_In in Hin.
    destruct Hin as [Hin Hq]. apply andb_true_iff in Hq.
    destruct Hq as [_ Hs].
    assert (Hst : order_status x = OPEN)
      by (destruct (order_status x); cbn in Hs; congruence).
    pose proof (Hrem x Hin Hst) as Hlt.
    unfold isRefunded.
    assert (ltb 0 (order_amount x - order_filled x) = true) as ->
      by (apply ltb_true_iff; lra).
    apply andb_true_r. }
  rewrite Hpaid, Hrefund in Husers, Htx.
  exists st'. split.
  { unfold PATCH_market. rewrite Hu, Hm, Hadmin, Hopen, Eo. exact Hrun. }
  split.
  { intros u Hin. unfold balance. rewrite Husers.
    rewrite balanceIn_applyCredits by exact Hin.
    rewrite creditTo_app. ring. }
  split; [exact Htx|]. split; [exact Hh|]. split.
  { intros h Hin Hmarket. rewrite Hh in Hin. apply in_map_iff in Hin.
    destruct Hin as [h0 [Heq Hin0]].
    destruct (isSettled id st h0) eqn:Es.
    - subst h. cbn [holding_quantity]. apply Qle_refl.
    - subst h. unfold isSettled in Es. apply andb_false_iff in Es.
      destruct Es as [Es | Es].
      + exfalso. apply in_map_iff in Hmarket.
        destruct Hmarket as [x [Hx Hxin]]. apply filter_In in Hxin.
        destruct Hxin as [Hxin Hxm].
        assert (Ht : existsb
                       (fun o0 => (outcome_id o0 =? holding_outcomeId h0)%nat
                                  && (outcome_marketId o0 =? id)%nat)
                       (outcomes st) = true).
        { apply existsb_exists. exists x. split; [exact Hxin|].
          rewrite Hx, Nat.eqb_refl, Hxm. reflexivity. }
        congruence.
      + apply ltb_false_iff. exact Es. }
  split; [exact Ho|]. split.
  { intros x Hin Hmarket. rewrite Ho in Hin. apply in_map_iff in Hin.
    destruct Hin as [x0 [Heq Hin0]].
    destruct (isOpenIn id x0) eqn:Es.
    - subst x. cbn [order_status]. discriminate.
    - subst x. unfold isOpenIn in Es. rewrite Hmarket, Nat.eqb_refl in Es.
      cbn [andb] in Es. intro Hs. rewrite Hs in Es. discriminate Es. }
  split.
  { rewrite Hmk. rewrite (findUnique_updAt market_id) by reflexivity.
    rewrite Hm. cbn [option_map]. eexists. split; [reflexivity|].
    unfold updAt. apply findUnique_Some in Hm. destruct Hm as [_ Hk].
    rewrite Hk, Nat.eqb_refl. split; reflexivity. }
  intro again. unfold PATCH_market.
  destruct (isAdmin_applyCredits caller
              (map payoutCredit (winningHoldings id win st)
               ++ map refundCredit (openBuyOrders id st))
              (users st) user Hu) as [user' [Hu' Ha']].
  rewrite Husers, Hu'. rewrite Hmk.
  rewrite (findUnique_updAt market_id) by reflexivity.
  rewrite Hm. cbn [option_map]. rewrite Ha', Hadmin. cbn [negb].
  unfold updAt. apply findUnique_Some in Hm. destruct Hm as [_ Hk].
  rewrite Hk, Nat.eqb_refl. reflexivity.
Qed.

(** C3 on the scenario of the specification, scaled: Bob holds 40 shares
    of the winner, Alice 25 of the loser and an OPEN LIMIT BUY of 100
    (order 104), which ends CANCELLED. *)
Lemma C3_resolution_witness :
  holds bob 100%nat beforeResolution 40
  /\ holds alice 101%nat beforeResolution 25
  /\ option_map order_status
       (findUnique order_id 104%nat (orders beforeResolution)) = Some OPEN
  /\ exists st',
       PATCH_market admin theMarket (Some 100%nat) beforeResolution = Ok st'
       /\ balance bob st' == balance bob beforeResolution + 40
       /\ balance alice st' == balance alice beforeResolution + 0 + 100
       /\ holds bob 100%nat st' 0
       /\ holds alice 101%nat st' 0
       /\ option_map order_status (findUnique order_id 104%nat (orders st'))
          = Some CANCELLED
       /\ PATCH_market admin theMarket (Some 101%nat) st'
          = Fail AlreadyResolved.
Proof.
  split; [eexists; split; vm_compute; reflexivity|].
  split; [eexists; split; vm_compute; reflexivity|].
  split; [vm_compute; reflexivity|].
  destruct (C3_resolution_settles_the_market beforeResolution admin theMarket
              100%nat (mkUser admin 1000 true)
              (mkMarket theMarket (20 + 0.25) false None))
    as [st' [Hrun [Hbal [_ [Hh [_ [Ho [_ [_ Hagain]]]]]]]]].
  - vm_compute. reflexivity.
  - reflexivity.
  - vm_compute. reflexivity.
  - reflexivity.
  - vm_compute. discriminate.
  - vm_compute.
    repeat (constructor; [cbn; intuition discriminate|]). constructor.
  - vm_compute.
    repeat (constructor; [cbn; intuition discriminate|]). constructor.
  - intros h Hh. vm_compute in Hh.
    destruct Hh as [<- | [<- | []]]; vm_compute; tauto.
  - intros o Ho. vm_compute in Ho.
    destruct Ho as [<- | []]; vm_compute; tauto.
  - intros o Ho _. vm_compute in Ho.
    destruct Ho as [<- | []]; vm_compute; reflexivity.
  - exists st'. split; [exact Hrun|].
    split.
    { rewrite (Hbal bob) by (vm_compute; tauto). vm_compute. reflexivity. }
    split.
    { rewrite (Hbal alice) by (vm_compute; tauto). vm_compute. reflexivity. }
    split.
    { unfold holds, findHolding. rewrite Hh.
      eexists. split; vm_compute; reflexivity. }
    split.
    { unfold holds, findHolding. rewrite Hh.
      eexists. split; vm_compute; reflexivity. }
    split; [rewrite Ho; vm_compute; reflexivity|].
    apply Hagain.
Defined.

(** * Disposing shares (C7) *)

(** The SELL branch of the trade route's holdings step: the sufficiency
    check has passed and [h] is the holding.  The row is decremented in
    place (never removed), the average price stays, and the profit/loss
    is the shares sold times (trade price - average price). *)
Lemma applyHoldings_sell (user : User) (outcome : Outcome)
    (req : TradeRequest) (h : UserOutcome) (st st' : Store) (pl : Q) :
  treq_type req = SELL ->
  applyHoldings user outcome req (Some h) st = Ok (st', pl) ->
  exists sharesToSell,
    (if treq_isSharesMode req then sharesToSell = treq_amount req
     else sharesToSell * outcome_probability outcome == treq_amount req)
    /\ holdings st'
       = map (updAt holding_id (holding_id h)
                (setQuantity (fun q => q - sharesToSell))) (holdings st)
    /\ pl == sharesToSell
             * (outcome_probability outcome - holding_avgPrice h).
Proof.
  intros Ht H. unfold applyHoldings in H. rewrite Ht in H. inv_res.
  apply update_inv in E0. destruct E0 as [_ ->].
  exists a. split; [|split; [reflexivity|]].
  - destruct (treq_isSharesMode req).
    + inversion E. reflexivity.
    + unfold divide in E.
      destruct (Qeq_bool (outcome_probability outcome) 0) eqn:Ez;
        [discriminate E|].
      inversion E. field. intro Hq. apply Qeq_bool_iff in Hq. congruence.
  - destruct (treq_isSharesMode req).
    + inversion E. ring.
    + unfold divide in E.
      destruct (Qeq_bool (outcome_probability outcome) 0) eqn:Ez;
        [discriminate E|].
      inversion E. field. intro Hq. apply Qeq_bool_iff in Hq. congruence.
Qed.

(** C7, failing input: Bob holds 40 shares of outcome 100 (average price
    0.5, current price 0.99) and sells all 40 through the trade route
    ([isSharesMode] on).  The sale succeeds, the ledger row carries the
    profit/loss 40 * (0.99 - 0.5) = 19.6, but the holding row is kept with
    quantity 0 instead of being deleted.  The position-aware copy of the
    route, on the same request, deletes the row. *)
Theorem C7_full_sell_keeps_an_empty_holding :
  holds bob 100%nat bobHolds40 40
  /\ (exists st',
        POST_trades bob (mkTradeRequest theMarket 100%nat 40 SELL true)
                    bobHolds40 = Ok st'
        /\ holds bob 100%nat st' 0
        /\ exists t pl,
             last (transactions st') (mkTransaction 0%nat 0 TRADE None) = t
             /\ txn_type t = TRADE_SELL
             /\ txn_metadata t = Some pl
             /\ pl == 40 * (0.99 - 0.5))
  /\ (exists st',
        POST_trades_position bob
          (mkPositionTradeRequest theMarket 100%nat 40 SELL YES true)
          bobHolds40 = Ok st'
        /\ findHolding bob 100%nat st' = None).
Proof.
  split; [eexists; split; vm_compute; reflexivity|]. split.
  - eexists. split; [vm_compute; reflexivity|].
    split; [eexists; split; vm_compute; reflexivity|].
    eexists. eexists. split; [vm_compute; reflexivity|].
    repeat split; vm_compute; reflexivity.
  - eexists. split; vm_compute; reflexivity.
Qed.

(** * Further properties of the engine *)

(** ** Rounding to four decimals: the grid of ten-thousandths *)

Lemma Qfloor_grid (k : Z) : Qfloor (inject_Z k / 10000 * 10000 + (1 # 2)) = k.
Proof.
  assert (H : inject_Z k / 10000 * 10000 + (1 # 2) == inject_Z k + (1 # 2))
    by field.
  rewrite (Qfloor_comp _ _ H).
  pose proof (Qfloor_le (inject_Z k + (1 # 2))) as Hlo.
  pose proof (Qlt_floor (inject_Z k + (1 # 2))) as Hhi.
  remember (Qfloor (inject_Z k + (1 # 2))) as n eqn:En. clear En H.
  rewrite inject_Z_plus in Hhi. change (inject_Z 1) with 1 in Hhi.
  remember (inject_Z k) as a eqn:Ea. remember (inject_Z n) as b eqn:Eb.
  assert (H1 : b < a + 1) by lra.
  assert (H2 : a < b + 1) by lra.
  subst a b.
  change 1 with (inject_Z 1) in H1, H2. rewrite <- inject_Z_plus in H1, H2.
  rewrite <- Zlt_Qlt in H1, H2. lia.
Qed.

Lemma toFixed4_grid (k : Z) : toFixed4 (inject_Z k / 10000) == inject_Z k / 10000.
Proof.
  unfold toFixed4. destruct (ltb (inject_Z k / 10000) 0) eqn:E;
    rewrite Qred_correct.
  - assert (H : - (inject_Z k / 10000) == inject_Z (- k) / 10000)
      by (rewrite inject_Z_opp; field).
    assert (Hf : Qfloor (- (inject_Z k / 10000) * 10000 + (1 # 2)) = (- k)%Z).
    { rewrite <- (Qfloor_grid (- k)). apply Qfloor_comp. rewrite H.
      reflexivity. }
    rewrite Hf, inject_Z_opp. field.
  - rewrite Qfloor_grid. reflexivity.
Qed.

(** What is left of one after a four-decimal number is a four-decimal
    number: rounding it changes nothing. *)
Lemma toFixed4_complement (x : Q) : toFixed4 (1 - toFixed4 x) == 1 - toFixed4 x.
Proof.
  destruct (toFixed4_on_grid x) as [k Hk].
  assert (H : 1 - toFixed4 x == inject_Z (10000 - k) / 10000).
  { rewrite Hk. unfold Z.sub. rewrite inject_Z_plus, inject_Z_opp.
    change (inject_Z 10000) with 10000. field. }
  rewrite (toFixed4_comp _ _ H). rewrite toFixed4_grid. symmetry. exact H.
Qed.

(** Rows of a table with distinct identifiers are told apart by them. *)
Lemma same_key_eq {A : Type} (key : A -> Id) (l : list A) (a b : A) :
  NoDup (map key l) -> In a l -> In b l -> key a = key b -> a = b.
Proof.
  intros Hnd Ha Hb Hk.
  pose proof (findUnique_NoDup key l a Hnd Ha) as Fa.
  pose proof (findUnique_NoDup key l b Hnd Hb) as Fb.
  rewrite Hk in Fa. congruence.
Qed.

(** ** Markets with two outcomes *)

(** The sum and the bounds after [redistribute] writes a clamped, rounded
    probability on a market of exactly two outcomes: the sibling gets the
    exact complement. *)
Lemma redistribute_binary (m oid : Id) (c : Q) (st st' : Store) :
  NoDup (map outcome_id (outcomes st)) ->
  outcomeCount m st = 2%nat ->
  In oid (map outcome_id
            (filter (fun o => (outcome_marketId o =? m)%nat) (outcomes st))) ->
  0.01 <= c -> c <= 0.99 ->
  redistribute m oid (toFixed4 c) st = Ok st' ->
  probabilitySum m st' == 1
  /\ (forall o, In o (outcomes st') -> outcome_marketId o = m ->
        0.01 <= outcome_probability o /\ outcome_probability o <= 0.99)
  /\ (forall o, In o (outcomes st') -> outcome_marketId o = m ->
        outcome_id o <> oid ->
        outcome_probability o == 1 - toFixed4 c).
Proof.
  intros Hnd Hcount Hin Hlo Hhi H.
  assert (Hc2 : (2 <= outcomeCount m st)%nat) by lia.
  destruct (redistribute_inv m oid (toFixed4 c) st st' Hnd Hc2 H)
    as [Hz [_ ->]].
  set (newP := toFixed4 c) in *.
  set (total := totalOtherProbability m oid st) in *.
  set (s := (1 - newP) / total).
  set (L := filter (fun o => (outcome_marketId o =? m)%nat) (outcomes st)) in *.
  assert (HndL : NoDup (map outcome_id L))
    by (apply NoDup_keys_filter; exact Hnd).
  pose proof (length_others outcome_id oid L HndL Hin) as Hlen.
  unfold outcomeCount in Hcount. fold L in Hcount. rewrite Hcount in Hlen.
  set (others := filter (fun o => negb (outcome_id o =? oid)%nat) L) in *.
  destruct others as [|b [|b' rest]] eqn:Eothers; cbn [length] in Hlen;
    try discriminate Hlen.
  assert (Htotal : total == outcome_probability b).
  { unfold total, totalOtherProbability. fold L. fold others.
    rewrite Eothers. cbn [fold_left]. ring. }
  assert (Hnz : ~ total == 0).
  { intro Hq. apply Qeq_bool_iff in Hq. congruence. }
  assert (Hsib : toFixed4 (outcome_probability b * s) == 1 - newP).
  { assert (Hx : outcome_probability b * s == 1 - newP).
    { unfold s. rewrite <- Htotal. field. exact Hnz. }
    rewrite (toFixed4_comp _ _ Hx). apply toFixed4_complement. }
  destruct (toFixed4_clamped c Hlo Hhi) as [Hplo Phi]. fold newP in Hplo, Phi.
  assert (Hrow : forall o, In o (outcomes st) -> outcome_marketId o = m ->
            outcome_id o <> oid ->
            outcome_probability (rescaled m oid newP s o) == 1 - newP).
  { intros o Ho Hm Hne. unfold rescaled.
    apply Nat.eqb_neq in Hne. rewrite Hne.
    rewrite Hm, Nat.eqb_refl. cbn [setProbability outcome_probability].
    assert (Hob : In o others).
    { unfold others, L. apply filter_In. split.
      - apply filter_In. split; [exact Ho|]. apply Nat.eqb_eq. exact Hm.
      - rewrite Hne. reflexivity. }
    rewrite Eothers in Hob. destruct Hob as [<- | []]. exact Hsib. }
  split; [|split].
  - unfold probabilitySum. cbn [outcomes with_outcomes].
    rewrite filter_map_comm
      by (intro x; rewrite rescaled_marketId; reflexivity).
    fold L.
    rewrite (sum_rescaled m oid newP s L HndL).
    2:{ intros o Ho. apply filter_In in Ho. destruct Ho as [_ Ho].
        apply Nat.eqb_eq in Ho. exact Ho. }
    assert (Hk : hasKey outcome_id oid L = true)
      by (apply hasKey_In; exact Hin).
    rewrite Hk. fold others. rewrite Eothers.
    cbn [map sumQ fold_right]. rewrite Hsib. ring.
  - intros o Ho Hm. cbn [outcomes with_outcomes] in Ho.
    apply in_map_iff in Ho. destruct Ho as [o0 [<- Ho0]].
    rewrite rescaled_marketId in Hm.
    destruct (Nat.eq_dec (outcome_id o0) oid) as [Heq | Hne].
    + unfold rescaled. apply Nat.eqb_eq in Heq. rewrite Heq.
      cbn [setProbability outcome_probability]. auto.
    + rewrite (Hrow o0 Ho0 Hm Hne). split; lra.
  - intros o Ho Hm Hne. cbn [outcomes with_outcomes] in Ho.
    apply in_map_iff in Ho. destruct Ho as [o0 [<- Ho0]].
    rewrite rescaled_marketId in Hm. rewrite rescaled_id in Hne.
    apply Hrow; assumption.
Qed.

Lemma newProbabilityFor_clamped (type : Side) (p a v : Q) :
  exists c, newProbabilityFor type p a v = toFixed4 c
            /\ 0.01 <= c /\ c <= 0.99.
Proof.
  unfold newProbabilityFor. eexists. split; [reflexivity|]. split.
  - apply mathMax_spec.
  - unfold mathMax, mathMin.
    repeat match goal with
    | |- context [Qle_bool ?x ?y] =>
        let E := fresh "E" in
        destruct (Qle_bool x y) eqn:E;
        [apply Qle_bool_iff in E | apply Qle_bool_false_iff in E]
    end; lra.
Qed.

(** What a successful request on the trade route went through. *)
Lemma POST_trades_inv (caller : Id) (req : TradeRequest) (st st' : Store) :
  POST_trades caller req st = Ok st' ->
  exists user market outcome,
    findUnique user_id caller (users st) = Some user
    /\ 0 < treq_amount req
    /\ findUnique market_id (treq_marketId req) (markets st) = Some market
    /\ market_isResolved market = false
    /\ findOutcomeIn (treq_outcomeId req) (treq_marketId req) st = Some outcome
    /\ (treq_type req = BUY -> treq_amount req <= user_balance user)
    /\ tradeTransaction user market outcome req st = Ok st'.
Proof.
  unfold POST_trades. intro H.
  destruct (findUnique user_id caller (users st)) as [user|];
    [|discriminate H].
  destruct (negb (ltb 0 (treq_amount req))) eqn:Ea; [discriminate H|].
  destruct (findUnique market_id (treq_marketId req) (markets st))
    as [market|]; [|discriminate H].
  destruct (market_isResolved market) eqn:Er; [discriminate H|].
  destruct (findOutcomeIn (treq_outcomeId req) (treq_marketId req) st)
    as [outcome|]; [|discriminate H].
  destruct (Side_eqb (treq_type req) BUY
            && ltb (user_balance user) (treq_amount req)) eqn:Eb;
    [discriminate H|].
  exists user, market, outcome.
  split; [reflexivity|]. split.
  { apply negb_false_iff in Ea. apply ltb_true_iff in Ea. exact Ea. }
  split; [reflexivity|]. split; [exact Er|]. split; [reflexivity|].
  split; [|exact H].
  intro Ht. rewrite Ht in Eb. cbn [Side_eqb andb] in Eb.
  apply ltb_false_iff in Eb. exact Eb.
Qed.

(** X1.  On a market with exactly two outcomes (with distinct
    identifiers) the probabilities add up to one exactly after every
    successful trade of the trade route and after every fill of the order
    route, and both lie between 0.01 and 0.99: the sibling of the traded
    outcome gets the exact complement of the new probability. *)
Theorem binary_market_sums_to_one :
  forall (st : Store) (m oid : Id),
    NoDup (map outcome_id (outcomes st)) ->
    outcomeCount m st = 2%nat ->
    (forall (caller : Id) (req : TradeRequest) (st' : Store),
        treq_marketId req = m -> treq_outcomeId req = oid ->
        POST_trades caller req st = Ok st' ->
        probabilitySum m st' == 1
        /\ (forall o, In o (outcomes st') -> outcome_marketId o = m ->
              0.01 <= outcome_probability o /\ outcome_probability o <= 0.99))
    /\ (forall (u : Id) (type : Side) (mo : Order) (avail fill : Q)
               (st' : Store),
        findOutcomeIn oid m st <> None ->
        fillAgainst u m oid type mo avail fill st = Ok st' ->
        probabilitySum m st' == 1
        /\ (forall o, In o (outcomes st') -> outcome_marketId o = m ->
              0.01 <= outcome_probability o /\ outcome_probability o <= 0.99)).
Proof.
  intros st m oid Hnd Hcount. split.
  - intros caller req st' Hm Ho H.
    apply POST_trades_inv in H.
    destruct H as [user [market [outcome [_ [_ [_ [_ [Eo [_ H]]]]]]]]].
    apply tradeTransaction_inv in H.
    destruct H as [st1 [Hout [_ [_ Hred]]]].
    rewrite Hm, Ho in *.
    destruct (newProbabilityFor_clamped (treq_type req)
                (outcome_probability outcome) (treq_amount req)
                (market_volume market)) as [c [Hc [Hlo Hhi]]].
    rewrite Hc in Hred.
    destruct (redistribute_binary m oid c st1 st') as [Hs [Hb _]];
      try assumption.
    + rewrite Hout. exact Hnd.
    + unfold outcomeCount. rewrite Hout. exact Hcount.
    + rewrite Hout. apply (findOutcomeIn_market _ _ _ _ Eo).
    + split; assumption.
  - intros u type mo avail fill st' Hin H.
    apply fillAgainst_inv in H.
    destruct H as [st1 [Hup [Hout _]]].
    apply updateProbabilities_inv in Hup.
    destruct Hup as [outcome [market [_ [_ Hred]]]].
    destruct (newProbabilityFor_clamped type
                (outcome_probability outcome) fill
                (market_volume market)) as [c [Hc [Hlo Hhi]]].
    rewrite Hc in Hred.
    destruct (redistribute_binary m oid c st1 st') as [Hs [Hb _]];
      try assumption.
    + rewrite Hout. exact Hnd.
    + unfold outcomeCount. rewrite Hout. exact Hcount.
    + rewrite Hout.
      destruct (findOutcomeIn oid m st) as [o|] eqn:Eo; [|congruence].
      apply (findOutcomeIn_market _ _ _ _ Eo).
    + split; assumption.
Qed.

(** The two-outcome market after a BUY of 3 on its first outcome. *)
Lemma binary_market_sums_to_one_witness :
  exists st',
    POST_trades alice (mkTradeRequest theMarket 100%nat 3 BUY false)
                (freshMarket 2) = Ok st'
    /\ probabilitySum theMarket st' == 1.
Proof.
  eexists. split.
  - vm_compute. reflexivity.
  - refine (proj1 (proj1 (binary_market_sums_to_one
                            (freshMarket 2) theMarket 100%nat _ _)
                         alice
                         (mkTradeRequest theMarket 100%nat 3 BUY false)
                         _ eq_refl eq_refl _)).
    + vm_compute.
      repeat (constructor; [cbn; intuition discriminate|]). constructor.
    + vm_compute. reflexivity.
    + vm_compute. reflexivity.
Defined.

(** ** The trade route, table by table *)

Lemma find_app_none {A : Type} (p : A -> bool) (l l' : list A) :
  find p l = None -> find p (l ++ l') = find p l'.
Proof.
  induction l as [|x l IH]; [reflexivity|].
  cbn [find app]. destruct (p x); [discriminate | exact IH].
Qed.

Lemma find_app_some {A : Type} (p : A -> bool) (l l' : list A) (a : A) :
  find p l = Some a -> find p (l ++ l') = Some a.
Proof.
  induction l as [|x l IH]; [discriminate|].
  cbn [find app]. destruct (p x); [auto | exact IH].
Qed.

(** Updating by identifier with a function that keeps what a search looks
    at: the search finds the same row, updated. *)
Lemma find_map_updAt {A : Type} (key : A -> Id) (p : A -> bool) (id : Id)
    (f : A -> A) (l : list A) :
  (forall r, p (f r) = p r) ->
  find p (map (updAt key id f) l) = option_map (updAt key id f) (find p l).
Proof.
  intro Hp. induction l as [|x l IH]; [reflexivity|].
  cbn [map find].
  assert (Hx : p (updAt key id f x) = p x)
    by (unfold updAt; destruct (key x =? id)%nat; auto).
  rewrite Hx. destruct (p x); [reflexivity | exact IH].
Qed.

(** Everything a successful trade transaction writes. *)
Lemma tradeTransaction_effect (user : User) (market : Market)
    (outcome : Outcome) (req : TradeRequest) (st st' : Store) :
  tradeTransaction user market outcome req st = Ok st' ->
  exists uh st1 pl,
    checkShares user outcome req st = Ok uh
    /\ applyHoldings user outcome req uh
         (createTrade (mkTrade (user_id user) (treq_marketId req)
                         (treq_outcomeId req) (treq_amount req)
                         (outcome_probability outcome) (treq_type req)) st)
       = Ok (st1, pl)
    /\ holdings st' = holdings st1
    /\ In (user_id user) (map user_id (users st))
    /\ users st'
       = map (updAt user_id (user_id user)
                (setBalance (fun b => b + tradeCash req outcome))) (users st)
    /\ orders st' = orders st
    /\ trades st'
       = trades st ++ [mkTrade (user_id user) (treq_marketId req)
                         (treq_outcomeId req) (treq_amount req)
                         (outcome_probability outcome) (treq_type req)]
    /\ transactions st'
       = transactions st ++ [tradeLedgerRow user outcome req pl]
    /\ markets st'
       = map (updAt market_id (treq_marketId req)
                (setVolume (fun v => v + treq_amount req))) (markets st).
Proof.
  unfold tradeTransaction. intro H. inv_res.
  destruct a0 as [s pl]. cbn [fst snd] in *.
  exists a, s, pl. split; [reflexivity|]. split; [exact E0|].
  apply applyHoldings_frame in E0.
  destruct E0 as [Hu [Hm [Ho [Hor [Htr Htx]]]]].
  assert (Hbal :
    incrementBalance (user_id user) (tradeCash req outcome) s = Ok a1).
  { unfold applyBalance in E1. unfold tradeCash.
    destruct (treq_type req); exact E1. }
  apply incrementBalance_inv in Hbal.
  destruct Hbal as [Hin ->].
  apply incrementVolume_inv in E2. destruct E2 as [_ ->].
  apply redistribute_frame in H. destruct H as [tbl ->].
  cbn in *. rewrite Hu in *. rewrite Hm, Hor, Htr, Htx.
  repeat split; try reflexivity. exact Hin.
Qed.

(** The holding of the buyer after the "BUY" branch: the shares bought
    are the amount at the probability read before the trade, the cost
    basis grows by the amount. *)
Lemma applyHoldings_buy (user : User) (outcome : Outcome)
    (req : TradeRequest) (uh : option UserOutcome) (st st' : Store) (pl : Q) :
  treq_type req = BUY ->
  applyHoldings user outcome req uh st = Ok (st', pl) ->
  exists shares,
    shares * outcome_probability outcome == treq_amount req
    /\ ~ outcome_probability outcome == 0
    /\ quantityHeld (user_id user) (treq_outcomeId req) st'
       == quantityHeld (user_id user) (treq_outcomeId req) st + shares
    /\ costBasisHeld (user_id user) (treq_outcomeId req) st'
       == costBasisHeld (user_id user) (treq_outcomeId req) st
          + treq_amount req
    /\ findHolding (user_id user) (treq_outcomeId req) st' <> None.
Proof.
  intros Ht H. unfold applyHoldings in H. rewrite Ht in H.
  unfold divide at 1 in H.
  destruct (Qeq_bool (outcome_probability outcome) 0) eqn:Ep;
    cbn [bind] in H; [discriminate H|].
  assert (Hp : ~ outcome_probability outcome == 0).
  { intro Hq. apply Qeq_bool_iff in Hq. congruence. }
  exists (treq_amount req / outcome_probability outcome).
  split; [field; exact Hp|]. split; [exact Hp|].
  unfold quantityHeld, costBasisHeld.
  destruct (findHolding (user_id user) (treq_outcomeId req) st) as [h|] eqn:F.
  - unfold divide in H.
    destruct (Qeq_bool (holding_quantity h
                        + treq_amount req / outcome_probability outcome) 0)
      eqn:Eq; cbn [bind] in H; [discriminate H|].
    assert (Hq : ~ holding_quantity h
                   + treq_amount req / outcome_probability outcome == 0).
    { intro Hq. apply Qeq_bool_iff in Hq. congruence. }
    inv_res. apply update_inv in E. destruct E as [_ ->].
    unfold findHolding in *. cbn [holdings with_holdings].
    rewrite (find_map_updAt holding_id) by reflexivity.
    rewrite F. cbn [option_map].
    apply find_some in F. destruct F as [_ F].
    unfold updAt. rewrite Nat.eqb_refl.
    cbn [setPosition holding_quantity holding_avgPrice].
    split; [reflexivity|]. split; [|discriminate].
    apply Qmult_div_r. exact Hq.
  - inv_res. unfold findHolding in *.
    cbn [createHolding holdings with_holdings with_nextId].
    rewrite (find_app_none _ _ _ F). cbn [find].
    cbn [holding_userId holding_outcomeId]. rewrite !Nat.eqb_refl.
    cbn [andb holding_quantity holding_avgPrice].
    split; [ring|]. split; [|discriminate]. field. exact Hp.
Qed.

Lemma balance_of_found (caller : Id) (user : User) (st : Store) :
  findUnique user_id caller (users st) = Some user ->
  balance caller st = user_balance user /\ user_id user = caller.
Proof.
  intro F. unfold balance, balanceIn. rewrite F. split; [reflexivity|].
  apply (findUnique_Some user_id) in F. tauto.
Qed.

(** X2.  A successful BUY on the trade route takes exactly the amount
    from the caller's balance, which stays non-negative; the caller's
    position in the outcome grows by the shares the amount buys at the
    probability read before the trade, and its cost basis (quantity times
    average price) grows by exactly the amount. *)
Theorem trade_buy_effect :
  forall (caller : Id) (req : TradeRequest) (st st' : Store)
         (outcome : Outcome),
    treq_type req = BUY ->
    findOutcomeIn (treq_outcomeId req) (treq_marketId req) st = Some outcome ->
    POST_trades caller req st = Ok st' ->
    balance caller st' == balance caller st - treq_amount req
    /\ 0 <= balance caller st'
    /\ exists shares,
         shares * outcome_probability outcome == treq_amount req
         /\ quantityHeld caller (treq_outcomeId req) st'
            == quantityHeld caller (treq_outcomeId req) st + shares
         /\ costBasisHeld caller (treq_outcomeId req) st'
            == costBasisHeld caller (treq_outcomeId req) st + treq_amount req.
Proof.
  intros caller req st st' outcome Ht Fo H.
  apply POST_trades_inv in H.
  destruct H as [user [market [o [Fu [Hpos [_ [_ [Fo' [Hbal H]]]]]]]]].
  rewrite Fo in Fo'. inversion Fo'. subst o. clear Fo'.
  destruct (balance_of_found caller user st Fu) as [Hb Hid].
  apply tradeTransaction_effect in H.
  destruct H as [uh [st1 [pl [_ [Hh [Hhs [Hin [Hus _]]]]]]]].
  assert (Hbal' : balance caller st' == balance caller st - treq_amount req).
  { unfold balance. rewrite Hus, Hid.
    rewrite balanceIn_credit by (rewrite <- Hid; exact Hin).
    rewrite Nat.eqb_refl. unfold tradeCash. rewrite Ht. ring. }
  split; [exact Hbal'|]. split.
  - rewrite Hbal', Hb. specialize (Hbal Ht). lra.
  - destruct (applyHoldings_buy user outcome req uh _ st1 pl Ht Hh)
      as [shares [Hs [_ [Hq [Hc _]]]]].
    exists shares. split; [exact Hs|].
    unfold quantityHeld, costBasisHeld, findHolding in *.
    rewrite Hhs, <- Hid. cbn [holdings createTrade with_trades] in Hq, Hc.
    split; assumption.
Qed.

(** Bob's BUY of 20 on a fresh two-outcome market. *)
Lemma trade_buy_effect_witness :
  exists st',
    POST_trades bob (mkTradeRequest theMarket 100%nat 20 BUY false)
                (freshMarket 2) = Ok st'
    /\ balance bob st' == balance bob (freshMarket 2) - 20
    /\ costBasisHeld bob 100%nat st'
       == costBasisHeld bob 100%nat (freshMarket 2) + 20.
Proof.
  destruct (POST_trades bob (mkTradeRequest theMarket 100%nat 20 BUY false)
              (freshMarket 2)) as [st'|] eqn:E;
    [|exfalso; vm_compute in E; discriminate E].
  exists st'. split; [reflexivity|].
  assert (Fo : findOutcomeIn 100%nat theMarket (freshMarket 2)
               = Some (mkOutcome 100%nat theMarket
                         (1 / inject_Z (Z.of_nat 2)) false))
    by (vm_compute; reflexivity).
  destruct (trade_buy_effect bob
              (mkTradeRequest theMarket 100%nat 20 BUY false)
              (freshMarket 2) st' _ eq_refl Fo E)
    as [Hb [_ [shares [_ [_ Hc]]]]].
  split; [exact Hb | exact Hc].
Defined.

(** The holding of the seller after the "SELL" branch. *)
Lemma checkShares_sell (user : User) (outcome : Outcome) (req : TradeRequest)
    (st : Store) (uh : option UserOutcome) :
  treq_type req = SELL ->
  checkShares user outcome req st = Ok uh ->
  exists h shares,
    uh = Some h
    /\ findHolding (user_id user) (treq_outcomeId req) st = Some h
    /\ (if treq_isSharesMode req then Ok (treq_amount req)
        else divide (treq_amount req) (outcome_probability outcome))
       = Ok shares
    /\ shares <= holding_quantity h.
Proof.
  intros Ht H. unfold checkShares in H. rewrite Ht in H.
  destruct (findUnique outcome_id (treq_outcomeId req) (outcomes st));
    [|discriminate H].
  inv_res.
  destruct (findHolding (user_id user) (treq_outcomeId req) st) as [h|];
    [|discriminate H].
  destruct (ltb (holding_quantity h) a) eqn:El; [discriminate H|].
  inversion H. subst uh. exists h, a.
  repeat split; try reflexivity. apply ltb_false_iff. exact El.
Qed.

Lemma divide_Ok (a b q : Q) : divide a b = Ok q -> ~ b == 0 /\ q = a / b.
Proof.
  unfold divide. destruct (Qeq_bool b 0) eqn:E; [discriminate|].
  intro H. inversion H. split; [|reflexivity].
  intro Hq. apply Qeq_bool_iff in Hq. congruence.
Qed.

(** X3.  A successful SELL on the trade route: the shares sold are the
    amount (shares mode) or the amount at the probability read before the
    trade; the caller held at least that many, the position shrinks by
    exactly that many and stays non-negative, the holding row is kept, and
    the balance grows by the proceeds. *)
Theorem trade_sell_effect :
  forall (caller : Id) (req : TradeRequest) (st st' : Store)
         (outcome : Outcome),
    treq_type req = SELL ->
    findOutcomeIn (treq_outcomeId req) (treq_marketId req) st = Some outcome ->
    POST_trades caller req st = Ok st' ->
    exists shares,
      (if treq_isSharesMode req then shares = treq_amount req
       else shares * outcome_probability outcome == treq_amount req)
      /\ shares <= quantityHeld caller (treq_outcomeId req) st
      /\ quantityHeld caller (treq_outcomeId req) st'
         == quantityHeld caller (treq_outcomeId req) st - shares
      /\ 0 <= quantityHeld caller (treq_outcomeId req) st'
      /\ findHolding caller (treq_outcomeId req) st' <> None
      /\ balance caller st'
         == balance caller st
            + (if treq_isSharesMode req
               then treq_amount req * outcome_probability outcome
               else treq_amount req).
Proof.
  intros caller req st st' outcome Ht Fo H.
  apply POST_trades_inv in H.
  destruct H as [user [market [o [Fu [Hpos [_ [_ [Fo' [_ H]]]]]]]]].
  rewrite Fo in Fo'. inversion Fo'. subst o. clear Fo'.
  destruct (balance_of_found caller user st Fu) as [Hb Hid].
  apply tradeTransaction_effect in H.
  destruct H as [uh [st1 [pl [Hcs [Hh [Hhs [Hin [Hus _]]]]]]]].
  destruct (checkShares_sell user outcome req st uh Ht Hcs)
    as [h [shares [-> [Fh [Hsh Hle]]]]].
  rewrite Hid in Fh.
  assert (Hst1 : holdings st1
                 = map (updAt holding_id (holding_id h)
                          (setQuantity (fun q => q - shares))) (holdings st)).
  { unfold applyHoldings in Hh. rewrite Ht in Hh. rewrite Hsh in Hh.
    cbn [bind] in Hh. inv_res. apply update_inv in E.
    destruct E as [_ ->]. reflexivity. }
  assert (Hq' : quantityHeld caller (treq_outcomeId req) st'
                == quantityHeld caller (treq_outcomeId req) st - shares
                /\ findHolding caller (treq_outcomeId req) st' <> None).
  { unfold quantityHeld, findHolding in *. rewrite Hhs, Hst1.
    rewrite (find_map_updAt holding_id) by reflexivity.
    rewrite Fh. cbn [option_map]. unfold updAt. rewrite Nat.eqb_refl.
    cbn [setQuantity holding_quantity]. split; [reflexivity | discriminate]. }
  destruct Hq' as [Hq' Hkept].
  assert (Hheld : quantityHeld caller (treq_outcomeId req) st
                  = holding_quantity h)
    by (unfold quantityHeld; rewrite Fh; reflexivity).
  exists shares. split; [|split; [|split; [|split; [|split]]]].
  - destruct (treq_isSharesMode req).
    + inversion Hsh. reflexivity.
    + apply divide_Ok in Hsh. destruct Hsh as [Hp ->]. field. exact Hp.
  - rewrite Hheld. exact Hle.
  - exact Hq'.
  - rewrite Hq', Hheld. lra.
  - exact Hkept.
  - unfold balance. rewrite Hus, Hid.
    rewrite balanceIn_credit by (rewrite <- Hid; exact Hin).
    rewrite Nat.eqb_refl. unfold tradeCash. rewrite Ht. reflexivity.
Qed.

(** Bob sells his 40 shares at 0.99. *)
Lemma trade_sell_effect_witness :
  exists st',
    POST_trades bob (mkTradeRequest theMarket 100%nat 40 SELL true)
                bobHolds40 = Ok st'
    /\ quantityHeld bob 100%nat st' == 0
    /\ balance bob st' == balance bob bobHolds40 + 40 * 0.99.
Proof.
  destruct (POST_trades bob (mkTradeRequest theMarket 100%nat 40 SELL true)
              bobHolds40) as [st'|] eqn:E;
    [|exfalso; vm_compute in E; discriminate E].
  exists st'. split; [reflexivity|].
  assert (Fo : findOutcomeIn 100%nat theMarket bobHolds40
               = Some (mkOutcome 100%nat theMarket (99 # 100) false))
    by (vm_compute; reflexivity).
  destruct (trade_sell_effect bob
              (mkTradeRequest theMarket 100%nat 40 SELL true)
              bobHolds40 st' _ eq_refl Fo E)
    as [shares [Hs [_ [Hq [_ [_ Hb]]]]]].
  cbn [treq_isSharesMode treq_amount treq_outcomeId outcome_probability]
    in Hs, Hq, Hb.
  subst shares.
  split.
  - rewrite Hq. vm_compute. reflexivity.
  - rewrite Hb. reflexivity.
Defined.

(** ** What a trade leaves alone *)

Lemma map_id_in {A : Type} (f : A -> A) (l : list A) :
  (forall x, In x l -> f x = x) -> map f l = l.
Proof.
  intro H. rewrite <- (map_id l) at 2. apply map_ext_in. exact H.
Qed.

(** [redistribute] on a market writes no outcome of another market. *)
Lemma redistribute_elsewhere (m oid : Id) (p : Q) (st st' : Store) :
  NoDup (map outcome_id (outcomes st)) ->
  In oid (map outcome_id
            (filter (fun o => (outcome_marketId o =? m)%nat) (outcomes st))) ->
  redistribute m oid p st = Ok st' ->
  forall m', m' <> m ->
    filter (fun o => (outcome_marketId o =? m')%nat) (outcomes st')
    = filter (fun o => (outcome_marketId o =? m')%nat) (outcomes st).
Proof.
  intros Hnd Hin H m' Hne.
  apply in_map_iff in Hin. destruct Hin as [t [Ht Hin]].
  apply filter_In in Hin. destruct Hin as [Hint Hmt].
  apply Nat.eqb_eq in Hmt.
  assert (Hother : forall r, In r (outcomes st) -> outcome_marketId r = m' ->
                     (outcome_id r =? oid)%nat = false).
  { intros r Hr Hm. apply Nat.eqb_neq. intro Hid.
    assert (r = t) by (apply (same_key_eq outcome_id (outcomes st));
                       [exact Hnd | exact Hr | exact Hint | congruence]).
    subst r. congruence. }
  destruct (le_lt_dec 2 (outcomeCount m st)) as [Hc | Hc].
  - destruct (redistribute_inv m oid p st st' Hnd Hc H) as [_ [_ ->]].
    cbn [outcomes with_outcomes].
    rewrite filter_map_comm
      by (intro x; rewrite rescaled_marketId; reflexivity).
    apply map_id_in. intros r Hr. apply filter_In in Hr.
    destruct Hr as [Hr Hm]. apply Nat.eqb_eq in Hm.
    unfold rescaled. rewrite (Hother r Hr Hm).
    assert (Hmm : (outcome_marketId r =? m)%nat = false)
      by (apply Nat.eqb_neq; congruence).
    rewrite Hmm. reflexivity.
  - unfold redistribute in H. unfold outcomeCount in Hc.
    assert (Hlt : (1 <? length
                          (filter (fun o => (outcome_marketId o =? m)%nat)
                                  (outcomes st)))%nat = false)
      by (apply Nat.ltb_ge; lia).
    rewrite Hlt in H. cbn [bind] in H. inv_res.
    apply update_inv in E. destruct E as [_ ->].
    cbn [outcomes with_outcomes].
    rewrite filter_map_comm.
    2:{ intro x. unfold updAt. destruct (outcome_id x =? _)%nat;
          reflexivity. }
    apply map_id_in. intros r Hr. apply filter_In in Hr.
    destruct Hr as [Hr Hm]. apply Nat.eqb_eq in Hm.
    unfold updAt. rewrite (Hother r Hr Hm). reflexivity.
Qed.

Lemma findUnique_updAt_other {A : Type} (key : A -> Id) (f : A -> A)
    (id id' : Id) (tbl : list A) :
  (forall r, key (f r) = key r) -> id' <> id ->
  findUnique key id' (map (updAt key id f) tbl) = findUnique key id' tbl.
Proof.
  intros Hf Hne. rewrite (findUnique_updAt key f Hf).
  destruct (findUnique key id' tbl) as [r|] eqn:F; [|reflexivity].
  apply (findUnique_Some key) in F. destruct F as [_ Hk].
  cbn [option_map]. unfold updAt.
  assert (Hx : (key r =? id)%nat = false)
    by (apply Nat.eqb_neq; congruence).
  rewrite Hx. reflexivity.
Qed.

(** A search that the updated row does not answer is not changed by the
    update. *)
Lemma find_map_updAt_miss {A : Type} (key : A -> Id) (p : A -> bool)
    (id : Id) (f : A -> A) (l : list A) :
  (forall r, In r l -> key r = id -> p r = false /\ p (f r) = false) ->
  find p (map (updAt key id f) l) = find p l.
Proof.
  induction l as [|x l IH]; intro H; [reflexivity|].
  cbn [map find].
  destruct (key x =? id)%nat eqn:E.
  - assert (Hx : updAt key id f x = f x) by (unfold updAt; rewrite E; auto).
    rewrite Hx. apply Nat.eqb_eq in E.
    destruct (H x (or_introl eq_refl) E) as [H1 H2]. rewrite H1, H2.
    apply IH. intros r Hr. apply H. right. exact Hr.
  - assert (Hx : updAt key id f x = x) by (unfold updAt; rewrite E; auto).
    rewrite Hx. destruct (p x); [reflexivity|].
    apply IH. intros r Hr. apply H. right. exact Hr.
Qed.

(** The holdings of everybody else, and the caller's holdings of other
    outcomes, after the holdings step of a trade. *)
Lemma applyHoldings_others (user : User) (outcome : Outcome)
    (req : TradeRequest) (st st' : Store) (pl : Q) (uh : option UserOutcome) :
  NoDup (map holding_id (holdings st)) ->
  (treq_type req = SELL ->
   uh = findHolding (user_id user) (treq_outcomeId req) st) ->
  applyHoldings user outcome req uh st = Ok (st', pl) ->
  forall u oid,
    u <> user_id user \/ oid <> treq_outcomeId req ->
    findHolding u oid st' = findHolding u oid st.
Proof.
  intros Hnd Huh H u oid Hne.
  assert (Hmiss : forall h f,
            findHolding (user_id user) (treq_outcomeId req) st = Some h ->
            (forall r, holding_userId (f r) = holding_userId r
                       /\ holding_outcomeId (f r) = holding_outcomeId r) ->
            find (fun h => (holding_userId h =? u)%nat
                           && (holding_outcomeId h =? oid)%nat)
                 (map (updAt holding_id (holding_id h) f) (holdings st))
            = find (fun h => (holding_userId h =? u)%nat
                             && (holding_outcomeId h =? oid)%nat)
                   (holdings st)).
  { intros h f Fh Hf. apply find_map_updAt_miss. intros r Hr Hk.
    unfold findHolding in Fh. apply find_some in Fh.
    destruct Fh as [Hh Hp]. apply andb_true_iff in Hp.
    destruct Hp as [Hp1 Hp2]. apply Nat.eqb_eq in Hp1, Hp2.
    assert (r = h) by (apply (same_key_eq holding_id (holdings st));
                       assumption).
    subst r. destruct (Hf h) as [-> ->]. rewrite Hp1, Hp2.
    assert (Hx : (user_id user =? u)%nat && (treq_outcomeId req =? oid)%nat
                 = false).
    { apply andb_false_iff. destruct Hne as [Hne | Hne]; [left | right];
        apply Nat.eqb_neq; congruence. }
    rewrite Hx. auto. }
  unfold applyHoldings in H. destruct (treq_type req) eqn:Ht.
  - inv_res.
    destruct (findHolding (user_id user) (treq_outcomeId req) st) as [h|]
      eqn:Fh.
    + inv_res.
      match goal with
      | E : update _ _ _ _ = Ok _ |- _ =>
          apply update_inv in E; destruct E as [_ ->]
      end.
      unfold findHolding at 1. cbn [holdings with_holdings].
      apply (Hmiss h _ eq_refl). intro r. split; reflexivity.
    + inv_res. unfold findHolding.
      cbn [createHolding holdings with_holdings with_nextId].
      destruct (find (fun h => (holding_userId h =? u)%nat
                               && (holding_outcomeId h =? oid)%nat)
                     (holdings st)) as [x|] eqn:Fx.
      * apply find_app_some. exact Fx.
      * rewrite (find_app_none _ _ _ Fx). cbn [find].
        cbn [holding_userId holding_outcomeId].
        assert (Hx : (user_id user =? u)%nat
                     && (treq_outcomeId req =? oid)%nat = false).
        { apply andb_false_iff. destruct Hne as [Hne | Hne]; [left | right];
            apply Nat.eqb_neq; congruence. }
        rewrite Hx. reflexivity.
  - inv_res. rewrite (Huh eq_refl) in H.
    destruct (findHolding (user_id user) (treq_outcomeId req) st) as [h|]
      eqn:Fh.
    + inv_res.
      match goal with
      | E : update _ _ _ _ = Ok _ |- _ =>
          apply update_inv in E; destruct E as [_ ->]
      end.
      unfold findHolding at 1. cbn [holdings with_holdings].
      apply (Hmiss h _ eq_refl). intro r. split; reflexivity.
    + inv_res. reflexivity.
Qed.

(** X4.  A trade on the trade route touches the caller and the traded
    market only: no order changes, every other user keeps balance and
    holdings, the caller keeps the holdings of other outcomes, and every
    other market keeps its row and the probabilities of its outcomes.
    Identifiers of outcomes and of holdings are distinct. *)
Theorem trade_leaves_the_rest_alone :
  forall (caller : Id) (req : TradeRequest) (st st' : Store),
    NoDup (map outcome_id (outcomes st)) ->
    NoDup (map holding_id (holdings st)) ->
    POST_trades caller req st = Ok st' ->
    orders st' = orders st
    /\ (forall u, u <> caller ->
          findUnique user_id u (users st') = findUnique user_id u (users st))
    /\ (forall u oid, u <> caller \/ oid <> treq_outcomeId req ->
          findHolding u oid st' = findHolding u oid st)
    /\ (forall m, m <> treq_marketId req ->
          findUnique market_id m (markets st')
          = findUnique market_id m (markets st)
          /\ filter (fun o => (outcome_marketId o =? m)%nat) (outcomes st')
             = filter (fun o => (outcome_marketId o =? m)%nat) (outcomes st)).
Proof.
  intros caller req st st' Hndo Hndh H.
  apply POST_trades_inv in H.
  destruct H as [user [market [outcome [Fu [_ [_ [_ [Fo [_ H]]]]]]]]].
  destruct (balance_of_found caller user st Fu) as [_ Hid].
  pose proof (tradeTransaction_inv _ _ _ _ _ _ H) as Hinv.
  destruct Hinv as [st0 [Hout [_ [_ Hred]]]].
  apply tradeTransaction_effect in H.
  destruct H as [uh [st1 [pl [Hcs [Hh [Hhs [_ [Hus [Hor [_ [_ Hmk]]]]]]]]]]].
  split; [exact Hor|]. split; [|split].
  - intros u Hne. rewrite Hus.
    apply findUnique_updAt_other; [reflexivity | congruence].
  - intros u oid Hne. unfold findHolding at 1. rewrite Hhs.
    change (find _ (holdings st1)) with (findHolding u oid st1).
    assert (Huh : treq_type req = SELL ->
                  uh = findHolding (user_id user) (treq_outcomeId req) st).
    { intro Ht.
      destruct (checkShares_sell user outcome req st uh Ht Hcs)
        as [h [shares [-> [Fh _]]]].
      symmetry. exact Fh. }
    rewrite <- Hid in Hne.
    match type of Hh with
    | applyHoldings _ _ _ _ ?s = _ =>
        exact (applyHoldings_others user outcome req s st1 pl uh Hndh Huh Hh
                 u oid Hne)
    end.
  - intros m Hne. split.
    + rewrite Hmk. apply findUnique_updAt_other; [reflexivity | exact Hne].
    + rewrite <- Hout.
      eapply (redistribute_elsewhere (treq_marketId req) (treq_outcomeId req)).
      * rewrite Hout. exact Hndo.
      * rewrite Hout. apply (findOutcomeIn_market _ _ _ _ Fo).
      * exact Hred.
      * exact Hne.
Qed.

(** Bob's sale leaves Alice's account and the order book as they were. *)
Lemma trade_leaves_the_rest_alone_witness :
  exists st',
    POST_trades bob (mkTradeRequest theMarket 100%nat 40 SELL true)
                bobHolds40 = Ok st'
    /\ findUnique user_id alice (users st')
       = findUnique user_id alice (users bobHolds40)
    /\ orders st' = orders bobHolds40.
Proof.
  destruct (POST_trades bob (mkTradeRequest theMarket 100%nat 40 SELL true)
              bobHolds40) as [st'|] eqn:E;
    [|exfalso; vm_compute in E; discriminate E].
  exists st'. split; [reflexivity|].
  assert (H1 : NoDup (map outcome_id (outcomes bobHolds40))).
  { vm_compute.
    repeat (constructor; [cbn; intuition discriminate|]). constructor. }
  assert (H2 : NoDup (map holding_id (holdings bobHolds40))).
  { vm_compute.
    repeat (constructor; [cbn; intuition discriminate|]). constructor. }
  destruct (trade_leaves_the_rest_alone bob
              (mkTradeRequest theMarket 100%nat 40 SELL true)
              bobHolds40 st' H1 H2 E) as [Ho [Hu _]].
  split; [apply Hu; discriminate | exact Ho].
Defined.

(** ** Buying and selling back *)








